(** * A-share analyzer: cache manager, source manager and read-through layer

    A shallow embedding of the data-acquisition layer of
    [scripts/a_share_analyzer.py]: the two-tier [CacheManager], the
    health-tracked [DataSourceManager], the cache-wrapped fetch functions
    and the input validation of [analyze_stock].

    Modelling conventions.
    - A pandas DataFrame is the list of its rows, in index order;
      [df.empty] is the empty list.
    - The date column holds date-like values ([cell]); after
      [pd.to_datetime(..).dt.strftime('%Y-%m-%d')] it holds 'YYYY-MM-DD'
      strings, which compare as the (year, month, day) triple they print.
      [pd.to_datetime] is the one of pandas 2: it infers one format for a
      column of strings and holds nanosecond timestamps.
    - Wall-clock time is an integer number of microseconds since the epoch
      (the resolution of [datetime.now()]); rounding of the float
      timestamps is not modelled.
    - Python code that mutates the module-level [cache] and [data_source]
      objects, reads the clock, touches the cache directory or calls an
      upstream provider is a function in the monad [M]: it takes the
      [world] and returns a value or a raised exception together with the
      new world.  The [trace] of the world records every file access,
      upstream request and sleep. *)

From Stdlib Require Import ZArith.
From stdpp Require Import gmap strings list sorting pretty.

Open Scope Z_scope.

(** ** Calendar dates (Python's [datetime]) *)

Record date := Date { year : Z; month : Z; day : Z }.

Global Instance date_eq_dec : EqDecision date.
Proof. solve_decision. Defined.

(** Order of two 'YYYY-MM-DD' strings: the string comparison that pandas
    performs in [df['日期'] >= start_dt], [sort_values] and [max()]. *)
Definition date_le (a b : date) : Prop :=
  year a < year b ∨
  (year a = year b ∧ (month a < month b ∨ (month a = month b ∧ day a ≤ day b))).

Definition date_lt (a b : date) : Prop :=
  year a < year b ∨
  (year a = year b ∧ (month a < month b ∨ (month a = month b ∧ day a < day b))).

Global Instance date_le_dec : RelDecision date_le.
Proof. intros a b. unfold date_le. apply _. Defined.

Definition date_max (a b : date) : date := if decide (date_le a b) then b else a.

(** [datetime.toordinal]: day number in the proleptic Gregorian calendar,
    as computed by [_ymd2ord] of the [datetime] module. *)
Definition _is_leap (y : Z) : bool :=
  (y mod 4 =? 0) && (negb (y mod 100 =? 0) || (y mod 400 =? 0)).

Definition _days_before_year (y : Z) : Z :=
  let y := y - 1 in y * 365 + y / 4 - y / 100 + y / 400.

Definition _DAYS_IN_MONTH : list Z :=
  [-1; 31; 28; 31; 30; 31; 30; 31; 31; 30; 31; 30; 31].

Definition _DAYS_BEFORE_MONTH : list Z :=
  [-1; 0; 31; 59; 90; 120; 151; 181; 212; 243; 273; 304; 334].

Definition _days_before_month (y m : Z) : Z :=
  nth (Z.to_nat m) _DAYS_BEFORE_MONTH 0 + (if (2 <? m) && _is_leap y then 1 else 0).

Definition _ymd2ord (d : date) : Z :=
  _days_before_year (year d) + _days_before_month (year d) (month d) + day d.

Definition _DI400Y : Z := 146097.
Definition _DI100Y : Z := 36524.
Definition _DI4Y : Z := 1461.

(** [datetime.fromordinal], following [_ord2ymd]. *)
Definition _ord2ymd (n : Z) : date :=
  let n := n - 1 in
  let n400 := n / _DI400Y in
  let n := n mod _DI400Y in
  let y := n400 * 400 + 1 in
  let n100 := n / _DI100Y in
  let n := n mod _DI100Y in
  let n4 := n / _DI4Y in
  let n := n mod _DI4Y in
  let n1 := n / 365 in
  let n := n mod 365 in
  let y := y + n100 * 100 + n4 * 4 + n1 in
  if (n1 =? 4) || (n100 =? 4) then Date (y - 1) 12 31
  else
    let leapyear := (n1 =? 3) && (negb (n4 =? 24) || (n100 =? 3)) in
    let m := Z.shiftr (n + 50) 5 in
    let preceding :=
      nth (Z.to_nat m) _DAYS_BEFORE_MONTH 0 + (if (2 <? m) && leapyear then 1 else 0) in
    if n <? preceding then
      let m := m - 1 in
      let preceding :=
        preceding - (nth (Z.to_nat m) _DAYS_IN_MONTH 0 + (if (m =? 2) && leapyear then 1 else 0)) in
      Date y m (n - preceding + 1)
    else Date y m (n - preceding + 1).

(** [(a - b).days] for two midnight datetimes. *)
Definition days_between (a b : date) : Z := _ymd2ord a - _ymd2ord b.

(** [_days_in_month] of the [datetime] module. *)
Definition _days_in_month (y m : Z) : Z :=
  if (m =? 2) && _is_leap y then 29 else nth (Z.to_nat m) _DAYS_IN_MONTH 0.

(** The dates that [datetime] holds: a year from 1 to 9999, a month, and
    a day of that month. *)
Definition is_calendar_date (d : date) : bool :=
  (1 <=? year d) && (year d <=? 9999) && (1 <=? month d) && (month d <=? 12)
  && (1 <=? day d) && (day d <=? _days_in_month (year d) (month d)).

(** ** Date strings

    A [date] also stands for the string that [strftime('%Y-%m-%d')]
    prints for it.  The dates of a column are printed by pandas and have
    a year of four digits (see [in_timestamp_range]): among them the
    order of the strings is [date_le].  A request date is printed by
    Python's own [strftime], which (with glibc) prints a year below 1000
    without leading zeros; such a string is compared with the string of a
    stored date character by character, and [-] sorts before the
    digits. *)

(** The number of digits that [%Y] prints for a year from 1 to 9999. *)
Definition year_digits (y : Z) : Z :=
  if y <? 10 then 1 else if y <? 100 then 2 else if y <? 1000 then 3 else 4.

(** The first [year_digits y] digits of a year of four digits. *)
Definition year_prefix (stored y : Z) : Z := stored / 10 ^ (4 - year_digits y).

(** [s >= bound] and [s <= bound] for the string [s] of a stored date and
    the string [bound] of a request date. *)
Definition str_ge (stored bound : date) : Prop :=
  if decide (1000 ≤ year bound) then date_le bound stored
  else year bound ≤ year_prefix (year stored) (year bound).

Definition str_le (stored bound : date) : Prop :=
  if decide (1000 ≤ year bound) then date_le stored bound
  else year_prefix (year stored) (year bound) < year bound.

Global Instance str_ge_dec : RelDecision str_ge.
Proof. intros a b. unfold str_ge. destruct (decide _); apply _. Defined.

Global Instance str_le_dec : RelDecision str_le.
Proof. intros a b. unfold str_le. destruct (decide _); apply _. Defined.

(** ** Exceptions *)

Inductive exn := Exception (msg : string).

Definition str (e : exn) : string := match e with Exception msg => msg end.

Inductive outcome (A : Type) :=
| Return (a : A)
| Raised (e : exn).
Arguments Return {A} a.
Arguments Raised {A} e.

(** ** Date-like values *)

(** What a date column or a date argument may hold: an ISO string
    'YYYY-MM-DD', a compact string 'YYYYMMDD' (the digits are those of the
    triple, which need not be a date of the calendar), a [datetime] or
    [Timestamp] object with a time of day (microseconds after midnight),
    or text that no date parser used here accepts. *)
Inductive cell :=
| IsoStr (d : date)
| CompactStr (d : date)
| Stamp (d : date) (usec : Z)
| Junk (s : string).

(** The two formats that [pd.to_datetime] can infer here: ['%Y-%m-%d']
    and ['%Y%m%d']. *)
Inductive date_format := Ymd_dashed | Ymd_compact.

Global Instance date_format_eq_dec : EqDecision date_format.
Proof. solve_decision. Defined.

(** [_guess_datetime_format_for_array]: the format is guessed from the
    first value of the column when it is a string; there is none when the
    first value is an object. *)
Definition _guess_datetime_format_for_array (column : list cell) : option date_format :=
  match column with
  | IsoStr _ :: _ => Some Ymd_dashed
  | CompactStr _ :: _ => Some Ymd_compact
  | _ => None
  end.

(** What a [Timestamp] of nanosecond resolution can hold: a date of the
    calendar from 1677-09-22 to 2262-04-11, with a time of day, up to
    23:47:16.854775 on the last day.  ([Timestamp.min] falls on
    1677-09-21 at 00:12:43.145224193; that day is left out as a whole.) *)
Definition in_timestamp_range (d : date) (usec : Z) : bool :=
  is_calendar_date d
  && bool_decide (date_le (Date 1677 9 22) d) && bool_decide (date_le d (Date 2262 4 11))
  && (0 <=? usec) && (usec <? 86400000000)
  && (negb (bool_decide (d = Date 2262 4 11)) || (usec <=? 85636854775)).

(** A date that a date column can hold after [pd.to_datetime]. *)
Definition timestamp_day (d : date) : bool := in_timestamp_range d 0.

(** [pd.to_datetime(column).dt.strftime('%Y-%m-%d')] on one value of a
    column: its calendar day.  Under an inferred [format] a string must
    be in that format, with no format it is parsed on its own; an object
    is converted as it is.  A value outside the range of a [Timestamp]
    raises, and so does junk. *)
Definition to_datetime (format : option date_format) (c : cell) : outcome date :=
  match c with
  | IsoStr d =>
      match format with
      | Some Ymd_compact =>
          Raised (Exception "time data doesn't match format '%Y%m%d'")
      | _ =>
          if timestamp_day d then Return d
          else Raised (Exception "Out of bounds nanosecond timestamp")
      end
  | CompactStr d =>
      match format with
      | Some Ymd_dashed =>
          Raised (Exception "time data doesn't match format '%Y-%m-%d'")
      | _ =>
          if timestamp_day d then Return d
          else Raised (Exception "Out of bounds nanosecond timestamp")
      end
  | Stamp d usec =>
      if in_timestamp_range d usec then Return d
      else Raised (Exception "Out of bounds nanosecond timestamp")
  | Junk s => Raised (Exception ("Unknown datetime string format: " +:+ s))
  end.

(** [datetime.strptime(s, "%Y%m%d")]: only the compact form parses, and
    only when its digits are a date of the calendar. *)
Definition strptime_Ymd (c : cell) : outcome date :=
  match c with
  | CompactStr d =>
      if is_calendar_date d then Return d
      else Raised (Exception "time data does not match format '%Y%m%d'")
  | _ => Raised (Exception "time data does not match format '%Y%m%d'")
  end.

(** [datetime.strptime(s, '%Y-%m-%d')] on the string printed for a date:
    [%Y] wants four digits. *)
Definition strptime_Y_m_d (d : date) : outcome date :=
  if decide (1000 ≤ year d) then Return d
  else Raised (Exception "time data does not match format '%Y-%m-%d'").

(** What a provider call does: it raises, or returns a table or [None]. *)
Abbreviation fetch A := (outcome (option (list A))).

(** ** DataFrames *)

(** A DataFrame with a date column; [V] holds the other columns. *)
Abbreviation table V := (list (cell * V)).

(** A DataFrame whose date column holds 'YYYY-MM-DD' strings. *)
Abbreviation frame V := (list (date * V)).

Section Analyzer.

(** [V]: the columns of a historical row other than the date (open, high,
    low, close, volume, amount, change_percent, turnover).  [Q]: a row of
    the realtime quotes table.  [R]: the dictionary of indicators that
    [analyze_stock] builds from a price table; [technical_report] stands
    for the indicator and scoring code, whose arguments are the table, the
    stock name, the symbol, the period and the clock reading. *)
Context {V Q R : Type}.
Variable technical_report : table V → string → string → string → Z → R.

(** The table whose date values are the strings of a [frame]. *)
Definition iso (f : frame V) : table V := prod_map IsoStr id <$> f.

(** The values of a column parsed under one [format]; the first value
    that does not parse raises. *)
Fixpoint parse_dates (format : option date_format) (df : table V) : outcome (frame V) :=
  match df with
  | [] => Return []
  | (c, v) :: rest =>
      match to_datetime format c with
      | Raised e => Raised e
      | Return d =>
          match parse_dates format rest with
          | Raised e => Raised e
          | Return f => Return ((d, v) :: f)
          end
      end
  end.

(** [df['日期'] = pd.to_datetime(df['日期']).dt.strftime('%Y-%m-%d')] *)
Definition normalize_dates (df : table V) : outcome (frame V) :=
  parse_dates (_guess_datetime_format_for_array df.*1) df.

Definition row_le (r1 r2 : date * V) : Prop := date_le r1.1 r2.1.
Definition row_lt (r1 r2 : date * V) : Prop := date_lt r1.1 r2.1.

Global Instance row_le_dec : RelDecision row_le.
Proof. intros r1 r2. unfold row_le. apply _. Defined.

(** [df.drop_duplicates(subset=['日期'], keep='last')]: a row is dropped
    when a later row carries the same date; survivors keep their order. *)
Fixpoint drop_duplicates (f : frame V) : frame V :=
  match f with
  | [] => []
  | r :: rest =>
      if decide (r.1 ∈ rest.*1) then drop_duplicates rest
      else r :: drop_duplicates rest
  end.

(** [df.sort_values('日期').reset_index(drop=True)].  The order pandas
    gives to rows of equal date is not specified; here it is the one of
    a merge sort. *)
Definition sort_values (f : frame V) : frame V := merge_sort row_le f.

(** [df[(df['日期'] >= start_dt) & (df['日期'] <= end_dt)]], where
    [start_dt] and [end_dt] are the strings of the request dates. *)
Definition between (start_dt end_dt : date) (f : frame V) : frame V :=
  filter (λ r, str_ge r.1 start_dt ∧ str_le r.1 end_dt) f.

(** [df['日期'].max()]; on an empty column the later [strptime] raises. *)
Definition column_max (f : frame V) : outcome date :=
  match f with
  | [] => Raised (Exception "strptime() argument 1 must be str, not float")
  | r :: rest => Return (foldl date_max r.1 rest.*1)
  end.

Definition empty {A} (df : list A) : bool :=
  match df with [] => true | _ => false end.

(** ** The world: clock, cache directory, providers, the two managers *)

(** A file of the cache directory: a parquet table, or bytes that
    [pd.read_parquet] cannot read. *)
Inductive file :=
| Parquet (t : table V)
| Damaged.

(** The akshare providers behind each candidate source.  The backup
    sources are reached through adapters ([_get_sina_realtime],
    [_get_combined_realtime], [_get_tencent_history],
    [_get_csindex_history]) whose whole body sits in a [try] that returns
    [None] on any exception: they are given by their result, which is a
    table or [None] and never an exception. *)
Record upstream := {
  stock_zh_a_spot_em : fetch Q;
  _get_sina_realtime : option (list Q);
  _get_combined_realtime : option (list Q);
  stock_zh_a_hist : string → string → cell → cell → string → fetch (cell * V);
  _get_tencent_history : string → cell → cell → string → option (table V);
  index_zh_a_hist : string → string → cell → cell → fetch (cell * V);
  _get_csindex_history : string → cell → cell → option (table V);
  stock_individual_info_em : string → outcome string
}.

Inductive event :=
| FileStat (path : string)
| FileRead (path : string)
| FileWrite (path : string)
| UpstreamCall (source : string)
| Slept (usec : Z).

Record CacheManager := {
  _memory_cache : gmap string (list Q * Z);
  _cache_dir : string;
  _default_ttl : Z
}.

Record DataSourceManager := {
  request_interval : Z;
  last_request_time : Z;
  failure_count : gmap string nat;
  max_failures : nat
}.

(** [clock]: microseconds since the epoch.  [files]: the cache directory.
    [readonly]: the paths on which a write fails.  [trace]: the I/O done
    so far, most recent first. *)
Record world := {
  clock : Z;
  files : gmap string file;
  readonly : gset string;
  ak : upstream;
  cache : CacheManager;
  data_source : DataSourceManager;
  trace : list event
}.

Definition CacheManager_init (cache_dir : option string) : CacheManager :=
  {| _memory_cache := ∅;
     _cache_dir := default "~/.akshare_cache" cache_dir;
     _default_ttl := 60 |}.

Definition DataSourceManager_init : DataSourceManager :=
  {| request_interval := 1000000;
     last_request_time := 0;
     failure_count := ∅;
     max_failures := 3 |}.

Definition with_clock (t : Z) (w : world) : world :=
  {| clock := t; files := files w; readonly := readonly w; ak := ak w;
     cache := cache w; data_source := data_source w; trace := trace w |}.

Definition with_files (fs : gmap string file) (w : world) : world :=
  {| clock := clock w; files := fs; readonly := readonly w; ak := ak w;
     cache := cache w; data_source := data_source w; trace := trace w |}.

Definition with_memory_cache (m : gmap string (list Q * Z)) (w : world) : world :=
  {| clock := clock w; files := files w; readonly := readonly w; ak := ak w;
     cache := {| _memory_cache := m; _cache_dir := _cache_dir (cache w);
                 _default_ttl := _default_ttl (cache w) |};
     data_source := data_source w; trace := trace w |}.

Definition with_last_request_time (t : Z) (w : world) : world :=
  {| clock := clock w; files := files w; readonly := readonly w; ak := ak w;
     cache := cache w;
     data_source := {| request_interval := request_interval (data_source w);
                       last_request_time := t;
                       failure_count := failure_count (data_source w);
                       max_failures := max_failures (data_source w) |};
     trace := trace w |}.

Definition with_failure_count (fc : gmap string nat) (w : world) : world :=
  {| clock := clock w; files := files w; readonly := readonly w; ak := ak w;
     cache := cache w;
     data_source := {| request_interval := request_interval (data_source w);
                       last_request_time := last_request_time (data_source w);
                       failure_count := fc;
                       max_failures := max_failures (data_source w) |};
     trace := trace w |}.

Definition log (e : event) (w : world) : world :=
  {| clock := clock w; files := files w; readonly := readonly w; ak := ak w;
     cache := cache w; data_source := data_source w; trace := e :: trace w |}.

(** ** The monad of effectful code *)

Definition M (A : Type) : Type := world → outcome A * world.

Definition ret {A} (a : A) : M A := λ w, (Return a, w).

Definition raise {A} (e : exn) : M A := λ w, (Raised e, w).

Definition bind {A B} (m : M A) (k : A → M B) : M B := λ w,
  match m w with
  | (Return a, w') => k a w'
  | (Raised e, w') => (Raised e, w')
  end.

(** [try: body / except Exception as e: handler] *)
Definition try_except {A} (body : M A) (handler : exn → M A) : M A := λ w,
  match body w with
  | (Return a, w') => (Return a, w')
  | (Raised e, w') => handler e w'
  end.

(** A pure computation that may raise. *)
Definition lift {A} (o : outcome A) : M A := λ w, (o, w).

Definition get {A} (f : world → A) : M A := λ w, (Return (f w), w).

Definition modify (f : world → world) : M unit := λ w, (Return tt, f w).

Global Instance M_ret : MRet M := @ret.
Global Instance M_bind : MBind M := λ A B k m, bind m k.

(** ** CacheManager *)

(** Strings are sequences of characters below [U+0100]; the texts of
    messages are the bytes of the source's literals. *)

Definition _get_file_path (symbol period data_type : string) (w : world) : string :=
  _cache_dir (cache w) +:+ "/" +:+ data_type +:+ "_" +:+ symbol +:+ "_" +:+ period +:+ ".parquet".

(** [ttl or self._default_ttl]: [None] and [0] are falsy. *)
Definition ttl_or (ttl : option Z) (default_ttl : Z) : Z :=
  match ttl with
  | Some t => if decide (t = 0) then default_ttl else t
  | None => default_ttl
  end.

Definition get_memory (key : string) (ttl : option Z) : M (option (list Q)) := λ w,
  match _memory_cache (cache w) !! key with
  | None => (Return None, w)
  | Some (data, timestamp) =>
      let ttl := ttl_or ttl (_default_ttl (cache w)) in
      if decide (clock w - timestamp > ttl * 1000000)
      then (Return None, with_memory_cache (delete key (_memory_cache (cache w))) w)
      else (Return (Some data), w)
  end.

Definition set_memory (key : string) (data : list Q) : M unit := λ w,
  (Return tt, with_memory_cache (<[key := (data, clock w)]> (_memory_cache (cache w))) w).

Definition cache_get_realtime_quotes : M (option (list Q)) :=
  get_memory "realtime_quotes" (Some 30).

Definition cache_set_realtime_quotes (df : list Q) : M unit :=
  set_memory "realtime_quotes" df.

(** [file_path.exists()], [pd.read_parquet(file_path)] and
    [df.to_parquet(file_path, index=False)] on the cache directory.  A
    write that fails leaves the directory as it was. *)
Definition file_exists (path : string) : M bool := λ w,
  (Return (bool_decide (is_Some (files w !! path))), log (FileStat path) w).

Definition read_parquet (path : string) : M (table V) := λ w,
  match files w !! path with
  | Some (Parquet t) => (Return t, log (FileRead path) w)
  | Some Damaged => (Raised (Exception "Parquet magic bytes not found"), log (FileRead path) w)
  | None => (Raised (Exception "No such file or directory"), log (FileRead path) w)
  end.

Definition to_parquet (f : frame V) (path : string) : M unit := λ w,
  if decide (path ∈ readonly w)
  then (Raised (Exception "Permission denied"), w)
  else (Return tt, log (FileWrite path) (with_files (<[path := Parquet (iso f)]> (files w)) w)).

Definition get_historical_data
    (symbol period : string) (start_date end_date : cell) (data_type : string)
  : M (option (table V)) :=
  file_path ← get (_get_file_path symbol period data_type);
  present ← file_exists file_path;
  if negb present then mret None
  else
    try_except
      (df ← read_parquet file_path;
       if empty df then mret None
       else
         df ← lift (normalize_dates df);
         start_dt ← lift (strptime_Ymd start_date);
         end_dt ← lift (strptime_Ymd end_date);
         let filtered := between start_dt end_dt df in
         if empty filtered then mret None
         else
           cached_last_date ← lift (column_max df);
           cached_last_dt ← lift (strptime_Y_m_d cached_last_date);
           end_dt_obj ← lift (strptime_Y_m_d end_dt);
           if decide (days_between end_dt_obj cached_last_dt > 2) then mret None
           else mret (Some (iso filtered)))
      (λ _, mret None).

Definition save_historical_data (df : table V) (symbol period data_type : string) : M unit :=
  if empty df then mret tt
  else
    file_path ← get (_get_file_path symbol period data_type);
    try_except
      (new_df ← lift (normalize_dates df);
       present ← file_exists file_path;
       combined ←
         (if (present : bool) return M (frame V) then
            existing_df ← read_parquet file_path;
            existing_df ← lift (normalize_dates existing_df);
            let combined := existing_df ++ new_df in
            let combined := drop_duplicates combined in
            mret (sort_values combined)
          else mret (sort_values new_df));
       to_parquet combined file_path)
      (λ _, mret tt).

(** ** DataSourceManager *)

(** [time.sleep] *)
Definition sleep (usec : Z) (w : world) : world :=
  log (Slept usec) (with_clock (clock w + usec) w).

Definition _wait_for_rate_limit : M unit := λ w,
  let now := clock w in
  let elapsed := now - last_request_time (data_source w) in
  let w := if decide (elapsed < request_interval (data_source w))
           then sleep (request_interval (data_source w) - elapsed) w
           else w in
  (Return tt, with_last_request_time (clock w) w).

(** [self.failure_count.get(source, 0)] *)
Definition failures (source : string) (w : world) : nat :=
  default 0%nat (failure_count (data_source w) !! source).

Definition _record_failure (source : string) : M unit :=
  modify (λ w, with_failure_count
                 (<[source := S (failures source w)]> (failure_count (data_source w))) w).

Definition _record_success (source : string) : M unit :=
  modify (λ w, with_failure_count (<[source := 0%nat]> (failure_count (data_source w))) w).

Definition _is_source_healthy (source : string) : M bool :=
  get (λ w, bool_decide (failures source w < max_failures (data_source w))%nat).

(** [f"{last_error}"] *)
Definition format_error (last_error : option exn) : string :=
  match last_error with
  | None => "None"
  | Some e => str e
  end.

Definition all_sources_failed (last_error : option exn) : exn :=
  Exception ("所有数据源都不可用: " +:+ format_error last_error).

(** The loop over [sources] shared by [get_realtime_quotes],
    [get_stock_history] and [get_index_history], from a given candidate
    on, with the [last_error] seen so far.  A candidate is its name and
    what its [fetch_func] does when called.  In the [try] block only the
    call of [fetch_func] can raise, so the [except] branch is the case
    [Raised]; a result that is [None] or empty leaves the [try] block
    without a [return] and the loop goes on. *)
Fixpoint try_sources {A} (sources : list (string * fetch A)) (last_error : option exn)
  : M (list A) :=
  match sources with
  | [] =>
      modify (with_failure_count ∅);;
      raise (all_sources_failed last_error)
  | (source_name, fetch_func) :: rest =>
      healthy ← _is_source_healthy source_name;
      if negb healthy then try_sources rest last_error
      else
        _wait_for_rate_limit;;
        modify (log (UpstreamCall source_name));;
        match fetch_func with
        | Return (Some df) =>
            if negb (empty df) then _record_success source_name;; mret df
            else try_sources rest last_error
        | Return None => try_sources rest last_error
        | Raised e => _record_failure source_name;; try_sources rest (Some e)
        end
  end.

Definition realtime_sources (up : upstream) : list (string * fetch Q) :=
  [("em", stock_zh_a_spot_em up);
   ("sina", Return (_get_sina_realtime up));
   ("em_combined", Return (_get_combined_realtime up))].

Definition data_source_get_realtime_quotes : M (list Q) :=
  up ← get ak;
  try_sources (realtime_sources up) None.

Definition stock_history_sources (up : upstream)
    (symbol period : string) (start_date end_date : cell) (adjust : string)
  : list (string * fetch (cell * V)) :=
  [("em", stock_zh_a_hist up symbol period start_date end_date adjust);
   ("tx", Return (_get_tencent_history up symbol start_date end_date adjust))].

Definition get_stock_history
    (symbol period : string) (start_date end_date : cell) (adjust : string) : M (table V) :=
  up ← get ak;
  try_sources (stock_history_sources up symbol period start_date end_date adjust) None.

Definition index_history_sources (up : upstream)
    (symbol period : string) (start_date end_date : cell)
  : list (string * fetch (cell * V)) :=
  [("em", index_zh_a_hist up symbol period start_date end_date);
   ("csindex", Return (_get_csindex_history up symbol start_date end_date))].

Definition get_index_history
    (symbol period : string) (start_date end_date : cell) : M (table V) :=
  up ← get ak;
  try_sources (index_history_sources up symbol period start_date end_date) None.

(** ** Cache-wrapped fetch functions *)

Definition get_realtime_quotes_cached : M (list Q) :=
  cached ← cache_get_realtime_quotes;
  match cached with
  | Some cached => mret cached
  | None =>
      df ← data_source_get_realtime_quotes;
      cache_set_realtime_quotes df;;
      mret df
  end.

Definition get_stock_history_cached
    (symbol period : string) (start_date end_date : cell) (adjust : string) : M (table V) :=
  let refetch : M (table V) :=
    df ← get_stock_history symbol period start_date end_date adjust;
    (if negb (empty df) return M unit
     then save_historical_data df symbol period "stock" else mret tt);;
    mret df in
  cached_df ← get_historical_data symbol period start_date end_date "stock";
  match cached_df with
  | Some cached_df => if decide (0 < length cached_df)%nat then mret cached_df else refetch
  | None => refetch
  end.

Definition get_index_history_cached
    (symbol period : string) (start_date end_date : cell) : M (table V) :=
  let refetch : M (table V) :=
    df ← get_index_history symbol period start_date end_date;
    (if negb (empty df) return M unit
     then save_historical_data df symbol period "index" else mret tt);;
    mret df in
  cached_df ← get_historical_data symbol period start_date end_date "index";
  match cached_df with
  | Some cached_df => if decide (0 < length cached_df)%nat then mret cached_df else refetch
  | None => refetch
  end.

(** ** analyze_stock *)

(** [str.isdigit] on one character of the Latin-1 range: the ASCII digits
    and the superscripts [U+00B2], [U+00B3], [U+00B9]. *)
Definition char_isdigit (c : Ascii.ascii) : bool :=
  let n := Ascii.N_of_ascii c in
  ((48 <=? n) && (n <=? 57) || (n =? 178) || (n =? 179) || (n =? 185))%N.

(** [s.isdigit()]: every character is a digit and there is at least one. *)
Definition isdigit (s : string) : bool :=
  negb (empty (String.list_ascii_of_string s))
  && forallb char_isdigit (String.list_ascii_of_string s).

(** [not symbol] *)
Definition falsy (s : string) : bool := bool_decide (s = "").

(** The dictionaries that [analyze_stock] returns. *)
Inductive response :=
| Error (msg : string)
| Analysis (r : R).

Definition epoch_ordinal : Z := 719163.
Definition usec_per_day : Z := 86400000000.

(** The calendar day of [datetime.now()] (time zone not modelled). *)
Definition today (w : world) : date := _ord2ymd (epoch_ordinal + clock w / usec_per_day).

Definition analyze_stock (symbol period : string) (days : Z) : M response :=
  if falsy symbol || negb (isdigit symbol) || negb (bool_decide (String.length symbol = 6%nat))
  then mret (Error ("无效的股票代码格式: " +:+ symbol +:+ "，必须是6位数字"))
  else
    let days := Z.max 30 (Z.min days 3650) in
    now ← get today;
    let end_date := CompactStr now in
    let start_date := CompactStr (_ord2ymd (_ymd2ord now - days)) in
    fetched ←
      try_except
        (df ← get_stock_history_cached symbol period start_date end_date "qfq";
         mret (inl df))
        (λ e, mret (inr (Error ("获取 " +:+ symbol +:+ " 数据失败: " +:+ str e))));
    match fetched with
    | inr error => mret error
    | inl df =>
        if empty df then mret (Error ("未找到 " +:+ symbol +:+ " 的数据"))
        else
          let min_required := 30%nat in
          if decide (length df < min_required)%nat
          then mret (Error (symbol +:+ " 数据不足: 仅有 " +:+ pretty (length df) +:+
                            " 条记录，至少需要 " +:+ pretty min_required +:+ " 条"))
          else
            up ← get ak;
            modify (log (UpstreamCall "stock_individual_info_em"));;
            let stock_name :=
              match stock_individual_info_em up symbol with
              | Return name => name
              | Raised _ => symbol
              end in
            timestamp ← get clock;
            mret (Analysis (technical_report df stock_name symbol period timestamp))
    end.

End Analyzer.

(** * Further commands *)

(** ** normalize_symbol *)

(** The characters of a string, and back. *)
Definition chars (s : string) : list Ascii.ascii := String.list_ascii_of_string s.
Definition text (l : list Ascii.ascii) : string := String.string_of_list_ascii l.

(** [str.lower] on one character below [U+0100]: the letters A-Z and
    the capital letters [U+00C0]-[U+00DE] except [U+00D7]. *)
Definition lower_char (c : Ascii.ascii) : Ascii.ascii :=
  let n := Ascii.N_of_ascii c in
  if ((65 <=? n) && (n <=? 90) || (192 <=? n) && (n <=? 214)
      || (216 <=? n) && (n <=? 222))%N
  then Ascii.ascii_of_N (n + 32)
  else c.

Definition lower (l : list Ascii.ascii) : list Ascii.ascii := lower_char <$> l.

(** [s.startswith(prefix)] and [s.endswith(suffix)] *)
Definition startswith (l prefix : list Ascii.ascii) : bool :=
  bool_decide (take (length prefix) l = prefix).

Definition endswith (l suffix : list Ascii.ascii) : bool :=
  bool_decide (length suffix ≤ length l)%nat
  && bool_decide (drop (length l - length suffix) l = suffix).

(** [for prefix in prefixes: if symbol.startswith(prefix):
    symbol = symbol[len(prefix):]; break] *)
Fixpoint strip_prefix (prefixes : list string) (symbol : list Ascii.ascii)
  : list Ascii.ascii :=
  match prefixes with
  | [] => symbol
  | prefix :: rest =>
      if startswith symbol (chars prefix) then drop (length (chars prefix)) symbol
      else strip_prefix rest symbol
  end.

(** [for suffix in suffixes: if symbol.endswith(suffix):
    symbol = symbol[:-len(suffix)]; break] *)
Fixpoint strip_suffix (suffixes : list string) (symbol : list Ascii.ascii)
  : list Ascii.ascii :=
  match suffixes with
  | [] => symbol
  | suffix :: rest =>
      if endswith symbol (chars suffix)
      then take (length symbol - length (chars suffix)) symbol
      else strip_suffix rest symbol
  end.

Definition normalize_symbol (symbol : string) : string :=
  if bool_decide (symbol = "") then symbol
  else
    let symbol := lower (chars symbol) in
    let symbol := strip_prefix ["sh"; "sz"; "bj"] symbol in
    let symbol := strip_suffix [".sh"; ".sz"; ".bj"] symbol in
    text symbol.

(** ** get_bb_signal and get_comprehensive_score *)

Section Score.

(** [F] stands for the floats of a row of indicators.  The comparisons
    [>] and [<], [pd.isna] and the conversion of an integer literal are
    left open: what is proved below holds whatever they answer, in
    particular on NaN. *)
Context {F : Type}.
Variable isna : F → bool.
Variable gt lt : F → F → bool.
Variable num : Z → F.

(** The columns of [latest] that the score reads; [EMA200] may be
    missing from the row ([latest.get('EMA200', np.nan)]). *)
Record indicators := {
  RSI : F;
  MACD : F;
  MACD_signal : F;
  MACD_hist : F;
  close : F;
  BB_upper : F;
  BB_lower : F;
  SMA20 : F;
  EMA50 : F;
  EMA200 : option F;
  Stoch_K : F
}.

Definition get_bb_signal (price upper lower middle : F) : Z * string :=
  if isna upper || isna lower then (0, "N/A")
  else if gt price upper then (-2, "SELL (超买)")
  else if lt price lower then (2, "BUY (超卖)")
  else if gt price middle then (1, "NEUTRAL (偏多)")
  else (-1, "NEUTRAL (偏空)").

(** [f"{n:+d}"] *)
Definition format_signed (n : Z) : string :=
  if n <? 0 then "-" +:+ pretty (Z.to_N (- n)) else "+" +:+ pretty (Z.to_N n).

Definition rsi_signal (latest : indicators) (acc : Z * list string) : Z * list string :=
  let '(score, signals) := acc in
  if isna (RSI latest) then (score, signals ++ ["RSI数据不足"])
  else if lt (RSI latest) (num 30) then (score + 2, signals ++ ["RSI超卖(+2)"])
  else if gt (RSI latest) (num 70) then (score - 2, signals ++ ["RSI超买(-2)"])
  else if lt (RSI latest) (num 45) then (score - 1, signals ++ ["RSI偏弱(-1)"])
  else if gt (RSI latest) (num 55) then (score + 1, signals ++ ["RSI偏强(+1)"])
  else (score, signals).

Definition macd_signal (latest prev : indicators) (acc : Z * list string)
  : Z * list string :=
  let '(score, signals) := acc in
  if isna (MACD latest) || isna (MACD_signal latest)
  then (score, signals ++ ["MACD数据不足"])
  else if gt (MACD latest) (MACD_signal latest) && gt (MACD_hist latest) (MACD_hist prev)
  then (score + 2, signals ++ ["MACD金叉向上(+2)"])
  else if gt (MACD latest) (MACD_signal latest)
  then (score + 1, signals ++ ["MACD金叉(+1)"])
  else if lt (MACD latest) (MACD_signal latest) && lt (MACD_hist latest) (MACD_hist prev)
  then (score - 2, signals ++ ["MACD死叉向下(-2)"])
  else (score - 1, signals ++ ["MACD死叉(-1)"]).

Definition bollinger_signal (latest : indicators) (acc : Z * list string)
  : Z * list string :=
  let '(score, signals) := acc in
  let '(bb_rating, bb_signal) :=
    get_bb_signal (close latest) (BB_upper latest) (BB_lower latest) (SMA20 latest) in
  (score + bb_rating,
   signals ++ ["布林带" +:+ bb_signal +:+ "(" +:+ format_signed bb_rating +:+ ")"]).

Definition ema_signal (latest : indicators) (acc : Z * list string) : Z * list string :=
  let '(score, signals) := acc in
  let below :=
    if lt (close latest) (EMA50 latest) then (score - 1, signals ++ ["价格<EMA50(-1)"])
    else (score, signals) in
  match EMA200 latest with
  | Some ema200 =>
      if negb (isna (EMA50 latest)) && negb (isna ema200) then
        if gt (close latest) (EMA50 latest) && gt (EMA50 latest) ema200
        then (score + 2, signals ++ ["多头排列(+2)"])
        else below
      else if negb (isna (EMA50 latest)) then below
      else (score, signals)
  | None =>
      if negb (isna (EMA50 latest)) then below else (score, signals)
  end.

Definition stochastic_signal (latest : indicators) (acc : Z * list string)
  : Z * list string :=
  let '(score, signals) := acc in
  if isna (Stoch_K latest) then (score, signals ++ ["KDJ数据不足"])
  else if lt (Stoch_K latest) (num 20) then (score + 1, signals ++ ["KD超卖(+1)"])
  else if gt (Stoch_K latest) (num 80) then (score - 1, signals ++ ["KD超买(-1)"])
  else (score, signals).

Definition overall_of (score : Z) : string :=
  if 4 <=? score then "强烈看多"
  else if 2 <=? score then "看多"
  else if -1 <=? score then "中性"
  else if -3 <=? score then "看空"
  else "强烈看空".

(** The five blocks of [get_comprehensive_score], in the order of the
    source, each adding to [score] and [signals]. *)
Definition get_comprehensive_score (latest prev : indicators) : Z * list string * string :=
  let acc := (0, []) in
  let acc := rsi_signal latest acc in
  let acc := macd_signal latest prev acc in
  let acc := bollinger_signal latest acc in
  let acc := ema_signal latest acc in
  let acc := stochastic_signal latest acc in
  let '(score, signals) := acc in
  (score, signals, overall_of score).

End Score.

(** ** Cache commands and analyze_index *)

(** The characters [*], [?] and [/]. *)
Definition star_char : Ascii.ascii := Ascii.ascii_of_N 42.
Definition question_char : Ascii.ascii := Ascii.ascii_of_N 63.
Definition slash_char : Ascii.ascii := Ascii.ascii_of_N 47.

(** [fnmatch] of a name against a pattern in which [*] stands for any
    run of characters, [?] for one character and every other character
    for itself.  This is how [Path.glob] on a POSIX system reads a
    pattern that holds no bracket expression and no path separator. *)
Fixpoint fnmatch (pattern name : list Ascii.ascii) : bool :=
  match pattern with
  | [] => empty name
  | c :: pattern' =>
      if bool_decide (c = star_char) then
        (fix star (name : list Ascii.ascii) : bool :=
           fnmatch pattern' name
           || match name with
              | [] => false
              | _ :: name' => star name'
              end) name
      else
        match name with
        | [] => false
        | c' :: name' =>
            (bool_decide (c = question_char) || bool_decide (c = c')) && fnmatch pattern' name'
        end
  end.

(** The name of [path] as an entry of the directory [dir], if it is one. *)
Definition entry_name (dir path : string) : option (list Ascii.ascii) :=
  let d := chars (dir +:+ "/") in
  let p := chars path in
  if bool_decide (take (length d) p = d) then
    let name := drop (length d) p in
    if bool_decide (slash_char ∈ name) then None else Some name
  else None.

(** Whether [dir.glob(pattern)] yields [path]. *)
Definition globbed (dir pattern path : string) : bool :=
  match entry_name dir path with
  | Some name => fnmatch (chars pattern) name
  | None => false
  end.

Section Commands.

Context {V Q R : Type}.

(** [index_report] stands for the indicator code of [analyze_index] and
    the dictionary it fills, which may raise; its arguments are the
    table, the name of the index, the symbol, the period and the clock
    reading. *)
Variable index_report : table V → string → string → string → Z → outcome R.

Definition clear_memory_cache : M (V:=V) (Q:=Q) unit :=
  modify (with_memory_cache ∅).

(** [self._cache_dir.glob(pattern)]: the entries of the cache directory
    are listed once, before the first one is yielded.  The order of the
    listing is the one of the file system; here it is the order of
    [map_to_list]. *)
Definition glob (pattern : string) : M (V:=V) (Q:=Q) (list string) :=
  get (λ w, filter (λ path, globbed (_cache_dir (cache w)) pattern path = true)
              (map_to_list (files w)).*1).

(** [f.unlink()]: a path that cannot be written cannot be removed. *)
Definition unlink (path : string) : M (V:=V) (Q:=Q) unit := λ w,
  if decide (path ∈ readonly w)
  then (Raised (Exception "Permission denied"), w)
  else (Return tt, with_files (delete path (files w)) w).

(** [for f in paths: f.unlink(); count += 1] *)
Fixpoint unlink_each (paths : list string) (count : nat) : M (V:=V) (Q:=Q) nat :=
  match paths with
  | [] => mret count
  | f :: paths => unlink f;; unlink_each paths (S count)
  end.

Definition clear_local_cache (symbol : option string) : M (V:=V) (Q:=Q) nat :=
  let pattern :=
    match symbol with
    | Some symbol =>
        if bool_decide (symbol = "") then "*.parquet"
        else "*_" +:+ symbol +:+ "_*.parquet"
    | None => "*.parquet"
    end in
  paths ← glob pattern;
  unlink_each paths 0%nat.

(** The dictionary of [clear_cache_cmd]; a key that is not set is [None]. *)
Record clear_cache_result := {
  cache_type_key : string;
  timestamp_key : Z;
  memory_cleared_key : option bool;
  local_files_deleted_key : option nat;
  symbol_key : option string
}.

Definition clear_cache_cmd (cache_type : string) (symbol : option string)
  : M (V:=V) (Q:=Q) clear_cache_result :=
  timestamp ← get clock;
  memory_cleared ←
    (if bool_decide (cache_type ∈ ["memory"; "all"]) return M (option bool)
     then clear_memory_cache;; mret (Some true)
     else mret None);
  if bool_decide (cache_type ∈ ["local"; "all"]) then
    deleted_count ← clear_local_cache symbol;
    mret {| cache_type_key := cache_type; timestamp_key := timestamp;
            memory_cleared_key := memory_cleared;
            local_files_deleted_key := Some deleted_count;
            symbol_key :=
              match symbol with
              | Some symbol => if bool_decide (symbol = "") then None else Some symbol
              | None => None
              end |}
  else
    mret {| cache_type_key := cache_type; timestamp_key := timestamp;
            memory_cleared_key := memory_cleared;
            local_files_deleted_key := None;
            symbol_key := None |}.

Definition index_names : gmap string string :=
  list_to_map
    [("000001", "上证指数"); ("399001", "深证成指"); ("399006", "创业板指");
     ("000300", "沪深300"); ("000016", "上证50"); ("000905", "中证500")].

(** [index_names.get(symbol, symbol)] *)
Definition index_name (symbol : string) : string :=
  default symbol (index_names !! symbol).

Definition analyze_index (symbol period : string) : M (V:=V) (Q:=Q) (response (R:=R)) :=
  now ← get today;
  let end_date := CompactStr now in
  let start_date := CompactStr (_ord2ymd (_ymd2ord now - 365)) in
  fetched ←
    try_except
      (df ← get_index_history_cached symbol period start_date end_date;
       mret (inl df))
      (λ e, mret (inr (Error ("获取指数 " +:+ symbol +:+ " 数据失败: " +:+ str e))));
  match fetched with
  | inr error => mret error
  | inl df =>
      if empty df then mret (Error ("未找到指数 " +:+ symbol +:+ " 的数据"))
      else
        timestamp ← get clock;
        report ← lift (index_report df (index_name symbol) symbol period timestamp);
        mret (Analysis report)
  end.

End Commands.

(** * Vocabulary of the properties *)

Section Vocabulary.

Context {V Q : Type}.

(** The world after the rate-limit wait and the call of [source]. *)
Definition invoked (source : string) (w : world (V:=V) (Q:=Q)) : world :=
  log (UpstreamCall source) (_wait_for_rate_limit w).2.

(** The sources called in a piece of trace, most recent first. *)
Fixpoint upstream_calls (events : list event) : list string :=
  match events with
  | [] => []
  | UpstreamCall source :: rest => source :: upstream_calls rest
  | _ :: rest => upstream_calls rest
  end.

(** A fetch result that ends the resolution: a table with a row. *)
Definition usable {A} (r : fetch A) : bool :=
  match r with
  | Return (Some df) => negb (empty df)
  | _ => false
  end.

(** The candidates up to and including the first usable one. *)
Fixpoint attempted {A} (sources : list (string * fetch A)) : list string :=
  match sources with
  | [] => []
  | (source, r) :: rest => if usable r then [source] else source :: attempted rest
  end.

(** The last exception raised among the candidates that [healthy] lets
    through, [last_error] when there is none. *)
Fixpoint last_raised {A} (healthy : string → bool) (sources : list (string * fetch A))
    (last_error : option exn) : option exn :=
  match sources with
  | [] => last_error
  | (source, r) :: rest =>
      last_raised healthy rest
        (if healthy source then
           match r with Raised e => Some e | _ => last_error end
         else last_error)
  end.

Definition healthy_in (w : world (V:=V) (Q:=Q)) (source : string) : bool :=
  bool_decide (failures source w < max_failures (data_source w))%nat.

(** [cached_df is not None and len(cached_df) > 0] *)
Definition is_hit (cached_df : option (table V)) : bool :=
  match cached_df with
  | Some df => bool_decide (0 < length df)%nat
  | None => false
  end.

Definition invalid_symbol (symbol : string) : Prop :=
  symbol = "" ∨
  (∃ c, c ∈ String.list_ascii_of_string symbol ∧ char_isdigit c = false) ∨
  String.length symbol ≠ 6%nat.

(** [w'] has the cache directory, the memory cache and the providers
    of [w]. *)
Definition same_store (w w' : world (V:=V) (Q:=Q)) : Prop :=
  files w' = files w ∧ readonly w' = readonly w ∧ cache w' = cache w ∧ ak w' = ak w.

(** A table whose dates all parse and strictly ascend: sorted ascending
    by date, no date twice. *)
Definition strictly_ascending (t : table V) : Prop :=
  ∃ f, normalize_dates t = Return f ∧ StronglySorted (row_lt (V:=V)) f.

(** The worlds whose cache directory started empty and was written by
    calls of [save_historical_data] only, a call that creates a partition
    being given rows of distinct dates; in between, anything may happen
    that leaves the files alone or deletes some of them. *)
Inductive kept_by_saves : world (V:=V) (Q:=Q) → Prop :=
| kept_empty w : files w = ∅ → kept_by_saves w
| kept_save w df symbol period data_type :
    kept_by_saves w →
    (files w !! _get_file_path symbol period data_type w = None →
     ∀ new_df, normalize_dates df = Return new_df → NoDup new_df.*1) →
    kept_by_saves (save_historical_data df symbol period data_type w).2
| kept_files w w' : kept_by_saves w → files w' ⊆ files w → kept_by_saves w'.

End Vocabulary.

(** * Vocabulary of the further properties *)

(** The month and day of the [n]-th day (from 0) of a year, as the last
    part of [_ord2ymd] finds them. *)
Definition month_day (leapyear : bool) (n : Z) : Z * Z :=
  let m := Z.shiftr (n + 50) 5 in
  let preceding :=
    nth (Z.to_nat m) _DAYS_BEFORE_MONTH 0 + (if (2 <? m) && leapyear then 1 else 0) in
  if n <? preceding then
    let m := m - 1 in
    let preceding :=
      preceding - (nth (Z.to_nat m) _DAYS_IN_MONTH 0 + (if (m =? 2) && leapyear then 1 else 0)) in
    (m, n - preceding + 1)
  else (m, n - preceding + 1).

Definition month_day_ok (leapyear : bool) (n : Z) : bool :=
  let '(m, d) := month_day leapyear n in
  (nth (Z.to_nat m) _DAYS_BEFORE_MONTH 0 + (if (2 <? m) && leapyear then 1 else 0) + d
   =? n + 1).

(** The row that [drop_duplicates(keep='last')] keeps for a date: the
    last one of that date. *)
Fixpoint last_value {V} (d : date) (f : frame V) : option V :=
  match f with
  | [] => None
  | (d', v) :: rest =>
      match last_value d rest with
      | Some v' => Some v'
      | None => if decide (d = d') then Some v else None
      end
  end.

(** ASCII digits only. *)
Definition ascii_digit (c : Ascii.ascii) : bool :=
  let n := Ascii.N_of_ascii c in ((48 <=? n) && (n <=? 57))%N.

Definition all_digits (s : string) : Prop := Forall (λ c, ascii_digit c = true) (chars s).

(** The key of the memory cache under which the quotes are kept. *)
Definition quotes_key : string := "realtime_quotes".

(** The window of [analyze_stock]: [max(30, min(days, 3650))]. *)
Definition clamp_days (days : Z) : Z := Z.max 30 (Z.min days 3650).

(** The rows that [save_historical_data] finds in the partition at
    [path]: none when the file is missing, those of the file when its
    dates parse. *)
Definition partition_rows {V Q} (w : world (V:=V) (Q:=Q)) (path : string)
    (existing : frame V) : Prop :=
  match files w !! path with
  | None => existing = []
  | Some (Parquet stored) => normalize_dates stored = Return existing
  | Some Damaged => False
  end.

(** A request date that [datetime.strptime] accepts and [strftime]
    prints with a year of four digits. *)
Definition request_date (d : date) : Prop := is_calendar_date d = true ∧ 1000 ≤ year d.

(** A column of date strings that begins in one of the two formats and
    holds a string in the other. *)
Definition mixed_formats (column : list cell) : Prop :=
  ∃ d d', (head column = Some (IsoStr d) ∧ CompactStr d' ∈ column) ∨
          (head column = Some (CompactStr d) ∧ IsoStr d' ∈ column).

(** [latest] is the greatest date of [f]. *)
Definition latest_of {V} (f : frame V) (latest : date) : Prop :=
  latest ∈ f.*1 ∧ ∀ d, d ∈ f.*1 → date_le d latest.

Definition underscore_char : Ascii.ascii := Ascii.ascii_of_N 95.



Definition underscore_free (s : string) : Prop := underscore_char ∉ chars s.


(** How far a block of [get_comprehensive_score] moves the score, and
    how many signals it adds. *)
Definition moves (low high : Z) (least most : nat)
    (before after : Z * list string) : Prop :=
  before.1 + low ≤ after.1 ≤ before.1 + high ∧
  (length before.2 + least ≤ length after.2 ≤ length before.2 + most)%nat.

(** * Sample worlds

    Concrete providers, stores and requests on which the properties below
    are exercised.  The columns of a row and a quote are a label. *)

Definition jan (d : Z) : date := Date 2024 1 d.

(** Providers that are all down: the primary ones raise, the adapters
    return [None]. *)
Definition providers_down : upstream (V:=string) (Q:=string) :=
  {| stock_zh_a_spot_em := Raised (Exception "Connection aborted");
     _get_sina_realtime := None;
     _get_combined_realtime := None;
     stock_zh_a_hist := λ _ _ _ _ _, Raised (Exception "Connection aborted");
     _get_tencent_history := λ _ _ _ _, None;
     index_zh_a_hist := λ _ _ _ _, Raised (Exception "Connection aborted");
     _get_csindex_history := λ _ _ _, None;
     stock_individual_info_em := λ _, Raised (Exception "Connection aborted") |}.

(** Providers whose stock history comes from [em] and [tx] as given. *)
Definition providers (em : fetch (cell * string)) (tx : option (table string))
  : upstream (V:=string) (Q:=string) :=
  {| stock_zh_a_spot_em := Raised (Exception "Connection aborted");
     _get_sina_realtime := None;
     _get_combined_realtime := None;
     stock_zh_a_hist := λ _ _ _ _ _, em;
     _get_tencent_history := λ _ _ _ _, tx;
     index_zh_a_hist := λ _ _ _ _, Raised (Exception "Connection aborted");
     _get_csindex_history := λ _ _ _, None;
     stock_individual_info_em := λ _, Return "贵州茅台" |}.

(** A process that has just started, on 2023-11-14, over the given cache
    directory and providers. *)
Definition started (fs : gmap string (file (V:=string))) (ro : gset string)
    (up : upstream (V:=string) (Q:=string)) : world :=
  {| clock := 1700000000000000; files := fs; readonly := ro; ak := up;
     cache := CacheManager_init None; data_source := DataSourceManager_init;
     trace := [] |}.

Definition maotai_daily : string := "~/.akshare_cache/stock_600519_daily.parquet".

(** A partition with rows on 2, 3 and 4 January. *)
Definition three_days : frame string :=
  [(jan 2, "d1"); (jan 3, "d2"); (jan 4, "d3")].


(** A fetch that corrects 4 January and brings 5 January. *)
Definition two_days : table string :=
  [(Stamp (jan 4) 54000000000, "d3'"); (IsoStr (jan 5), "d4")].

(** A fetch whose dates come in two formats. *)
Definition two_formats : table string :=
  [(IsoStr (jan 4), "d3'"); (CompactStr (jan 5), "d4")].

(** Two rows of one day, and a table in descending order. *)
Definition same_day_twice : table string :=
  [(Stamp (jan 4) 34200000000, "morning"); (Stamp (jan 4) 54000000000, "close")].

Definition descending : table string :=
  [(IsoStr (jan 5), "d4"); (IsoStr (jan 4), "d3")].

Definition label_report (df : table string) (name symbol period : string) (t : Z) : string :=
  name.

(** Providers whose first realtime source answers with two quotes. *)
Definition providers_quoting : upstream (V:=string) (Q:=string) :=
  {| stock_zh_a_spot_em := Return (Some ["q1"; "q2"]);
     _get_sina_realtime := None;
     _get_combined_realtime := None;
     stock_zh_a_hist := λ _ _ _ _ _, Raised (Exception "Connection aborted");
     _get_tencent_history := λ _ _ _ _, None;
     index_zh_a_hist := λ _ _ _ _, Raised (Exception "Connection aborted");
     _get_csindex_history := λ _ _ _, None;
     stock_individual_info_em := λ _, Raised (Exception "Connection aborted") |}.

Definition pingan_daily : string := "~/.akshare_cache/stock_000001_daily.parquet".

(** A cache directory with the partitions of two symbols. *)
Definition two_partitions : gmap string (file (V:=string)) :=
  {[maotai_daily := Parquet (iso three_days); pingan_daily := Parquet (iso three_days)]}.

Definition connection_aborted : exn := Exception "Connection aborted".

(** The character [U+00B2], superscript two. *)
Definition superscript_two : Ascii.ascii := Ascii.ascii_of_N 178.

(** * Properties *)

Example toordinal_2024_03_01 : _ymd2ord (Date 2024 3 1) = 738946.
Proof. reflexivity. Qed.

Example fromordinal_738946 : _ord2ymd 738946 = Date 2024 3 1.
Proof. reflexivity. Qed.

Example leap_gap : days_between (Date 2024 3 1) (Date 2024 2 27) = 3.
Proof. reflexivity. Qed.

(** ** Order of dates *)

Lemma date_le_refl a : date_le a a.
Proof. unfold date_le. lia. Qed.

Lemma date_le_trans a b c : date_le a b → date_le b c → date_le a c.
Proof. unfold date_le. lia. Qed.

Lemma date_le_total a b : date_le a b ∨ date_le b a.
Proof. unfold date_le. lia. Qed.

Lemma date_lt_irrefl a : ¬ date_lt a a.
Proof. unfold date_lt. lia. Qed.

Lemma date_lt_trans a b c : date_lt a b → date_lt b c → date_lt a c.
Proof. unfold date_lt. lia. Qed.

Lemma date_le_lt a b : date_le a b → a ≠ b → date_lt a b.
Proof.
  destruct a as [ya ma da], b as [yb mb db]. unfold date_le, date_lt. cbn.
  intros Hab Hne.
  destruct (decide (ya = yb)) as [->|]; [|lia].
  destruct (decide (ma = mb)) as [->|]; [|lia].
  destruct (decide (da = db)) as [->|]; [done|lia].
Qed.

Lemma date_max_le_l a b : date_le a (date_max a b).
Proof. unfold date_max. destruct (decide _); [done|apply date_le_refl]. Qed.

Lemma date_max_le_r a b : date_le b (date_max a b).
Proof.
  unfold date_max. destruct (decide _) as [|Hn]; [apply date_le_refl|].
  by destruct (date_le_total a b).
Qed.

Section Properties.

Context {V Q : Type}.
Implicit Types (w : world (V:=V) (Q:=Q)) (df : table V) (f : frame V).
Implicit Types (quotes : list Q) (key source : string).

(** Unfolds the monad operations so that a computation reduces to a
    function of the world. *)
Ltac run :=
  unfold mbind, M_bind, mret, M_ret, bind, ret, raise, try_except, lift, get, modify in *;
  cbn in *.

Lemma mbind_return {A B} (m : M (V:=V) (Q:=Q) A) (k : A → M B) w a w1 :
  m w = (Return a, w1) → (m ≫= k) w = k a w1.
Proof. intros Hm. unfold mbind, M_bind, bind. by rewrite Hm. Qed.

(** ** Memory cache *)

Lemma set_memory_lookup key quotes w :
  _memory_cache (cache (set_memory key quotes w).2) !! key = Some (quotes, clock w).
Proof. cbn. apply lookup_insert_eq. Qed.

Lemma get_memory_absent key ttl w :
  _memory_cache (cache w) !! key = None → get_memory key ttl w = (Return None, w).
Proof. intros Hk. unfold get_memory. by rewrite Hk. Qed.

Lemma get_memory_entry key ttl quotes T w :
  _memory_cache (cache w) !! key = Some (quotes, T) →
  get_memory key ttl w =
    if decide (clock w - T > ttl_or ttl (_default_ttl (cache w)) * 1000000)
    then (Return None, with_memory_cache (delete key (_memory_cache (cache w))) w)
    else (Return (Some quotes), w).
Proof. intros Hk. unfold get_memory. by rewrite Hk. Qed.

(** C4 (amended): a value set at time [T] is read back unchanged by
    [get_memory key ttl] as long as the clock [T'] of the read has
    [T' - T <= seconds], and is absent, the entry being deleted by that
    read, once [T' - T > seconds], where [seconds] is [ttl] itself when
    [ttl] is not zero, and the default TTL of 60 seconds when [ttl] is 0
    or [None]; a key that was never set reads as absent. *)
Theorem memory_entry_expires_after_ttl key quotes (ttl : option Z) (seconds : Z) w w' :
  (ttl = Some seconds ∧ seconds ≠ 0) ∨
  ((ttl = Some 0 ∨ ttl = None) ∧ _default_ttl (cache w') = 60 ∧ seconds = 60) →
  _memory_cache (cache w') !! key = _memory_cache (cache (set_memory key quotes w).2) !! key →
  (clock w' - clock w ≤ seconds * 1000000 →
     get_memory key ttl w' = (Return (Some quotes), w')) ∧
  (clock w' - clock w > seconds * 1000000 →
     get_memory key ttl w' =
       (Return None, with_memory_cache (delete key (_memory_cache (cache w'))) w')
     ∧ _memory_cache (cache (get_memory key ttl w').2) !! key = None) ∧
  (∀ (ttl' : option Z) (w0 : world (V:=V) (Q:=Q)),
     _memory_cache (cache w0) !! key = None →
     get_memory key ttl' w0 = (Return None, w0)).
Proof.
  intros Httl Hentry. rewrite set_memory_lookup in Hentry.
  pose proof (get_memory_entry key ttl quotes (clock w) w' Hentry) as Hget.
  assert (ttl_or ttl (_default_ttl (cache w')) = seconds) as Heff.
  { destruct Httl as [[-> Hseconds]|([->| ->] & -> & ->)]; [|done..].
    unfold ttl_or. by destruct (decide (seconds = 0)). }
  rewrite Heff in Hget. split; [|split].
  - intros Hfresh. rewrite Hget. destruct (decide _); [lia|done].
  - intros Hstale. rewrite Hget. destruct (decide _); [|lia].
    split; [done|]. cbn. apply lookup_delete_eq.
  - intros ttl' w0 Hnone. by apply get_memory_absent.
Qed.

(** C10: on an entry of the memory cache that is at most 60 seconds old,
    [get_memory] with [ttl = 0] or with no [ttl] falls back to the default
    TTL of 60 seconds: the value is returned and the cache is untouched. *)
Theorem get_memory_falsy_ttl key quotes T w :
  _default_ttl (cache w) = 60 →
  _memory_cache (cache w) !! key = Some (quotes, T) →
  clock w - T ≤ 60 * 1000000 →
  get_memory key (Some 0) w = (Return (Some quotes), w) ∧
  get_memory key None w = (Return (Some quotes), w).
Proof.
  intros Hdef Hentry Hyoung.
  rewrite !(get_memory_entry _ _ _ _ _ Hentry).
  change (ttl_or (Some 0) (_default_ttl (cache w))) with (_default_ttl (cache w)).
  change (ttl_or None (_default_ttl (cache w))) with (_default_ttl (cache w)).
  rewrite Hdef. destruct (decide _); [lia|done].
Qed.

(** ** Source manager *)

Lemma try_sources_cons {A} source (r : fetch A) rest last_error w :
  try_sources ((source, r) :: rest) last_error w =
    if healthy_in w source then
      match r with
      | Return (Some rows) =>
          if negb (empty rows) then (Return rows, (_record_success source (invoked source w)).2)
          else try_sources rest last_error (invoked source w)
      | Return None => try_sources rest last_error (invoked source w)
      | Raised e => try_sources rest (Some e) (_record_failure source (invoked source w)).2
      end
    else try_sources rest last_error w.
Proof.
  unfold healthy_in. cbn [try_sources]. unfold _is_source_healthy. run.
  destruct (bool_decide _); cbn; [|done].
  destruct r as [[rows|]|e]; cbn; try done. by destruct (empty rows).
Qed.

Lemma invoked_failure_count source w :
  failure_count (data_source (invoked source w)) = failure_count (data_source w).
Proof. unfold invoked, _wait_for_rate_limit. cbn. by destruct (decide _). Qed.

Lemma invoked_max_failures source w :
  max_failures (data_source (invoked source w)) = max_failures (data_source w).
Proof. unfold invoked, _wait_for_rate_limit. cbn. by destruct (decide _). Qed.

Lemma invoked_failures source source' w :
  failures source' (invoked source w) = failures source' w.
Proof. unfold failures. by rewrite invoked_failure_count. Qed.

Lemma invoked_trace source w :
  ∃ new, trace (invoked source w) = new ++ trace w ∧ upstream_calls new = [source].
Proof.
  unfold invoked, _wait_for_rate_limit. cbn. destruct (decide _); cbn.
  - by exists [UpstreamCall source; Slept (request_interval (data_source w)
                                          - (clock w - last_request_time (data_source w)))].
  - by exists [UpstreamCall source].
Qed.

Lemma healthy_in_invoked source source' w :
  healthy_in (invoked source w) source' = healthy_in w source'.
Proof. unfold healthy_in. by rewrite invoked_failures, invoked_max_failures. Qed.

Lemma healthy_in_record_failure source source' w :
  source ≠ source' →
  healthy_in (_record_failure source w).2 source' = healthy_in w source'.
Proof.
  intros Hne. unfold healthy_in, failures. cbn. by rewrite lookup_insert_ne.
Qed.

Lemma failures_record_failure source w :
  failures source (_record_failure source w).2 = S (failures source w).
Proof. unfold failures at 1. cbn. by rewrite lookup_insert_eq. Qed.

Lemma failures_record_failure_ne source source' w :
  source ≠ source' → failures source' (_record_failure source w).2 = failures source' w.
Proof. intros Hne. unfold failures. cbn. by rewrite lookup_insert_ne. Qed.

(** C2 (amended): when the fetch of a healthy candidate returns [None] or
    an empty table without raising, resolution goes on to the next
    candidate with the failure counts and the last error as they were;
    the count of the source is incremented only when its fetch raises. *)
Theorem empty_result_leaves_failure_count {A} source (r : fetch A) rest last_error w :
  healthy_in w source = true →
  r = Return None ∨ r = Return (Some []) →
  failure_count (data_source (invoked source w)) = failure_count (data_source w) ∧
  try_sources ((source, r) :: rest) last_error w
    = try_sources rest last_error (invoked source w) ∧
  (∀ e, try_sources ((source, Raised e) :: rest) last_error w
        = try_sources rest (Some e) (_record_failure source (invoked source w)).2
        ∧ failures source (_record_failure source (invoked source w)).2
          = S (failures source w)).
Proof.
  intros Hh Hr. split; [apply invoked_failure_count|]. split.
  - rewrite try_sources_cons, Hh. by destruct Hr as [-> | ->].
  - intros e. rewrite try_sources_cons, Hh. split; [done|].
    by rewrite failures_record_failure, invoked_failures.
Qed.

Lemma upstream_calls_app (new old : list event) :
  upstream_calls (new ++ old) = upstream_calls new ++ upstream_calls old.
Proof.
  induction new as [|ev new IH]; [done|].
  destruct ev; cbn; by rewrite ?IH.
Qed.

Lemma try_sources_skips_unhealthy {A} (sources : list (string * fetch A)) source last_error w :
  (max_failures (data_source w) ≤ failures source w)%nat →
  ∃ new, trace (try_sources sources last_error w).2 = new ++ trace w
         ∧ source ∉ upstream_calls new.
Proof.
  revert last_error w.
  induction sources as [|[name r] rest IH]; intros last_error w Hbad.
  { exists []. split; [done|]. cbn. apply not_elem_of_nil. }
  rewrite try_sources_cons. destruct (healthy_in w name) eqn:Hh; [|by apply IH].
  assert (name ≠ source) as Hne.
  { intros ->. unfold healthy_in in Hh. apply bool_decide_eq_true in Hh. lia. }
  destruct (invoked_trace name w) as (step & Hstep & Hcalls).
  assert (∀ last_error' w',
    trace w' = trace (invoked name w) →
    max_failures (data_source w') = max_failures (data_source w) →
    failures source w' = failures source w →
    ∃ new, trace (try_sources rest last_error' w').2 = new ++ trace w
           ∧ source ∉ upstream_calls new) as Hrest.
  { intros last_error' w' Htr Hmax Hf.
    destruct (IH last_error' w') as (new & Hnew & Hnot); [lia|].
    exists (new ++ step). split.
    - by rewrite Hnew, Htr, Hstep, (assoc_L (++)).
    - rewrite upstream_calls_app, Hcalls, not_elem_of_app, list_elem_of_singleton.
      by split. }
  destruct r as [[rows|]|e].
  - destruct (empty rows); cbn [negb].
    + apply Hrest; [done|apply invoked_max_failures|apply invoked_failures].
    + exists step. cbn. split; [done|]. by rewrite Hcalls, list_elem_of_singleton.
  - apply Hrest; [done|apply invoked_max_failures|apply invoked_failures].
  - apply Hrest; [done|apply invoked_max_failures|].
    by rewrite failures_record_failure_ne, invoked_failures.
Qed.

Lemma try_sources_exhausted {A} (sources : list (string * fetch A)) last_error w e :
  (try_sources sources last_error w).1 = Raised e →
  failure_count (data_source (try_sources sources last_error w).2) = ∅.
Proof.
  revert last_error w.
  induction sources as [|[name r] rest IH]; intros last_error w; [done|].
  rewrite try_sources_cons. destruct (healthy_in w name); [|by apply IH].
  destruct r as [[rows|]|e']; try by apply IH.
  destruct (empty rows); cbn [negb]; [by apply IH|done].
Qed.

Lemma last_raised_ext {A} (h1 h2 : string → bool) (sources : list (string * fetch A)) last_error :
  (∀ source, source ∈ sources.*1 → h1 source = h2 source) →
  last_raised h1 sources last_error = last_raised h2 sources last_error.
Proof.
  revert last_error.
  induction sources as [|[name r] rest IH]; intros last_error Hext; [done|].
  cbn. rewrite (Hext name) by (cbn; left). apply IH.
  intros source Hin. apply Hext. cbn. by right.
Qed.

Lemma try_sources_last_error {A} (sources : list (string * fetch A)) last_error w e :
  NoDup sources.*1 →
  (try_sources sources last_error w).1 = Raised e →
  e = all_sources_failed (last_raised (healthy_in w) sources last_error).
Proof.
  revert last_error w.
  induction sources as [|[name r] rest IH]; intros last_error w Hnd.
  { cbn [try_sources last_raised]. run. congruence. }
  cbn in Hnd. apply NoDup_cons in Hnd as [Hfresh Hnd].
  rewrite try_sources_cons. cbn [last_raised].
  destruct (healthy_in w name) eqn:Hh; [|by apply IH].
  assert (∀ last_error' w',
    (∀ source, source ∈ rest.*1 → healthy_in w' source = healthy_in w source) →
    (try_sources rest last_error' w').1 = Raised e →
    e = all_sources_failed (last_raised (healthy_in w) rest last_error')) as Hrest.
  { intros last_error' w' Hsame Hfail.
    rewrite <-(last_raised_ext (healthy_in w')) by done. by apply IH. }
  destruct r as [[rows|]|e'].
  - destruct (empty rows); cbn [negb]; [|done].
    apply Hrest. intros. apply healthy_in_invoked.
  - apply Hrest. intros. apply healthy_in_invoked.
  - apply Hrest. intros source Hin.
    rewrite healthy_in_record_failure, healthy_in_invoked; [done|].
    intros ->. done.
Qed.

Lemma last_raised_app {A} healthy (before after : list (string * fetch A)) last_error :
  last_raised healthy (before ++ after) last_error
  = last_raised healthy after (last_raised healthy before last_error).
Proof.
  revert last_error.
  induction before as [|[name r] before IH]; intros last_error; [done|]. cbn. apply IH.
Qed.

Lemma last_raised_none {A} healthy (sources : list (string * fetch A)) last_error :
  (∀ source e, (source, Raised e) ∈ sources → healthy source = false) →
  last_raised healthy sources last_error = last_error.
Proof.
  revert last_error.
  induction sources as [|[name r] rest IH]; intros last_error Hnone; [done|]. cbn.
  rewrite IH by (intros source e Hin; apply (Hnone source e); by right).
  destruct (healthy name) eqn:Hh; [|done]. destruct r as [?|e]; [done|].
  rewrite (Hnone name e) in Hh; [done|by left].
Qed.

Lemma healthy_in_false (w : world (V:=V) (Q:=Q)) source :
  healthy_in w source = false ↔ (max_failures (data_source w) ≤ failures source w)%nat.
Proof. unfold healthy_in. rewrite bool_decide_eq_false. lia. Qed.

Lemma healthy_in_true (w : world (V:=V) (Q:=Q)) source :
  healthy_in w source = true ↔ (failures source w < max_failures (data_source w))%nat.
Proof. unfold healthy_in. by rewrite bool_decide_eq_true. Qed.

Lemma try_sources_from_scratch {A} (sources : list (string * fetch A)) last_error w :
  NoDup sources.*1 →
  (∀ source, source ∈ sources.*1 → healthy_in w source = true) →
  ∃ new, trace (try_sources sources last_error w).2 = new ++ trace w
         ∧ upstream_calls new = rev (attempted sources).
Proof.
  revert last_error w.
  induction sources as [|[name r] rest IH]; intros last_error w Hnd Hall.
  { by exists []. }
  cbn in Hnd. apply NoDup_cons in Hnd as [Hfresh Hnd].
  rewrite try_sources_cons, (Hall name) by (cbn; left).
  destruct (invoked_trace name w) as (step & Hstep & Hcalls).
  assert (∀ last_error' w',
    trace w' = trace (invoked name w) →
    (∀ source, source ∈ rest.*1 → healthy_in w' source = healthy_in w source) →
    ∃ new, trace (try_sources rest last_error' w').2 = new ++ trace w
           ∧ upstream_calls new = rev (attempted rest) ++ [name]) as Hrest.
  { intros last_error' w' Htr Hsame.
    destruct (IH last_error' w' Hnd) as (new & Hnew & Hseq).
    { intros source Hin. rewrite Hsame by done. apply Hall. cbn. by right. }
    exists (new ++ step). split.
    - by rewrite Hnew, Htr, Hstep, (assoc_L (++)).
    - by rewrite upstream_calls_app, Hcalls, Hseq. }
  destruct r as [[rows|]|e']; cbn [attempted usable].
  - destruct (empty rows); cbn [negb rev].
    + apply Hrest; [done|]. intros. apply healthy_in_invoked.
    + exists step. by split.
  - cbn [rev]. apply Hrest; [done|]. intros. apply healthy_in_invoked.
  - cbn [rev]. apply Hrest; [done|]. intros source Hin.
    rewrite healthy_in_record_failure, healthy_in_invoked; [done|].
    intros ->. done.
Qed.

Lemma try_sources_raises_iff {A} (sources : list (string * fetch A)) last_error w :
  NoDup sources.*1 →
  (∃ e, (try_sources sources last_error w).1 = Raised e) ↔
  (∀ source r, (source, r) ∈ sources → healthy_in w source = true → usable r = false).
Proof.
  revert last_error w.
  induction sources as [|[name r0] rest IH]; intros last_error w Hnd.
  { split.
    - intros _ source r Hin. by apply elem_of_nil in Hin.
    - intros _. cbn [try_sources]. run. eauto. }
  cbn in Hnd. apply NoDup_cons in Hnd as [Hfresh Hnd].
  assert (∀ last_error' w',
    (∀ source, source ∈ rest.*1 → healthy_in w' source = healthy_in w source) →
    (∃ e, (try_sources rest last_error' w').1 = Raised e) ↔
    (∀ source r, (source, r) ∈ rest → healthy_in w source = true → usable r = false))
    as Hrest.
  { intros last_error' w' Hsame. rewrite IH by done.
    split; intros Hall source r Hin Hh; apply (Hall source r Hin).
    - rewrite Hsame; [done|]. apply list_elem_of_fmap. by exists (source, r).
    - rewrite <-Hsame; [done|]. apply list_elem_of_fmap. by exists (source, r). }
  assert (usable r0 = false ∨ healthy_in w name = false →
    (∀ source r, (source, r) ∈ rest → healthy_in w source = true → usable r = false) ↔
    (∀ source r, (source, r) ∈ (name, r0) :: rest →
                 healthy_in w source = true → usable r = false)) as Hhead.
  { intros Hhead. split.
    - intros Hall source r [Heq|Hin]%elem_of_cons Hs; [|by eapply Hall].
      simplify_eq. destruct Hhead; [done|congruence].
    - intros Hall source r Hin. apply Hall. by right. }
  rewrite try_sources_cons. destruct (healthy_in w name) eqn:Hh.
  2:{ rewrite <-Hhead by (by right). by apply Hrest. }
  destruct r0 as [[rows|]|e'].
  - destruct (empty rows) eqn:Hrows; cbn [negb].
    + rewrite <-Hhead by (left; cbn; by rewrite Hrows).
      apply Hrest. intros. apply healthy_in_invoked.
    + split; [by intros [e He]|]. intros Hall.
      specialize (Hall name _ (list_elem_of_here _ _) Hh). cbn in Hall.
      by rewrite Hrows in Hall.
  - rewrite <-Hhead by (by left). apply Hrest. intros. apply healthy_in_invoked.
  - rewrite <-Hhead by (by left). apply Hrest. intros source Hin.
    rewrite healthy_in_record_failure, healthy_in_invoked; [done|].
    intros ->. done.
Qed.

(** The three resolve functions run the loop on their candidates, whose
    names are distinct. *)
Lemma data_source_get_realtime_quotes_eq w :
  data_source_get_realtime_quotes w = try_sources (realtime_sources (ak w)) None w.
Proof. done. Qed.

Lemma get_stock_history_eq symbol period start_date end_date adjust w :
  get_stock_history symbol period start_date end_date adjust w
  = try_sources (stock_history_sources (ak w) symbol period start_date end_date adjust) None w.
Proof. done. Qed.

Lemma get_index_history_eq symbol period start_date end_date w :
  get_index_history symbol period start_date end_date w
  = try_sources (index_history_sources (ak w) symbol period start_date end_date) None w.
Proof. done. Qed.

Lemma realtime_sources_names (up : upstream (V:=V) (Q:=Q)) :
  NoDup (realtime_sources up).*1.
Proof. cbn. compute_done. Qed.

Lemma stock_history_sources_names (up : upstream (V:=V) (Q:=Q))
    symbol period start_date end_date adjust :
  NoDup (stock_history_sources up symbol period start_date end_date adjust).*1.
Proof. cbn. compute_done. Qed.

Lemma index_history_sources_names (up : upstream (V:=V) (Q:=Q))
    symbol period start_date end_date :
  NoDup (index_history_sources up symbol period start_date end_date).*1.
Proof. cbn. compute_done. Qed.

(** C6: in every resolution attempt a source whose failure count has
    reached [max_failures] is not called; the attempt raises exactly when
    no healthy candidate gives a usable result, and then the failure
    counts are cleared, so that every count reads 0, the message of the
    exception raised ends with the text of the error raised by the last
    healthy candidate that raised one (with "None" when no healthy
    candidate raised), and a following attempt calls every candidate in
    turn until one gives a usable result. *)
Theorem unhealthy_skipped_and_exhaustion_resets {A}
    (sources : list (string * fetch A)) w :
  NoDup sources.*1 →
  (0 < max_failures (data_source w))%nat →
  let attempt := try_sources sources None w in
  let unhealthy source := (max_failures (data_source w) ≤ failures source w)%nat in
  (∀ source, unhealthy source →
     ∃ new, trace attempt.2 = new ++ trace w ∧ source ∉ upstream_calls new) ∧
  ((∀ source r, (source, r) ∈ sources → healthy_in w source = true → usable r = false) ↔
   ∃ e, attempt.1 = Raised e) ∧
  (∀ e, attempt.1 = Raised e →
     failure_count (data_source attempt.2) = ∅ ∧
     (∀ source, failures source attempt.2 = 0%nat) ∧
     (∀ before source msg after,
        sources = before ++ (source, Raised (Exception msg)) :: after →
        ¬ unhealthy source →
        (∀ later e', (later, Raised e') ∈ after → unhealthy later) →
        e = Exception ("所有数据源都不可用: " +:+ msg)) ∧
     ((∀ source e', (source, Raised e') ∈ sources → unhealthy source) →
        e = Exception "所有数据源都不可用: None") ∧
     ∀ B (again : list (string * fetch B)), NoDup again.*1 →
       ∃ new, trace (try_sources again None attempt.2).2 = new ++ trace attempt.2
              ∧ upstream_calls new = rev (attempted again)).
Proof.
  intros Hnd Hmax attempt unhealthy. split.
  { intros source Hbad. by apply try_sources_skips_unhealthy. }
  split.
  { symmetry. by apply try_sources_raises_iff. }
  intros e Hfail.
  pose proof (try_sources_exhausted _ _ _ _ Hfail) as Hclear.
  assert (∀ source, failures source attempt.2 = 0%nat) as Hzero.
  { intros source. unfold failures. fold attempt in Hclear. by rewrite Hclear. }
  split; [done|]. split; [done|].
  pose proof (try_sources_last_error _ _ _ _ Hnd Hfail) as Hlast.
  split; [|split].
  { intros before source msg after -> Hhealthy Hafter.
    rewrite last_raised_app in Hlast. cbn [last_raised] in Hlast.
    rewrite last_raised_none in Hlast
      by (intros later e' Hin; by apply healthy_in_false, (Hafter later e')).
    assert (healthy_in w source = true) as Hh by (apply healthy_in_true; unfold unhealthy in Hhealthy; lia).
    by rewrite Hh in Hlast. }
  { intros Hnone. rewrite last_raised_none in Hlast; [done|].
    intros source e' Hin. by apply healthy_in_false, (Hnone source e'). }
  intros B again Hnd'. apply try_sources_from_scratch; [done|].
  intros source _. unfold healthy_in. apply bool_decide_eq_true.
  rewrite Hzero.
  enough (max_failures (data_source attempt.2) = max_failures (data_source w)) by lia.
  clear. subst attempt. generalize (@None exn) as last_error. revert w.
  induction sources as [|[name r] rest IH]; intros w last_error; [done|].
  rewrite try_sources_cons. destruct (healthy_in w name); [|apply IH].
  destruct r as [[rows|]|e'].
  - destruct (empty rows); cbn [negb].
    + rewrite IH. apply invoked_max_failures.
    + cbn -[invoked]. apply invoked_max_failures.
  - rewrite IH. apply invoked_max_failures.
  - rewrite IH. cbn -[invoked]. apply invoked_max_failures.
Qed.

(** ** Rows and their order *)

Global Instance row_le_trans : Transitive (row_le (V:=V)).
Proof. intros r1 r2 r3. unfold row_le. apply date_le_trans. Qed.

Global Instance row_le_total : Total (row_le (V:=V)).
Proof. intros r1 r2. unfold row_le. apply date_le_total. Qed.

Global Instance row_lt_trans : Transitive (row_lt (V:=V)).
Proof. intros r1 r2 r3. unfold row_lt. apply date_lt_trans. Qed.

(** ** Parsing the date column *)

Lemma normalize_dates_nil : normalize_dates (V:=V) [] = Return [].
Proof. done. Qed.

Lemma to_datetime_day format c d :
  to_datetime format c = Return d → timestamp_day d = true.
Proof.
  destruct c as [d'|d'|d' usec|text]; cbn; [| | |done].
  - destruct format as [[]|]; [|done|]; by destruct (timestamp_day d') eqn:Hd; intros [= <-].
  - destruct format as [[]|]; [done| |]; by destruct (timestamp_day d') eqn:Hd; intros [= <-].
  - destruct (in_timestamp_range d' usec) eqn:Hd; [|done]. intros [= <-].
    unfold timestamp_day, in_timestamp_range in *.
    rewrite !andb_true_iff in Hd |- *. destruct Hd as (((((? & ?) & ?) & ?) & ?) & ?).
    repeat split; try done. apply orb_true_r.
Qed.

(** The dates of a column that parsed are days of a [Timestamp]. *)
Lemma parse_dates_days format df f :
  parse_dates format df = Return f → Forall (λ d, timestamp_day d = true) f.*1.
Proof.
  revert f. induction df as [|[c v] df IH]; intros f; cbn.
  - intros [= <-]. constructor.
  - destruct (to_datetime format c) as [d|] eqn:Hc; [|done].
    destruct (parse_dates format df) as [f'|]; [|done]. intros [= <-].
    cbn. constructor; [by eapply to_datetime_day|by apply IH].
Qed.

Lemma normalize_dates_days df f :
  normalize_dates df = Return f → Forall (λ d, timestamp_day d = true) f.*1.
Proof. apply parse_dates_days. Qed.

Lemma parse_dates_iso format f :
  format ≠ Some Ymd_compact →
  Forall (λ d, timestamp_day d = true) f.*1 →
  parse_dates format (iso f) = Return f.
Proof.
  intros Hformat. induction f as [|[d v] f IH]; [done|].
  cbn. intros [Hd Hf]%Forall_cons. rewrite Hd.
  unfold iso in IH. rewrite (IH Hf).
  by destruct format as [[]|].
Qed.

Lemma parse_dates_iso_inv format f g : parse_dates format (iso f) = Return g → g = f.
Proof.
  revert g. induction f as [|[d v] f IH]; intros g; cbn; [by intros [= <-]|].
  unfold iso in IH.
  destruct format as [[]|]; try done; destruct (timestamp_day d); try done;
    destruct (parse_dates _ (prod_map IsoStr id <$> f)) as [g'|]; try done;
    intros [= <-]; by rewrite (IH g').
Qed.

(** A column of 'YYYY-MM-DD' strings parses to the dates it prints. *)
Lemma normalize_dates_iso f :
  Forall (λ d, timestamp_day d = true) f.*1 → normalize_dates (iso f) = Return f.
Proof.
  intros Hf. unfold normalize_dates. apply parse_dates_iso; [|done].
  by destruct f as [|[d v] f].
Qed.

Lemma normalize_dates_iso_inv f g : normalize_dates (iso f) = Return g → g = f.
Proof. apply parse_dates_iso_inv. Qed.

Lemma normalize_dates_iso_again df f :
  normalize_dates df = Return f → normalize_dates (iso f) = Return f.
Proof. intros Hnorm. by eapply normalize_dates_iso, normalize_dates_days. Qed.

Lemma parse_dates_mismatch format (df : table V) c :
  c ∈ df.*1 → (∃ e, to_datetime format c = Raised e) → ∃ e, parse_dates format df = Raised e.
Proof.
  intros Hin [e He]. induction df as [|[c' v] rest IH]; [by apply elem_of_nil in Hin|].
  cbn in Hin. apply elem_of_cons in Hin as [->|Hin]; cbn.
  - rewrite He. eauto.
  - destruct (to_datetime format c'); [|eauto].
    destruct (IH Hin) as [e' ->]. eauto.
Qed.

Lemma normalize_dates_mixed (df : table V) :
  mixed_formats df.*1 → ∃ e, normalize_dates df = Raised e.
Proof.
  intros (d & d' & [[Hhead Hin]|[Hhead Hin]]); unfold normalize_dates;
    destruct (df.*1) as [|c column] eqn:Hcolumn; try done;
    injection Hhead as ->; cbn [_guess_datetime_format_for_array];
    eapply parse_dates_mismatch; rewrite ?Hcolumn; try exact Hin; cbn; eauto.
Qed.

Lemma sort_values_perm f : sort_values f ≡ₚ f.
Proof. apply merge_sort_Permutation. Qed.

Lemma sort_values_sorted f : StronglySorted row_le (sort_values f).
Proof. apply StronglySorted_merge_sort; apply _. Qed.

Lemma strictly_sorted_of_sorted_NoDup f :
  StronglySorted row_le f → NoDup f.*1 → StronglySorted row_lt f.
Proof.
  induction 1 as [|r f Hs IH Hall]; intros Hnd; [constructor|].
  cbn in Hnd. apply NoDup_cons in Hnd as [Hfresh Hnd].
  constructor; [by apply IH|].
  rewrite Forall_forall in Hall |- *. intros r' Hin.
  apply date_le_lt; [by apply Hall|].
  intros Heq. apply Hfresh. rewrite Heq. apply list_elem_of_fmap. by exists r'.
Qed.

(** Strictly ascending dates are distinct. *)
Lemma strictly_sorted_NoDup f : StronglySorted row_lt f → NoDup f.*1.
Proof.
  induction 1 as [|r f Hs IH Hall]; [constructor|].
  cbn. apply NoDup_cons. split; [|done].
  intros ([d v] & Heq & Hin)%list_elem_of_fmap. cbn in Heq.
  rewrite Forall_forall in Hall. specialize (Hall _ Hin).
  unfold row_lt in Hall. cbn in Hall. rewrite Heq in Hall.
  by apply date_lt_irrefl in Hall.
Qed.

Lemma sort_values_strict f : NoDup f.*1 → StronglySorted row_lt (sort_values f).
Proof.
  intros Hnd. apply strictly_sorted_of_sorted_NoDup; [apply sort_values_sorted|].
  by rewrite sort_values_perm.
Qed.

Lemma strictly_sorted_unique f1 f2 :
  StronglySorted row_lt f1 → StronglySorted row_lt f2 → f1 ≡ₚ f2 → f1 = f2.
Proof.
  apply StronglySorted_unique_strong.
  intros r1 r2 _ _ H12 H21. unfold row_lt in *.
  destruct (date_lt_irrefl r1.1). by eapply date_lt_trans.
Qed.

(** ** drop_duplicates *)

Lemma drop_duplicates_dates f d : d ∈ (drop_duplicates f).*1 ↔ d ∈ f.*1.
Proof.
  induction f as [|r f IH]; [done|]. cbn.
  destruct (decide (r.1 ∈ f.*1)) as [Hin|Hout]; cbn.
  - rewrite IH, elem_of_cons. split; [by right|]. by intros [->|].
  - by rewrite !elem_of_cons, IH.
Qed.

Lemma drop_duplicates_NoDup f : NoDup (drop_duplicates f).*1.
Proof.
  induction f as [|r f IH]; [constructor|]. cbn.
  destruct (decide (r.1 ∈ f.*1)) as [Hin|Hout]; [done|].
  cbn. apply NoDup_cons. split; [|done]. by rewrite drop_duplicates_dates.
Qed.

Lemma drop_duplicates_id f : NoDup f.*1 → drop_duplicates f = f.
Proof.
  induction f as [|r f IH]; [done|]. cbn.
  intros [Hfresh Hnd]%NoDup_cons.
  destruct (decide (r.1 ∈ f.*1)); [done|]. by rewrite IH.
Qed.

Lemma drop_duplicates_app f1 f2 :
  drop_duplicates (f1 ++ f2)
  = filter (λ r, r.1 ∉ f2.*1) (drop_duplicates f1) ++ drop_duplicates f2.
Proof.
  induction f1 as [|r f1 IH]; [done|]. cbn.
  rewrite fmap_app. 
  destruct (decide (r.1 ∈ f1.*1 ++ f2.*1)) as [Hin|Hout];
    destruct (decide (r.1 ∈ f1.*1)) as [Hin1|Hout1].
  - done.
  - rewrite filter_cons. apply elem_of_app in Hin as [|Hin2]; [done|].
    destruct (decide (r.1 ∉ f2.*1)); [done|]. done.
  - destruct Hout. apply elem_of_app. by left.
  - rewrite filter_cons. rewrite not_elem_of_app in Hout. destruct Hout as [_ Hout2].
    destruct (decide (r.1 ∉ f2.*1)); [|done]. cbn. by rewrite IH.
Qed.

(** ** Historical store *)

Lemma empty_false {A} (l : list A) : l ≠ [] → empty l = false.
Proof. by destruct l. Qed.

Lemma save_historical_data_empty symbol period data_type w :
  save_historical_data [] symbol period data_type w = (Return (), w).
Proof. done. Qed.

Lemma save_historical_data_returns df symbol period data_type w :
  (save_historical_data df symbol period data_type w).1 = Return ().
Proof.
  unfold save_historical_data, file_exists, read_parquet, to_parquet. run.
  repeat case_match; simplify_eq; done.
Qed.

Lemma save_historical_data_creates df new_df symbol period data_type w :
  df ≠ [] →
  normalize_dates df = Return new_df →
  files w !! _get_file_path symbol period data_type w = None →
  _get_file_path symbol period data_type w ∉ readonly w →
  files (save_historical_data df symbol period data_type w).2
  = <[_get_file_path symbol period data_type w := Parquet (iso (sort_values new_df))]> (files w).
Proof.
  intros Hne Hnorm Hfile Hrw.
  unfold save_historical_data, file_exists, read_parquet, to_parquet.
  rewrite (empty_false df Hne). run. rewrite Hnorm, Hfile. cbn.
  by destruct (decide _).
Qed.

Lemma save_historical_data_merges df new_df stored existing symbol period data_type w :
  df ≠ [] →
  normalize_dates df = Return new_df →
  files w !! _get_file_path symbol period data_type w = Some (Parquet stored) →
  normalize_dates stored = Return existing →
  _get_file_path symbol period data_type w ∉ readonly w →
  files (save_historical_data df symbol period data_type w).2
  = <[_get_file_path symbol period data_type w :=
        Parquet (iso (sort_values (drop_duplicates (existing ++ new_df))))]> (files w).
Proof.
  intros Hne Hnorm Hfile Hstored Hrw.
  unfold save_historical_data, file_exists, read_parquet, to_parquet.
  rewrite (empty_false df Hne). run. rewrite Hnorm, Hfile. cbn. rewrite Hfile, Hstored.
  by destruct (decide _).
Qed.

(** What a call of [save_historical_data] can do to the cache directory:
    nothing, create the partition from the sorted new rows, or replace it
    by the merge of its rows with the new ones. *)
Lemma save_historical_data_files df symbol period data_type w :
  let path := _get_file_path symbol period data_type w in
  let files' := files (save_historical_data df symbol period data_type w).2 in
  files' = files w ∨
  (∃ new_df, normalize_dates df = Return new_df ∧ df ≠ [] ∧ (path ∉ readonly w) ∧
     ((files w !! path = None ∧
       files' = <[path := Parquet (iso (sort_values new_df))]> (files w)) ∨
      (∃ stored existing,
         files w !! path = Some (Parquet stored) ∧
         normalize_dates stored = Return existing ∧
         files' = <[path := Parquet (iso (sort_values (drop_duplicates (existing ++ new_df))))]>
                    (files w)))).
Proof.
  intros path files'. subst files'.
  destruct (decide (df = [])) as [->|Hne]; [by left|].
  destruct (decide (path ∈ readonly w)) as [Hro|Hrw].
  { left. unfold save_historical_data, file_exists, read_parquet, to_parquet.
    fold path. run. fold path. repeat case_match; simplify_eq; done. }
  destruct (normalize_dates df) as [new_df|e] eqn:Hnorm.
  2:{ left. unfold save_historical_data. rewrite (empty_false df Hne). run.
      by rewrite Hnorm. }
  destruct (files w !! path) as [[stored|]|] eqn:Hfile.
  - destruct (normalize_dates stored) as [existing|e] eqn:Hstored.
    + right. exists new_df. split; [done|]. split; [done|]. split; [done|]. right.
      exists stored, existing. split; [done|]. split; [done|].
      by eapply save_historical_data_merges.
    + left. unfold save_historical_data, file_exists, read_parquet.
      rewrite (empty_false df Hne). run. fold path. rewrite Hnorm, Hfile. cbn.
      fold path. by rewrite Hfile, Hstored.
  - left. unfold save_historical_data, file_exists, read_parquet.
    rewrite (empty_false df Hne). run. fold path. rewrite Hnorm, Hfile. cbn.
    fold path. by rewrite Hfile.
  - right. exists new_df. split; [done|]. split; [done|]. split; [done|].
    left. split; [done|]. by apply save_historical_data_creates.
Qed.

Lemma merge_permutation (existing new_df : frame V) :
  NoDup existing.*1 → NoDup new_df.*1 →
  sort_values (drop_duplicates (existing ++ new_df))
  ≡ₚ filter (λ r, r.1 ∉ new_df.*1) existing ++ new_df.
Proof.
  intros Hex Hnew.
  by rewrite sort_values_perm, drop_duplicates_app, !drop_duplicates_id.
Qed.

Lemma merge_strictly_sorted (existing new_df : frame V) :
  StronglySorted row_lt (sort_values (drop_duplicates (existing ++ new_df))).
Proof. apply sort_values_strict, drop_duplicates_NoDup. Qed.

(** C1: when the partition holds rows at the dates d1, d2, d3 and
    [save_historical_data] is given rows at d3 and d4, the partition
    written back holds exactly the old rows of d1 and d2 and the two new
    rows, in strictly ascending order of date: the new row of d3 has
    replaced the old one. *)
Theorem save_merges_by_date symbol period data_type w
    (d1 d2 d3 d4 : date) (v1 v2 v3 v3' v4 : V)
    (stored : table V) (existing : frame V) (df : table V) (new_df : frame V) :
  NoDup [d1; d2; d3; d4] →
  files w !! _get_file_path symbol period data_type w = Some (Parquet stored) →
  normalize_dates stored = Return existing →
  existing ≡ₚ [(d1, v1); (d2, v2); (d3, v3)] →
  normalize_dates df = Return new_df →
  new_df ≡ₚ [(d3, v3'); (d4, v4)] →
  _get_file_path symbol period data_type w ∉ readonly w →
  ∃ merged,
    files (save_historical_data df symbol period data_type w).2
      !! _get_file_path symbol period data_type w = Some (Parquet (iso merged)) ∧
    merged ≡ₚ [(d1, v1); (d2, v2); (d3, v3'); (d4, v4)] ∧
    StronglySorted row_lt merged.
Proof.
  intros Hnd Hfile Hstored Hex Hnorm Hnew Hrw.
  exists (sort_values (drop_duplicates (existing ++ new_df))).
  assert (df ≠ []) as Hne.
  { intros ->. cbn in Hnorm. simplify_eq. by apply Permutation_nil_cons in Hnew. }
  split; [|split].
  - erewrite save_historical_data_merges by done. apply lookup_insert_eq.
  - rewrite !NoDup_cons, !elem_of_cons, !elem_of_nil in Hnd.
    assert (NoDup existing.*1) as Hex1.
    { rewrite Hex. cbn. rewrite !NoDup_cons, !elem_of_cons, !elem_of_nil.
      intuition (auto using NoDup_nil_2). }
    assert (NoDup new_df.*1) as Hnew1.
    { rewrite Hnew. cbn. rewrite !NoDup_cons, !elem_of_cons, !elem_of_nil.
      intuition (auto using NoDup_nil_2). }
    rewrite merge_permutation by done. rewrite Hex.
    assert (∀ d, d ∈ new_df.*1 ↔ d = d3 ∨ d = d4) as Hdates.
    { intros d. rewrite Hnew. cbn. rewrite !elem_of_cons, elem_of_nil. tauto. }
    rewrite !filter_cons, filter_nil. cbn [fst].
    destruct (decide (d1 ∉ new_df.*1)) as [_|Hn]; [|destruct Hn; rewrite Hdates; intuition].
    destruct (decide (d2 ∉ new_df.*1)) as [_|Hn]; [|destruct Hn; rewrite Hdates; intuition].
    destruct (decide (d3 ∉ new_df.*1)) as [Hn|_]; [destruct Hn; rewrite Hdates; intuition|].
    by rewrite Hnew.
  - apply merge_strictly_sorted.
Qed.

Lemma column_max_stored (stored : table V) existing latest :
  normalize_dates stored = Return existing →
  column_max existing = Return latest →
  empty stored = false.
Proof.
  intros Hnorm Hmax. destruct stored; [|done].
  rewrite normalize_dates_nil in Hnorm. by simplify_eq.
Qed.

Lemma column_max_upper (existing : frame V) latest r :
  column_max existing = Return latest → r ∈ existing → date_le r.1 latest.
Proof.
  destruct existing as [|r0 rest]; [done|]. cbn. intros [= <-].
  assert (∀ (ds : list date) d0 d, date_le d d0 ∨ d ∈ ds → date_le d (foldl date_max d0 ds))
    as Hfold.
  { induction ds as [|d1 ds IH]; intros d0 d; cbn.
    - intros [|Hin]; [done|]. by apply elem_of_nil in Hin.
    - intros [Hle|[->|Hin]%elem_of_cons]; apply IH; auto.
      + left. eapply date_le_trans; [done|apply date_max_le_l].
      + left. apply date_max_le_r. }
  intros [->|Hin]%elem_of_cons; apply Hfold.
  - left. apply date_le_refl.
  - right. apply list_elem_of_fmap. by exists r.
Qed.

Lemma column_max_elem (existing : frame V) latest :
  column_max existing = Return latest → latest ∈ existing.*1.
Proof.
  destruct existing as [|r0 rest]; [done|]. cbn. intros [= <-].
  assert (∀ (ds : list date) d0, foldl date_max d0 ds = d0 ∨ foldl date_max d0 ds ∈ ds)
    as Hfold.
  { induction ds as [|d1 ds IH]; intros d0; cbn; [by left|].
    destruct (IH (date_max d0 d1)) as [->|Hin].
    - unfold date_max. destruct (decide _); [right; left|by left].
    - right. by right. }
  destruct (Hfold rest.*1 r0.1) as [->|Hin]; [left|by right].
Qed.

Lemma date_le_antisym a b : date_le a b → date_le b a → a = b.
Proof.
  destruct a as [ya ma da], b as [yb mb db]. unfold date_le. cbn.
  intros Hab Hba. f_equal; lia.
Qed.

Lemma column_max_latest f latest :
  f ≠ [] → latest_of f latest → column_max f = Return latest.
Proof.
  intros Hne [Hin Hupper].
  destruct (column_max f) as [latest'|e] eqn:Hmax; [|by destruct f].
  f_equal. apply date_le_antisym.
  - apply Hupper. by eapply column_max_elem.
  - apply list_elem_of_fmap in Hin as (r & -> & Hr). by eapply column_max_upper.
Qed.

Lemma timestamp_day_year d : timestamp_day d = true → 1000 ≤ year d.
Proof.
  unfold timestamp_day, in_timestamp_range. rewrite !andb_true_iff.
  intros (((((_ & Hmin%bool_decide_eq_true) & _) & _) & _) & _).
  unfold date_le in Hmin. cbn in Hmin. lia.
Qed.

Lemma strptime_Ymd_request d : request_date d → strptime_Ymd (CompactStr d) = Return d.
Proof. intros [Hd _]. cbn. by rewrite Hd. Qed.

Lemma strptime_Y_m_d_padded d : 1000 ≤ year d → strptime_Y_m_d d = Return d.
Proof. intros Hd. unfold strptime_Y_m_d. by destruct (decide _). Qed.

(** For request dates with a year of four digits the range is the one of
    the dates. *)
Lemma between_dates start_dt end_dt (f : frame V) :
  1000 ≤ year start_dt → 1000 ≤ year end_dt →
  between start_dt end_dt f = filter (λ r, date_le start_dt r.1 ∧ date_le r.1 end_dt) f.
Proof.
  intros Hstart Hend. unfold between. apply list_filter_iff. intros r.
  unfold str_ge, str_le. by destruct (decide _), (decide _).
Qed.

Lemma elem_of_between start_dt end_dt (f : frame V) r :
  1000 ≤ year start_dt → 1000 ≤ year end_dt →
  r ∈ between start_dt end_dt f ↔ r ∈ f ∧ date_le start_dt r.1 ∧ date_le r.1 end_dt.
Proof.
  intros Hstart Hend. rewrite between_dates, list_elem_of_filter by done. tauto.
Qed.

(** The latest date of a column that parsed is read back by
    [strptime]. *)
Lemma column_max_parsed (stored : table V) existing latest :
  normalize_dates stored = Return existing →
  column_max existing = Return latest →
  strptime_Y_m_d latest = Return latest.
Proof.
  intros Hnorm Hmax. apply strptime_Y_m_d_padded, timestamp_day_year.
  pose proof (normalize_dates_days _ _ Hnorm) as Hdays.
  rewrite Forall_forall in Hdays. by eapply Hdays, column_max_elem.
Qed.

Lemma get_historical_data_stored symbol period data_type start_dt end_dt
    (stored : table V) existing latest w :
  files w !! _get_file_path symbol period data_type w = Some (Parquet stored) →
  normalize_dates stored = Return existing →
  column_max existing = Return latest →
  request_date start_dt →
  request_date end_dt →
  (get_historical_data symbol period (CompactStr start_dt) (CompactStr end_dt) data_type w).1
  = Return (if empty (between start_dt end_dt existing) then None
            else if decide (days_between end_dt latest > 2) then None
            else Some (iso (between start_dt end_dt existing))).
Proof.
  intros Hfile Hnorm Hmax Hstart Hend.
  unfold get_historical_data, file_exists, read_parquet. run.
  rewrite Hfile. cbn. rewrite Hfile.
  rewrite (column_max_stored _ _ _ Hnorm Hmax), Hnorm.
  rewrite (proj1 Hstart), (proj1 Hend).
  destruct (empty (between start_dt end_dt existing)); [done|].
  rewrite Hmax. cbn. rewrite (column_max_parsed _ _ _ Hnorm Hmax).
  rewrite (strptime_Y_m_d_padded _ (proj2 Hend)). by destruct (decide _).
Qed.



(** ** Read-through layer *)

Lemma get_historical_data_hit symbol period start_date end_date data_type w cached :
  (get_historical_data symbol period start_date end_date data_type w).1
    = Return (Some cached) →
  ∃ (stored : table V) existing start_dt end_dt,
    files w !! _get_file_path symbol period data_type w = Some (Parquet stored) ∧
    normalize_dates stored = Return existing ∧
    cached = iso (between start_dt end_dt existing) ∧
    between start_dt end_dt existing ≠ [].
Proof.
  unfold get_historical_data, file_exists, read_parquet. run.
  destruct (files w !! _get_file_path symbol period data_type w) as [[stored|]|] eqn:Hfile;
    cbn; rewrite ?Hfile; cbn; try done.
  destruct (empty stored); [done|].
  destruct (normalize_dates stored) as [existing|] eqn:Hnorm; [|done].
  destruct (strptime_Ymd start_date) as [start_dt|]; [|done].
  destruct (strptime_Ymd end_date) as [end_dt|]; [|done].
  destruct (empty (between start_dt end_dt existing)) eqn:Hrows; [done|].
  destruct (column_max existing) as [latest|]; [|done]. cbn.
  destruct (strptime_Y_m_d latest) as [cached_last_dt|]; [|done].
  destruct (strptime_Y_m_d end_dt) as [end_dt_obj|]; [|done].
  destruct (decide _); [done|]. intros [= <-].
  exists stored, existing, start_dt, end_dt. repeat split; try done.
  intros Hnil. by rewrite Hnil in Hrows.
Qed.

Lemma get_historical_data_returns symbol period start_date end_date data_type w :
  ∃ cached, (get_historical_data symbol period start_date end_date data_type w).1
            = Return cached.
Proof.
  unfold get_historical_data, file_exists, read_parquet. run.
  repeat case_match; simplify_eq; eauto.
Qed.

Lemma get_stock_history_cached_hit symbol period start_date end_date adjust w cached :
  (get_historical_data symbol period start_date end_date "stock" w).1 = Return (Some cached) →
  (get_stock_history_cached symbol period start_date end_date adjust w).1 = Return cached.
Proof.
  intros Hload.
  destruct (get_historical_data_hit _ _ _ _ _ _ _ Hload)
    as (stored & existing & start_dt & end_dt & _ & _ & -> & Hrows).
  unfold get_stock_history_cached. run.
  destruct (get_historical_data _ _ _ _ _ w) as [o w1]. cbn in Hload. subst o.
  destruct (decide _) as [|Hlen]; [done|].
  destruct Hlen. unfold iso. rewrite length_fmap.
  destruct (between start_dt end_dt existing); [done|cbn; lia].
Qed.

Lemma get_index_history_cached_hit symbol period start_date end_date w cached :
  (get_historical_data symbol period start_date end_date "index" w).1 = Return (Some cached) →
  (get_index_history_cached symbol period start_date end_date w).1 = Return cached.
Proof.
  intros Hload.
  destruct (get_historical_data_hit _ _ _ _ _ _ _ Hload)
    as (stored & existing & start_dt & end_dt & _ & _ & -> & Hrows).
  unfold get_index_history_cached. run.
  destruct (get_historical_data _ _ _ _ _ w) as [o w1]. cbn in Hload. subst o.
  destruct (decide _) as [|Hlen]; [done|].
  destruct Hlen. unfold iso. rewrite length_fmap.
  destruct (between start_dt end_dt existing); [done|cbn; lia].
Qed.

Lemma save_historical_data_congr df symbol period data_type w w' :
  files w' = files w → readonly w' = readonly w → cache w' = cache w →
  files (save_historical_data df symbol period data_type w').2
  = files (save_historical_data df symbol period data_type w).2.
Proof.
  intros Hfiles Hro Hcache.
  unfold save_historical_data. destruct (empty df); [done|].
  unfold file_exists, read_parquet, to_parquet, _get_file_path.
  run. rewrite Hfiles, Hcache.
  destruct (normalize_dates df) as [new_df|]; [|done].
  destruct (files w !! _) as [[stored|]|] eqn:Hfile; cbn;
    rewrite ?Hfiles, ?Hfile, ?Hro; cbn; rewrite ?Hro; try done.
  - destruct (normalize_dates stored); cbn; rewrite ?Hro; [|done].
    destruct (decide _); cbn; by rewrite ?Hfiles.
  - destruct (decide _); cbn; by rewrite ?Hfiles.
Qed.

Lemma save_historical_data_keeps df symbol period data_type w :
  readonly (save_historical_data df symbol period data_type w).2 = readonly w ∧
  cache (save_historical_data df symbol period data_type w).2 = cache w.
Proof.
  unfold save_historical_data, file_exists, read_parquet, to_parquet. run.
  repeat case_match; simplify_eq; done.
Qed.

Lemma filter_outside_nil (f : frame V) (ds : list date) :
  (∀ r, r ∈ f → r.1 ∈ ds) → filter (λ r, r.1 ∉ ds) f = [].
Proof.
  induction f as [|r f IH]; intros Hall; [done|].
  rewrite filter_cons. destruct (decide (r.1 ∉ ds)) as [Hout|_].
  - destruct Hout. apply Hall. by left.
  - apply IH. intros r' Hin. apply Hall. by right.
Qed.

Lemma filter_outside_idemp (f : frame V) (ds : list date) :
  filter (λ r, r.1 ∉ ds) (filter (λ r, r.1 ∉ ds) f) = filter (λ r, r.1 ∉ ds) f.
Proof.
  induction f as [|r f IH]; [done|].
  rewrite filter_cons. destruct (decide (r.1 ∉ ds)) as [Hout|Hin]; [|done].
  rewrite filter_cons. destruct (decide (r.1 ∉ ds)); [|done]. by rewrite IH.
Qed.

Lemma drop_duplicates_within (f : frame V) r : r ∈ drop_duplicates f → r.1 ∈ f.*1.
Proof.
  intros Hin. apply drop_duplicates_dates, list_elem_of_fmap. by exists r.
Qed.

(** Saving the rows that were just merged changes nothing. *)
Lemma merge_again (existing new_df : frame V) :
  sort_values (drop_duplicates (sort_values (drop_duplicates (existing ++ new_df)) ++ new_df))
  = sort_values (drop_duplicates (existing ++ new_df)).
Proof.
  apply strictly_sorted_unique; [apply merge_strictly_sorted..|].
  rewrite !sort_values_perm.
  rewrite (drop_duplicates_app (sort_values _)).
  rewrite (drop_duplicates_id (sort_values _))
    by (rewrite sort_values_perm; apply drop_duplicates_NoDup).
  rewrite sort_values_perm, drop_duplicates_app, filter_app, filter_outside_idemp.
  rewrite (filter_outside_nil (drop_duplicates new_df)) by apply drop_duplicates_within.
  by rewrite app_nil_r.
Qed.

Lemma create_again (new_df : frame V) :
  NoDup new_df.*1 →
  sort_values (drop_duplicates (sort_values new_df ++ new_df)) = sort_values new_df.
Proof.
  intros Hnd. apply strictly_sorted_unique.
  - apply merge_strictly_sorted.
  - by apply sort_values_strict.
  - rewrite !sort_values_perm, drop_duplicates_app.
    rewrite filter_outside_nil, drop_duplicates_id; [|done|].
    + cbn. by rewrite sort_values_perm.
    + intros r Hin%drop_duplicates_within. by rewrite sort_values_perm in Hin.
Qed.

(** What a save writes parses again. *)
Lemma sorted_days (f : frame V) :
  Forall (λ d, timestamp_day d = true) f.*1 →
  Forall (λ d, timestamp_day d = true) (sort_values f).*1.
Proof. by rewrite sort_values_perm. Qed.

Lemma merged_days (existing new_df : frame V) :
  Forall (λ d, timestamp_day d = true) existing.*1 →
  Forall (λ d, timestamp_day d = true) new_df.*1 →
  Forall (λ d, timestamp_day d = true) (sort_values (drop_duplicates (existing ++ new_df))).*1.
Proof.
  intros Hexisting Hnew. apply sorted_days. rewrite Forall_forall.
  intros d Hd. apply (proj1 (drop_duplicates_dates _ _)) in Hd.
  rewrite fmap_app, elem_of_app in Hd.
  rewrite Forall_forall in Hexisting, Hnew. destruct Hd; auto.
Qed.

Lemma created_parses df (new_df : frame V) :
  normalize_dates df = Return new_df →
  normalize_dates (iso (sort_values new_df)) = Return (sort_values new_df).
Proof. intros Hnorm. by eapply normalize_dates_iso, sorted_days, normalize_dates_days. Qed.

Lemma merged_parses df stored (existing new_df : frame V) :
  normalize_dates df = Return new_df →
  normalize_dates stored = Return existing →
  normalize_dates (iso (sort_values (drop_duplicates (existing ++ new_df))))
  = Return (sort_values (drop_duplicates (existing ++ new_df))).
Proof.
  intros Hnorm Hstored.
  apply normalize_dates_iso, merged_days; by eapply normalize_dates_days.
Qed.

(** Saving the same rows a second time leaves the partition as the first
    save left it, when the first save found the partition in place or was
    given rows of distinct dates. *)
Lemma save_historical_data_idempotent df symbol period data_type w :
  is_Some (files w !! _get_file_path symbol period data_type w) ∨
  (∀ new_df, normalize_dates df = Return new_df → NoDup new_df.*1) →
  let once := (save_historical_data df symbol period data_type w).2 in
  files (save_historical_data df symbol period data_type once).2 = files once.
Proof.
  intros Hcond once.
  destruct (save_historical_data_keeps df symbol period data_type w) as [Hro Hcache].
  fold once in Hro, Hcache.
  assert (_get_file_path symbol period data_type once
          = _get_file_path symbol period data_type w) as Hpath.
  { unfold _get_file_path. by rewrite Hcache. }
  destruct (save_historical_data_files df symbol period data_type w)
    as [Hsame | (new_df & Hnorm & Hne & Hrw & [[Hnone Hfiles] | Hmerge])].
  - fold once in Hsame.
    transitivity (files (save_historical_data df symbol period data_type w).2);
      [by apply save_historical_data_congr|done].
  - fold once in Hfiles.
    assert (NoDup new_df.*1) as Hnd.
    { destruct Hcond as [Hsome | Hcond]; [|by apply Hcond].
      rewrite Hnone in Hsome. by destruct Hsome. }
    erewrite save_historical_data_merges;
      [|done|done| |apply (created_parses _ _ Hnorm)|by rewrite Hpath, Hro].
    2:{ rewrite Hpath, Hfiles. apply lookup_insert_eq. }
    rewrite Hpath, Hfiles, insert_insert_eq. by rewrite create_again.
  - destruct Hmerge as (stored & existing & Hfile & Hstored & Hfiles).
    fold once in Hfiles.
    erewrite save_historical_data_merges;
      [|done|done| |apply (merged_parses _ _ _ _ Hnorm Hstored)|by rewrite Hpath, Hro].
    2:{ rewrite Hpath, Hfiles. apply lookup_insert_eq. }
    rewrite Hpath, Hfiles, insert_insert_eq. by rewrite merge_again.
Qed.

Lemma between_days start_dt end_dt (f : frame V) :
  Forall (λ d, timestamp_day d = true) f.*1 →
  Forall (λ d, timestamp_day d = true) (between start_dt end_dt f).*1.
Proof.
  rewrite !Forall_forall. intros Hf d ([d' v] & -> & [_ Hin]%list_elem_of_filter)%list_elem_of_fmap.
  apply Hf, list_elem_of_fmap. by exists (d', v).
Qed.

Lemma between_strictly_sorted start_dt end_dt (f : frame V) :
  StronglySorted row_lt f → StronglySorted row_lt (between start_dt end_dt f).
Proof.
  unfold between. induction 1 as [|r f Hs IH Hall]; [constructor|].
  rewrite filter_cons. destruct (decide _); [|done].
  constructor; [done|]. rewrite Forall_forall in Hall |- *.
  intros r' [_ Hin]%list_elem_of_filter. by apply Hall.
Qed.

Lemma kept_by_saves_partitions w path (stored : table V) :
  kept_by_saves w →
  files w !! path = Some (Parquet stored) →
  ∃ f, stored = iso f ∧ StronglySorted row_lt f.
Proof.
  intros Hkept. revert path stored.
  induction Hkept as [w Hempty | w df symbol period data_type Hkept IH Hcreate
                     | w w' Hkept IH Hfiles]; intros path stored.
  - by rewrite Hempty, lookup_empty.
  - destruct (save_historical_data_files df symbol period data_type w)
      as [-> | (new_df & Hnorm & Hne & Hrw & [[Hnone ->] | Hmerge])].
    + apply IH.
    + destruct (decide (_get_file_path symbol period data_type w = path)) as [<-|Hother].
      * rewrite lookup_insert_eq. intros [= <-]. eexists. split; [done|].
        apply sort_values_strict. by eapply Hcreate.
      * rewrite lookup_insert_ne by done. apply IH.
    + destruct Hmerge as (stored' & existing & Hfile & Hstored & ->).
      destruct (decide (_get_file_path symbol period data_type w = path)) as [<-|Hother].
      * rewrite lookup_insert_eq. intros [= <-]. eexists. split; [done|].
        apply merge_strictly_sorted.
      * rewrite lookup_insert_ne by done. apply IH.
  - intros Hfile. eapply IH, lookup_weaken; done.
Qed.

(** ** The store under the read-through layer *)

Lemma same_store_trans w1 w2 w3 : same_store w1 w2 → same_store w2 w3 → same_store w1 w3.
Proof. unfold same_store. intros (?&?&?&?) (?&?&?&?). repeat split; congruence. Qed.

Lemma invoked_same_store source w : same_store w (invoked source w).
Proof. unfold invoked, _wait_for_rate_limit. cbn. by destruct (decide _). Qed.

Lemma try_sources_same_store {A} (sources : list (string * fetch A)) last_error w :
  same_store w (try_sources sources last_error w).2.
Proof.
  revert last_error w.
  induction sources as [|[name r] rest IH]; intros last_error w; [done|].
  rewrite try_sources_cons. destruct (healthy_in w name); [|apply IH].
  pose proof (invoked_same_store name w) as Hstep.
  destruct r as [[rows|]|e].
  - destruct (empty rows); cbn [negb]; [by eapply same_store_trans|done].
  - by eapply same_store_trans.
  - eapply same_store_trans; [|apply IH]. done.
Qed.

Lemma try_sources_result {A} (sources : list (string * fetch A)) last_error w rows :
  (try_sources sources last_error w).1 = Return rows →
  ∃ source, (source, Return (Some rows)) ∈ sources.
Proof.
  revert last_error w.
  induction sources as [|[name r] rest IH]; intros last_error w; [done|].
  rewrite try_sources_cons.
  assert (∀ last_error' w',
    (try_sources rest last_error' w').1 = Return rows →
    ∃ source, (source, Return (Some rows)) ∈ (name, r) :: rest) as Hrest.
  { intros last_error' w' Hres. destruct (IH _ _ Hres) as [source Hin].
    exists source. by right. }
  destruct (healthy_in w name); [|apply Hrest].
  destruct r as [[rows'|]|e]; try apply Hrest.
  destruct (empty rows'); cbn [negb]; [apply Hrest|].
  intros [= ->]. exists name. by left.
Qed.

Lemma get_historical_data_same_store symbol period start_date end_date data_type w :
  same_store w (get_historical_data symbol period start_date end_date data_type w).2.
Proof.
  unfold get_historical_data, file_exists, read_parquet. run.
  repeat case_match; simplify_eq; done.
Qed.

Lemma kept_by_same_store w w' : kept_by_saves w → same_store w w' → kept_by_saves w'.
Proof. intros Hkept (Hfiles & _). eapply kept_files; [done|]. by rewrite Hfiles. Qed.

Lemma refetched_kept (fetched : M (table V)) symbol period data_type
    (k : M (table V)) w :
  k = (df ← fetched;
       (if negb (empty df) return M unit
        then save_historical_data df symbol period data_type else mret tt);;
       mret df) →
  kept_by_saves w →
  same_store w (fetched w).2 →
  (∀ df new_df,
     (fetched w).1 = Return df →
     files w !! _get_file_path symbol period data_type w = None →
     normalize_dates df = Return new_df → NoDup new_df.*1) →
  kept_by_saves (k w).2.
Proof.
  intros -> Hkept Hsame Hdistinct. run.
  destruct (fetched w) as [[df|e] w2]; cbn in *; [|by eapply kept_by_same_store].
  destruct (negb (empty df)); [|by eapply kept_by_same_store].
  pose proof (save_historical_data_returns df symbol period data_type w2) as Hret.
  destruct (save_historical_data df symbol period data_type w2) as [o w3] eqn:Hsave.
  cbn in Hret. subst o. cbn.
  replace w3 with (save_historical_data df symbol period data_type w2).2
    by (by rewrite Hsave).
  apply kept_save; [by eapply kept_by_same_store|].
  destruct Hsame as (Hfiles & _ & Hcache & _).
  unfold _get_file_path in *. rewrite Hfiles, Hcache. intros Hnone new_df. by apply Hdistinct.
Qed.

(** A store kept by saves stays so under the cache-wrapped fetches, as
    long as the tables of the providers have distinct dates. *)
Lemma get_stock_history_cached_kept symbol period start_date end_date adjust w :
  kept_by_saves w →
  (∀ source df new_df,
     (source, Return (Some df))
       ∈ stock_history_sources (ak w) symbol period start_date end_date adjust →
     normalize_dates df = Return new_df → NoDup new_df.*1) →
  kept_by_saves (get_stock_history_cached symbol period start_date end_date adjust w).2.
Proof.
  intros Hkept Hdistinct.
  pose proof (get_historical_data_same_store
                symbol period start_date end_date "stock" w) as Hsame.
  destruct (get_historical_data_returns symbol period start_date end_date "stock" w)
    as [cached Hret].
  destruct (get_historical_data symbol period start_date end_date "stock" w)
    as [o w1] eqn:Hload.
  cbn in Hret, Hsame. subst o.
  unfold get_stock_history_cached. cbv zeta. rewrite (mbind_return _ _ _ _ _ Hload).
  pose proof (kept_by_same_store _ _ Hkept Hsame) as Hkept1.
  assert (kept_by_saves
            ((df ← get_stock_history symbol period start_date end_date adjust;
              (if negb (empty df) return M unit
               then save_historical_data df symbol period "stock" else mret tt);;
              mret df) w1).2) as Hmiss.
  { eapply refetched_kept; [done|done|apply try_sources_same_store|].
    intros df new_df Hres _ Hnorm. rewrite get_stock_history_eq in Hres.
    destruct (try_sources_result _ _ _ _ Hres) as [source Hin].
    destruct Hsame as (_ & _ & _ & Hak). rewrite Hak in Hin. by eapply Hdistinct. }
  destruct cached as [rows|]; [|done].
  by destruct (decide _).
Qed.

Lemma get_index_history_cached_kept symbol period start_date end_date w :
  kept_by_saves w →
  (∀ source df new_df,
     (source, Return (Some df))
       ∈ index_history_sources (ak w) symbol period start_date end_date →
     normalize_dates df = Return new_df → NoDup new_df.*1) →
  kept_by_saves (get_index_history_cached symbol period start_date end_date w).2.
Proof.
  intros Hkept Hdistinct.
  pose proof (get_historical_data_same_store
                symbol period start_date end_date "index" w) as Hsame.
  destruct (get_historical_data_returns symbol period start_date end_date "index" w)
    as [cached Hret].
  destruct (get_historical_data symbol period start_date end_date "index" w)
    as [o w1] eqn:Hload.
  cbn in Hret, Hsame. subst o.
  unfold get_index_history_cached. cbv zeta. rewrite (mbind_return _ _ _ _ _ Hload).
  pose proof (kept_by_same_store _ _ Hkept Hsame) as Hkept1.
  assert (kept_by_saves
            ((df ← get_index_history symbol period start_date end_date;
              (if negb (empty df) return M unit
               then save_historical_data df symbol period "index" else mret tt);;
              mret df) w1).2) as Hmiss.
  { eapply refetched_kept; [done|done|apply try_sources_same_store|].
    intros df new_df Hres _ Hnorm. rewrite get_index_history_eq in Hres.
    destruct (try_sources_result _ _ _ _ Hres) as [source Hin].
    destruct Hsame as (_ & _ & _ & Hak). rewrite Hak in Hin. by eapply Hdistinct. }
  destruct cached as [rows|]; [|done].
  by destruct (decide _).
Qed.

(** C7 (amended): whenever the store answers a historical request, the
    rows that the read-through layer returns are strictly ascending by
    date, with no date twice, however many ranges were merged into the
    store before, provided every partition was created from rows of
    distinct dates. *)
Theorem cache_hit_strictly_ascending
    symbol period start_date end_date data_type w (cached : table V) :
  kept_by_saves w →
  (get_historical_data symbol period start_date end_date data_type w).1
    = Return (Some cached) →
  strictly_ascending cached ∧
  (data_type = "stock" →
   ∀ adjust,
     (get_stock_history_cached symbol period start_date end_date adjust w).1
     = Return cached) ∧
  (data_type = "index" →
   (get_index_history_cached symbol period start_date end_date w).1 = Return cached).
Proof.
  intros Hkept Hload. split; [|split].
  - destruct (get_historical_data_hit _ _ _ _ _ _ _ Hload)
      as (stored & existing & start_dt & end_dt & Hfile & Hnorm & -> & _).
    destruct (kept_by_saves_partitions _ _ _ Hkept Hfile) as (f & -> & Hsorted).
    pose proof (normalize_dates_days _ _ Hnorm) as Hdays.
    apply normalize_dates_iso_inv in Hnorm as ->.
    eexists. split; [by apply normalize_dates_iso, between_days|].
    by apply between_strictly_sorted.
  - intros -> adjust. by apply get_stock_history_cached_hit.
  - intros ->. by apply get_index_history_cached_hit.
Qed.

Lemma refetched_table (fetched : M (table V)) symbol period data_type
    (k : M (table V)) w df :
  k = (df ← fetched;
       (if negb (empty df) return M unit
        then save_historical_data df symbol period data_type else mret tt);;
       mret df) →
  (fetched w).1 = Return df →
  (k w).1 = Return df.
Proof.
  intros -> Hfetch. run. destruct (fetched w) as [o w2]. cbn in Hfetch. subst o.
  destruct (negb (empty df)); [|done].
  pose proof (save_historical_data_returns df symbol period data_type w2) as Hsave.
  destruct (save_historical_data df symbol period data_type w2) as [o w3].
  cbn in Hsave. by subst o.
Qed.

(** C8: [save_historical_data] leaves the world alone on an empty table
    and never raises, whatever happens to the write; hence, when the
    store misses and a source delivers a table, the cache-wrapped fetch
    returns that table whether or not it could be saved. *)
Theorem cache_write_is_best_effort symbol period start_date end_date adjust w :
  (∀ data_type, save_historical_data [] symbol period data_type w = (Return (), w)) ∧
  (∀ df data_type, (save_historical_data df symbol period data_type w).1 = Return ()) ∧
  (∀ cached w1 df w2,
     get_historical_data symbol period start_date end_date "stock" w = (Return cached, w1) →
     is_hit cached = false →
     get_stock_history symbol period start_date end_date adjust w1 = (Return df, w2) →
     (get_stock_history_cached symbol period start_date end_date adjust w).1 = Return df) ∧
  (∀ cached w1 df w2,
     get_historical_data symbol period start_date end_date "index" w = (Return cached, w1) →
     is_hit cached = false →
     get_index_history symbol period start_date end_date w1 = (Return df, w2) →
     (get_index_history_cached symbol period start_date end_date w).1 = Return df).
Proof.
  split; [intros; apply save_historical_data_empty|].
  split; [intros; apply save_historical_data_returns|]. split.
  - intros cached w1 df w2 Hload Hmiss Hfetch.
    unfold get_stock_history_cached. cbv zeta.
    rewrite (mbind_return _ _ _ _ _ Hload).
    eapply refetched_table; [|by rewrite Hfetch].
    destruct cached as [rows|]; [|done].
    destruct (decide _) as [Hlen|]; [|done].
    cbn in Hmiss. apply bool_decide_eq_false in Hmiss. done.
  - intros cached w1 df w2 Hload Hmiss Hfetch.
    unfold get_index_history_cached. cbv zeta.
    rewrite (mbind_return _ _ _ _ _ Hload).
    eapply refetched_table; [|by rewrite Hfetch].
    destruct cached as [rows|]; [|done].
    destruct (decide _) as [Hlen|]; [|done].
    cbn in Hmiss. apply bool_decide_eq_false in Hmiss. done.
Qed.

(** ** analyze_stock *)

Section Analyze.

Context {R : Type}.
Variable technical_report : table V → string → string → string → Z → R.

(** C9 (amended): a symbol that is empty, holds a character that
    [str.isdigit] does not count as a digit, or is not 6 characters long
    makes [analyze_stock] return the error dictionary at once: the world,
    and with it the trace of file accesses and upstream calls, is
    unchanged.  (The characters that [str.isdigit] counts are more than
    the decimal digits.) *)
Theorem analyze_stock_rejects_malformed symbol period days w :
  invalid_symbol symbol →
  analyze_stock technical_report symbol period days w =
    (Return (Error ("无效的股票代码格式: " +:+ symbol +:+ "，必须是6位数字")), w).
Proof.
  intros Hbad. unfold analyze_stock.
  assert (falsy symbol || negb (isdigit symbol)
          || negb (bool_decide (String.length symbol = 6%nat)) = true) as ->; [|done].
  destruct Hbad as [-> | [(c & Hin & Hc) | Hlen]].
  - done.
  - apply orb_true_iff. left. apply orb_true_iff. right.
    apply negb_true_iff, andb_false_iff. right.
    apply not_true_is_false. intros Hall.
    rewrite forallb_forall in Hall. apply list_elem_of_In in Hin.
    specialize (Hall c Hin). congruence.
  - apply orb_true_iff. right. apply negb_true_iff. by apply bool_decide_eq_false.
Qed.

End Analyze.

End Properties.

(** * Further properties of the managers *)

Section Coverage.

Context {V Q : Type}.
Implicit Types (w : world (V:=V) (Q:=Q)) (df : table V) (f : frame V).
Implicit Types (quotes : list Q) (key source : string).

Ltac run :=
  unfold mbind, M_bind, mret, M_ret, bind, ret, raise, try_except, lift, get, modify in *;
  cbn in *.

(** ** Rate limit *)

Lemma invoked_clock source w :
  clock (invoked source w) = last_request_time (data_source (invoked source w)) ∧
  request_interval (data_source (invoked source w)) = request_interval (data_source w) ∧
  request_interval (data_source w)
    ≤ clock (invoked source w) - last_request_time (data_source w).
Proof.
  unfold invoked, _wait_for_rate_limit. cbn. destruct (decide _); cbn; lia.
Qed.

(** X1: in the failover loop every call of a candidate comes right after
    [_wait_for_rate_limit] (see [try_sources_cons]).  Two such calls in a
    row are at least [request_interval] apart, whatever time passed
    between them, as long as nothing else wrote [last_request_time]; and
    the wait before a call does not sleep when the interval has already
    elapsed.  Calls made outside the loop are not spaced by it. *)
Theorem consecutive_calls_spaced source1 source2 w w2 :
  last_request_time (data_source w2) = last_request_time (data_source (invoked source1 w)) →
  request_interval (data_source w2) = request_interval (data_source w) →
  request_interval (data_source w) ≤ clock (invoked source2 w2) - clock (invoked source1 w) ∧
  (request_interval (data_source w) ≤ clock w2 - clock (invoked source1 w) →
   clock (invoked source2 w2) = clock w2 ∧
   trace (invoked source2 w2) = UpstreamCall source2 :: trace w2).
Proof.
  intros Hlast Hint.
  destruct (invoked_clock source1 w) as (Hc1 & _ & _).
  destruct (invoked_clock source2 w2) as (_ & _ & Hgap).
  split; [lia|]. intros Hlate.
  unfold invoked, _wait_for_rate_limit. cbn.
  destruct (decide _); cbn; [lia|done].
Qed.

(** ** Failover *)

Lemma try_sources_pass {A} (before rest : list (string * fetch A)) last_error w :
  NoDup before.*1 →
  (∀ source r, (source, r) ∈ before → healthy_in w source = true → usable r = false) →
  ∃ last_error' w',
    try_sources (before ++ rest) last_error w = try_sources rest last_error' w' ∧
    max_failures (data_source w') = max_failures (data_source w) ∧
    (∀ source, source ∉ before.*1 → failures source w' = failures source w) ∧
    (∀ source e, (source, Raised e) ∈ before → healthy_in w source = true →
       failures source w' = S (failures source w)) ∧
    (∀ source r, (source, r) ∈ before →
       healthy_in w source = false ∨ (∃ t, r = Return t) →
       failures source w' = failures source w) ∧
    ∃ new, trace w' = new ++ trace w ∧
           ∀ source, source ∈ upstream_calls new → source ∈ before.*1.
Proof.
  revert last_error w.
  induction before as [|[name r0] before IH]; intros last_error w Hnd Hun.
  { exists last_error, w. split; [done|]. split; [done|]. split; [done|].
    split; [|split].
    - intros source e Hin. by apply elem_of_nil in Hin.
    - intros source r Hin. by apply elem_of_nil in Hin.
    - exists []. split; [done|]. intros source Hin. by apply elem_of_nil in Hin. }
  cbn in Hnd. apply NoDup_cons in Hnd as [Hfresh Hnd].
  assert (∀ last_error1 w1 new1,
    max_failures (data_source w1) = max_failures (data_source w) →
    (∀ source, source ≠ name → failures source w1 = failures source w) →
    trace w1 = new1 ++ trace w →
    (∀ source, source ∈ upstream_calls new1 → source = name) →
    (∀ e, r0 = Raised e → healthy_in w name = true →
          failures name w1 = S (failures name w)) →
    (healthy_in w name = false ∨ (∃ t, r0 = Return t) →
     failures name w1 = failures name w) →
    ∃ last_error' w',
      try_sources (before ++ rest) last_error1 w1 = try_sources rest last_error' w' ∧
      max_failures (data_source w') = max_failures (data_source w) ∧
      (∀ source, source ∉ ((name, r0) :: before).*1 →
         failures source w' = failures source w) ∧
      (∀ source e, (source, Raised e) ∈ (name, r0) :: before → healthy_in w source = true →
         failures source w' = S (failures source w)) ∧
      (∀ source r, (source, r) ∈ (name, r0) :: before →
         healthy_in w source = false ∨ (∃ t, r = Return t) →
         failures source w' = failures source w) ∧
      ∃ new, trace w' = new ++ trace w ∧
             ∀ source, source ∈ upstream_calls new → source ∈ ((name, r0) :: before).*1)
    as Hstep.
  { intros last_error1 w1 new1 Hmax1 Hothers Htrace1 Hcalls1 Hraised Hquiet.
    assert (∀ source, source ∈ before.*1 → source ≠ name) as Hne.
    { intros source Hin ->. done. }
    assert (∀ source, source ≠ name → healthy_in w1 source = healthy_in w source) as Hh.
    { intros source Hs. unfold healthy_in. by rewrite Hothers, Hmax1. }
    destruct (IH last_error1 w1 Hnd) as
      (last_error' & w' & Heq & Hmax' & Hout & Hinc & Hsame & new & Htrace & Hcalls).
    { intros source r Hin Hhealthy. apply (Hun source r); [by right|].
      rewrite <-Hh; [done|]. apply Hne, list_elem_of_fmap. by exists (source, r). }
    exists last_error', w'. split; [done|]. split; [congruence|].
    assert (failures name w' = failures name w1) as Hname by (by apply Hout).
    split; [|split; [|split]].
    - intros source [Hs Hb]%not_elem_of_cons. rewrite Hout by done. by apply Hothers.
    - intros source e [Heq'|Hin]%elem_of_cons Hhealthy.
      + simplify_eq. rewrite Hname. by apply (Hraised e).
      + assert (source ≠ name) as Hs.
        { apply Hne, list_elem_of_fmap. by exists (source, Raised e). }
        rewrite (Hinc source e Hin) by (by rewrite Hh). by rewrite Hothers.
    - intros source r [Heq'|Hin]%elem_of_cons Hcase.
      + simplify_eq. rewrite Hname. by apply Hquiet.
      + assert (source ≠ name) as Hs.
        { apply Hne, list_elem_of_fmap. by exists (source, r). }
        rewrite (Hsame source r Hin) by (by rewrite Hh). by apply Hothers.
    - exists (new ++ new1). split; [by rewrite Htrace, Htrace1, (assoc_L (++))|].
      intros source. rewrite upstream_calls_app, elem_of_app. intros [Hin|Hin].
      + cbn. rewrite elem_of_cons. right. by apply Hcalls.
      + cbn. rewrite elem_of_cons. left. by apply Hcalls1. }
  cbn [app]. rewrite try_sources_cons.
  destruct (healthy_in w name) eqn:Hhealthy.
  2:{ apply (Hstep last_error w []); try done.
      all: first [ by intros source Hin; apply elem_of_nil in Hin | intros; congruence ]. }
  destruct (invoked_trace name w) as (step & Hstep_trace & Hstep_calls).
  assert (∀ source, source ∈ upstream_calls step → source = name) as Hstep_names.
  { intros source. rewrite Hstep_calls. by intros ->%list_elem_of_singleton. }
  specialize (Hun name r0 (list_elem_of_here _ _) Hhealthy).
  destruct r0 as [[rows|]|e].
  - cbn in Hun. rewrite Hun.
    apply (Hstep last_error (invoked name w) step); try done.
    + apply invoked_max_failures.
    + intros. apply invoked_failures.
    + intros. apply invoked_failures.
  - apply (Hstep last_error (invoked name w) step); try done.
    + apply invoked_max_failures.
    + intros. apply invoked_failures.
    + intros. apply invoked_failures.
  - apply (Hstep (Some e) (_record_failure name (invoked name w)).2 step); try done.
    + cbn -[invoked]. apply invoked_max_failures.
    + intros source Hs. by rewrite failures_record_failure_ne, invoked_failures.
    + intros e' _ _. by rewrite failures_record_failure, invoked_failures.
    + intros [Hc|[t Hc]]; congruence.
Qed.

(** X2: the first candidate that is healthy and returns a table with
    rows ends the attempt: its table is returned and its failure count is
    set to 0, every healthy candidate before it that raised has its count
    incremented by one, the other counts are as they were, and no
    candidate after it is called. *)
Theorem first_usable_source_wins {A}
    (before after : list (string * fetch A)) winner (rows : list A) w :
  NoDup (before ++ (winner, Return (Some rows)) :: after).*1 →
  rows ≠ [] →
  healthy_in w winner = true →
  (∀ source r, (source, r) ∈ before → healthy_in w source = true → usable r = false) →
  let attempt := try_sources (before ++ (winner, Return (Some rows)) :: after) None w in
  attempt.1 = Return rows ∧
  failures winner attempt.2 = 0%nat ∧
  (∀ source e, (source, Raised e) ∈ before → healthy_in w source = true →
     failures source attempt.2 = S (failures source w)) ∧
  (∀ source r, (source, r) ∈ before →
     healthy_in w source = false ∨ (∃ t, r = Return t) →
     failures source attempt.2 = failures source w) ∧
  (∀ source, source ∈ after.*1 → failures source attempt.2 = failures source w) ∧
  ∃ new, trace attempt.2 = new ++ trace w ∧
         ∀ source, source ∈ after.*1 → source ∉ upstream_calls new.
Proof.
  intros Hnd Hrows Hwin Hun attempt. subst attempt.
  rewrite fmap_app in Hnd. cbn in Hnd.
  apply NoDup_app in Hnd as (Hnd_before & Hdisj & Hnd_rest).
  apply NoDup_cons in Hnd_rest as [Hwin_after _].
  assert (winner ∉ before.*1) as Hwin_before.
  { intros Hin. apply (Hdisj _ Hin). by left. }
  destruct (try_sources_pass before ((winner, Return (Some rows)) :: after) None w
              Hnd_before Hun)
    as (last_error' & w' & -> & Hmax & Hout & Hinc & Hsame & new & Htrace & Hcalls).
  rewrite try_sources_cons.
  assert (healthy_in w' winner = true) as ->.
  { unfold healthy_in in *. by rewrite Hout, Hmax. }
  rewrite (empty_false _ Hrows). cbn [negb fst snd].
  assert (∀ source, source ≠ winner →
    failures source (_record_success winner (invoked winner w')).2 = failures source w')
    as Hkeep.
  { intros source Hs. unfold failures. cbn -[invoked].
    rewrite lookup_insert_ne by done. by rewrite invoked_failure_count. }
  split; [done|]. split.
  { unfold failures. cbn -[invoked]. by rewrite lookup_insert_eq. }
  split; [|split; [|split]].
  - intros source e Hin Hh. rewrite Hkeep; [by eapply Hinc|].
    intros ->. apply Hwin_before, list_elem_of_fmap. by exists (winner, Raised e).
  - intros source r Hin Hcase. rewrite Hkeep; [by eapply Hsame|].
    intros ->. apply Hwin_before, list_elem_of_fmap. by exists (winner, r).
  - intros source Hin. rewrite Hkeep by (intros ->; done).
    apply Hout. intros Hb. apply (Hdisj _ Hb). by right.
  - destruct (invoked_trace winner w') as (step & Hstep & Hstep_calls).
    exists (step ++ new). split.
    + cbn -[invoked]. by rewrite Hstep, Htrace, (assoc_L (++)).
    + intros source Hin. rewrite upstream_calls_app, Hstep_calls, not_elem_of_app.
      split.
      * rewrite list_elem_of_singleton. intros ->. done.
      * intros Hc%Hcalls. apply (Hdisj _ Hc). by right.
Qed.

(** X3: a source that has reached [max_failures] keeps its failure count
    through every attempt that returns a table, so it stays excluded
    while some other source succeeds; only an attempt that fails
    altogether brings it back. *)
Theorem unhealthy_source_stays_excluded {A} (sources : list (string * fetch A)) source w :
  (max_failures (data_source w) ≤ failures source w)%nat →
  let attempt := try_sources sources None w in
  (∀ rows, attempt.1 = Return rows →
     failures source attempt.2 = failures source w ∧
     healthy_in attempt.2 source = false) ∧
  (∀ e, attempt.1 = Raised e → failures source attempt.2 = 0%nat).
Proof.
  intros Hbad attempt. subst attempt. split.
  - intros rows. generalize (@None exn) as last_error. revert w Hbad.
    induction sources as [|[name r] rest IH]; intros w Hbad last_error; [done|].
    rewrite try_sources_cons. destruct (healthy_in w name) eqn:Hh; [|by apply IH].
    assert (name ≠ source) as Hne.
    { intros ->. unfold healthy_in in Hh. apply bool_decide_eq_true in Hh. lia. }
    assert (∀ last_error' w',
      max_failures (data_source w') = max_failures (data_source w) →
      failures source w' = failures source w →
      (try_sources rest last_error' w').1 = Return rows →
      failures source (try_sources rest last_error' w').2 = failures source w ∧
      healthy_in (try_sources rest last_error' w').2 source = false) as Hrest.
    { intros last_error' w' Hmax Hf Hres.
      destruct (IH w') with (last_error := last_error') as [Hf' Hh']; [lia|done|].
      split; [congruence|done]. }
    destruct r as [[rows'|]|e].
    + destruct (empty rows'); cbn [negb].
      * apply Hrest; [apply invoked_max_failures|apply invoked_failures].
      * intros _. cbn [fst snd].
        assert (failures source (_record_success name (invoked name w)).2
                = failures source w) as Hf.
        { unfold failures. cbn -[invoked]. rewrite lookup_insert_ne by done.
          by rewrite invoked_failure_count. }
        split; [done|]. unfold healthy_in. rewrite Hf.
        replace (max_failures (data_source (_record_success name (invoked name w)).2))
          with (max_failures (data_source w))
          by (cbn -[invoked]; by rewrite invoked_max_failures).
        apply bool_decide_eq_false. lia.
    + apply Hrest; [apply invoked_max_failures|apply invoked_failures].
    + apply Hrest; [cbn -[invoked]; apply invoked_max_failures|].
      by rewrite failures_record_failure_ne, invoked_failures.
  - intros e Hfail. unfold failures.
    by rewrite (try_sources_exhausted _ _ _ _ Hfail).
Qed.

(** ** Realtime quotes through the memory cache *)

Lemma get_realtime_quotes_cached_hit w quotes T :
  _memory_cache (cache w) !! quotes_key = Some (quotes, T) →
  clock w - T ≤ 30 * 1000000 →
  get_realtime_quotes_cached w = (Return quotes, w).
Proof.
  intros Hentry Hfresh.
  assert (get_memory quotes_key (Some 30) w = (Return (Some quotes), w)) as Hget.
  { rewrite (get_memory_entry _ _ _ _ _ Hentry).
    change (ttl_or (Some 30) (_default_ttl (cache w))) with 30.
    destruct (decide _); [lia|done]. }
  unfold get_realtime_quotes_cached, cache_get_realtime_quotes. fold quotes_key.
  by rewrite (mbind_return _ _ _ _ _ Hget).
Qed.

(** X4: once [get_realtime_quotes_cached] has returned quotes, they sit
    in the memory cache with a timestamp at most 30 seconds old, and
    every call made while they are at most 30 seconds old returns them
    without touching the world: no provider is called and nothing
    sleeps. *)
Theorem realtime_quotes_served_from_memory w quotes w1 :
  get_realtime_quotes_cached w = (Return quotes, w1) →
  ∃ T, _memory_cache (cache w1) !! quotes_key = Some (quotes, T) ∧
       clock w1 - T ≤ 30 * 1000000 ∧
       ∀ w2 : world (V:=V) (Q:=Q), cache w2 = cache w1 → clock w2 - T ≤ 30 * 1000000 →
         get_realtime_quotes_cached w2 = (Return quotes, w2).
Proof.
  intros Hcall.
  assert (∃ T, _memory_cache (cache w1) !! quotes_key = Some (quotes, T) ∧
               clock w1 - T ≤ 30 * 1000000) as (T & Hentry & Hfresh).
  { assert (∀ w0 : world (V:=V) (Q:=Q),
      (data_source_get_realtime_quotes (V:=V) (Q:=Q)
       ≫= λ df : list Q, cache_set_realtime_quotes df ≫= λ _, mret df) w0
      = (Return quotes, w1) →
      ∃ T, _memory_cache (cache w1) !! quotes_key = Some (quotes, T) ∧
           clock w1 - T ≤ 30 * 1000000) as Hrefresh.
    { intros w0. unfold cache_set_realtime_quotes, set_memory. run.
      destruct (data_source_get_realtime_quotes w0) as [[df|e] w']; cbn; [|done].
      intros [= <- <-]. exists (clock w'). cbn. unfold quotes_key.
      rewrite lookup_insert_eq. split; [done|lia]. }
    unfold get_realtime_quotes_cached, cache_get_realtime_quotes in Hcall.
    fold quotes_key in Hcall.
    destruct (_memory_cache (cache w) !! quotes_key) as [[data T0]|] eqn:Hold.
    - pose proof (get_memory_entry quotes_key (Some 30) data T0 w Hold) as Hget.
      change (ttl_or (Some 30) (_default_ttl (cache w))) with 30 in Hget.
      destruct (decide (clock w - T0 > 30 * 1000000)) as [Hstale|Hfresh].
      + rewrite (mbind_return _ _ _ _ _ Hget) in Hcall. by eapply Hrefresh.
      + rewrite (mbind_return _ _ _ _ _ Hget) in Hcall.
        injection Hcall as <- <-. exists T0. split; [done|lia].
    - rewrite (mbind_return _ _ _ _ _ (get_memory_absent _ _ _ Hold)) in Hcall.
      by eapply Hrefresh. }
  exists T. split; [done|]. split; [done|].
  intros w2 Hcache Hfresh2. apply (get_realtime_quotes_cached_hit w2 quotes T); [|done].
  by rewrite Hcache.
Qed.

(** X5: when the memory cache holds no quotes of at most 30 seconds and
    no healthy realtime source gives a usable result, the call raises,
    leaves no quotes in the memory cache (an entry that was too old is
    dropped, not served) and clears the failure counts. *)
Theorem realtime_refresh_failure_caches_nothing w :
  (∀ quotes T, _memory_cache (cache w) !! quotes_key = Some (quotes, T) →
               clock w - T > 30 * 1000000) →
  (∀ source r, (source, r) ∈ realtime_sources (ak w) →
               healthy_in w source = true → usable r = false) →
  ∃ e, (get_realtime_quotes_cached w).1 = Raised e ∧
       _memory_cache (cache (get_realtime_quotes_cached w).2) !! quotes_key = None ∧
       failure_count (data_source (get_realtime_quotes_cached w).2) = ∅.
Proof.
  intros Hold Hdown.
  assert (∃ w0, get_memory quotes_key (Some 30) w = (Return None, w0) ∧
                _memory_cache (cache w0) !! quotes_key = None ∧
                ak w0 = ak w ∧ data_source w0 = data_source w) as (w0 & Hget & Hnone & Hak & Hds).
  { destruct (_memory_cache (cache w) !! quotes_key) as [[data T0]|] eqn:Hentry.
    - specialize (Hold data T0 eq_refl).
      rewrite (get_memory_entry _ _ _ _ _ Hentry).
      change (ttl_or (Some 30) (_default_ttl (cache w))) with 30.
      destruct (decide _); [|lia].
      eexists. split; [done|]. cbn. by rewrite lookup_delete_eq.
    - exists w. by rewrite (get_memory_absent _ _ _ Hentry). }
  unfold get_realtime_quotes_cached, cache_get_realtime_quotes. fold quotes_key.
  rewrite (mbind_return _ _ _ _ _ Hget).
  pose proof (data_source_get_realtime_quotes_eq w0) as Heq.
  destruct (proj2 (try_sources_raises_iff (realtime_sources (ak w0)) None w0
                     (realtime_sources_names _))) as [e Hfail].
  { rewrite Hak. intros source r Hin Hh. apply (Hdown source r Hin).
    unfold healthy_in, failures in *. by rewrite <-Hds. }
  pose proof (try_sources_exhausted _ _ _ _ Hfail) as Hclear.
  pose proof (try_sources_same_store (realtime_sources (ak w0)) None w0)
    as (_ & _ & Hcache & _).
  destruct (try_sources (realtime_sources (ak w0)) None w0) as [o w'] eqn:Hattempt.
  cbn in Hfail, Hclear, Hcache. subst o.
  cbv beta iota. unfold mbind, M_bind, bind. rewrite Heq. cbn.
  exists e. split; [done|]. split; [by rewrite Hcache|done].
Qed.

(** ** The historical store *)


Lemma save_historical_data_quiet df symbol period data_type w :
  data_source (save_historical_data df symbol period data_type w).2 = data_source w ∧
  clock (save_historical_data df symbol period data_type w).2 = clock w ∧
  ak (save_historical_data df symbol period data_type w).2 = ak w.
Proof.
  unfold save_historical_data, file_exists, read_parquet, to_parquet. run.
  repeat case_match; simplify_eq; done.
Qed.

Lemma last_value_drop_duplicates f d (v : V) :
  (d, v) ∈ drop_duplicates f ↔ last_value d f = Some v.
Proof.
  induction f as [|[d' v'] rest IH]; cbn.
  - split; [by intros ?%elem_of_nil|done].
  - assert (d ∈ rest.*1 ↔ is_Some (last_value d rest)) as Hdates.
    { clear. induction rest as [|[d1 v1] rest IH]; cbn.
      - split; [by intros ?%elem_of_nil|by intros [? ?]].
      - rewrite elem_of_cons, IH. destruct (last_value d rest) as [v2|].
        + split; eauto.
        + destruct (decide (d = d1)) as [->|Hne].
          * split; eauto.
          * split; [intros [?|[? ?]]; done|intros [? ?]; done]. }
    destruct (decide (d' ∈ rest.*1)) as [Hin|Hout].
    + rewrite IH. destruct (last_value d rest) as [v2|] eqn:Hlast; [done|].
      destruct (decide (d = d')) as [->|Hne]; [|done].
      apply Hdates in Hin. by destruct Hin.
    + rewrite elem_of_cons, IH.
      destruct (last_value d rest) as [v2|] eqn:Hlast.
      * split; [|by right]. intros [[= -> ->]|Hr]; [|done].
        destruct Hout. apply Hdates. eauto.
      * destruct (decide (d = d')) as [->|Hne].
        -- split; [intros [[= ->]|?]; done|intros [= ->]; by left].
        -- split; [intros [[= ? ?]|?]; done|done].
Qed.

(** X7: [save_historical_data] writes to the partition of its own
    symbol, period and data type only and leaves every other file, the
    memory cache, the source manager and the clock alone.  A date that
    the partition held is still in it afterwards.  Over a damaged
    partition, or one that cannot be written, nothing is written. *)
Theorem save_confined_to_partition df symbol period data_type w :
  let path := _get_file_path symbol period data_type w in
  let saved := (save_historical_data df symbol period data_type w).2 in
  (∀ other, other ≠ path → files saved !! other = files w !! other) ∧
  readonly saved = readonly w ∧ cache saved = cache w ∧ ak saved = ak w ∧
  data_source saved = data_source w ∧ clock saved = clock w ∧
  (∀ stored existing d,
     files w !! path = Some (Parquet stored) →
     normalize_dates stored = Return existing →
     d ∈ existing.*1 →
     ∃ stored' kept, files saved !! path = Some (Parquet stored') ∧
                     normalize_dates stored' = Return kept ∧ d ∈ kept.*1) ∧
  (files w !! path = Some Damaged ∨ path ∈ readonly w → files saved = files w).
Proof.
  intros path saved. subst saved.
  destruct (save_historical_data_keeps df symbol period data_type w) as [Hro Hcache].
  destruct (save_historical_data_quiet df symbol period data_type w) as (Hds & Hclock & Hak).
  pose proof (save_historical_data_files df symbol period data_type w) as Hfiles.
  cbv zeta in Hfiles. fold path in Hfiles.
  split; [|split; [done|split; [done|split; [done|split; [done|split; [done|split]]]]]].
  - intros other Hother.
    destruct Hfiles as [-> | (new_df & _ & _ & _ & [[_ ->] | (stored & existing & _ & _ & ->)])];
      [done|by rewrite lookup_insert_ne..].
  - intros stored existing d Hfile Hnorm Hd.
    destruct Hfiles as [Hsame | (new_df & Hnew & _ & _ & [[Hnone _] | Hmerge])].
    + exists stored, existing. by rewrite Hsame.
    + congruence.
    + destruct Hmerge as (stored' & existing' & Hfile' & Hnorm' & ->).
      assert (stored' = stored) as -> by congruence.
      assert (existing' = existing) as -> by congruence.
      eexists _, _. rewrite lookup_insert_eq.
      split; [done|]. split; [apply (merged_parses _ _ _ _ Hnew Hnorm)|].
      apply list_elem_of_fmap in Hd as ([d0 v0] & -> & Hin0).
      assert (d0 ∈ (drop_duplicates (existing ++ new_df)).*1) as Hkept.
      { apply drop_duplicates_dates. rewrite fmap_app, elem_of_app. left.
        apply list_elem_of_fmap. by exists (d0, v0). }
      cbn. by rewrite sort_values_perm.
  - intros Hcase.
    destruct Hfiles as [Hsame | (new_df & _ & _ & Hrw & [[Hnone _] | Hmerge])]; [done|..].
    + destruct Hcase as [Hd|Hr]; [congruence|done].
    + destruct Hmerge as (stored' & existing' & Hfile' & _).
      destruct Hcase as [Hd|Hr]; [congruence|done].
Qed.

(** X8: merging a table into a stored partition keeps, for every date of
    the old rows and the new ones together, exactly the last row of that
    date (so a new row wins over a stored one), in strictly ascending
    order of date. *)
Theorem merge_keeps_last_row df new_df stored existing symbol period data_type w :
  df ≠ [] →
  normalize_dates df = Return new_df →
  files w !! _get_file_path symbol period data_type w = Some (Parquet stored) →
  normalize_dates stored = Return existing →
  _get_file_path symbol period data_type w ∉ readonly w →
  ∃ merged,
    files (save_historical_data df symbol period data_type w).2
      !! _get_file_path symbol period data_type w = Some (Parquet (iso merged)) ∧
    StronglySorted row_lt merged ∧
    ∀ d v, (d, v) ∈ merged ↔ last_value d (existing ++ new_df) = Some v.
Proof.
  intros Hne Hnorm Hfile Hstored Hrw.
  exists (sort_values (drop_duplicates (existing ++ new_df))).
  split; [|split].
  - erewrite save_historical_data_merges by done. apply lookup_insert_eq.
  - apply merge_strictly_sorted.
  - intros d v. by rewrite sort_values_perm, last_value_drop_duplicates.
Qed.

(** X9: the first save of a partition stores exactly the rows it was
    given, each as often as it came, sorted ascending by date; strictly so
    when the rows have distinct dates.  No row is dropped, also when
    two of them carry one date. *)
Theorem created_partition_sorted df new_df symbol period data_type w :
  df ≠ [] →
  normalize_dates df = Return new_df →
  files w !! _get_file_path symbol period data_type w = None →
  _get_file_path symbol period data_type w ∉ readonly w →
  ∃ written,
    files (save_historical_data df symbol period data_type w).2
      !! _get_file_path symbol period data_type w = Some (Parquet (iso written)) ∧
    written ≡ₚ new_df ∧
    StronglySorted row_le written ∧
    (NoDup new_df.*1 → StronglySorted row_lt written).
Proof.
  intros Hne Hnorm Hfile Hrw. exists (sort_values new_df).
  split; [|split; [|split]].
  - erewrite save_historical_data_creates by done. apply lookup_insert_eq.
  - apply sort_values_perm.
  - apply sort_values_sorted.
  - apply sort_values_strict.
Qed.

(** The partition that a successful save of rows of distinct dates
    leaves. *)
Lemma saved_partition df new_df existing symbol period data_type w :
  df ≠ [] →
  normalize_dates df = Return new_df →
  NoDup new_df.*1 →
  partition_rows w (_get_file_path symbol period data_type w) existing →
  _get_file_path symbol period data_type w ∉ readonly w →
  ∃ merged,
    files (save_historical_data df symbol period data_type w).2
    = <[_get_file_path symbol period data_type w := Parquet (iso merged)]> (files w) ∧
    StronglySorted row_lt merged ∧
    Forall (λ d, timestamp_day d = true) merged.*1 ∧
    (∀ r, r ∈ new_df → r ∈ merged) ∧
    (∀ d, d ∈ merged.*1 ↔ d ∈ (existing ++ new_df).*1).
Proof.
  intros Hne Hnorm Hnd Hrows Hrw. unfold partition_rows in Hrows.
  pose proof (normalize_dates_days _ _ Hnorm) as Hnew_days.
  destruct (files w !! _) as [[stored|]|] eqn:Hfile; [|done|].
  - exists (sort_values (drop_duplicates (existing ++ new_df))).
    split; [by eapply save_historical_data_merges|].
    split; [apply merge_strictly_sorted|].
    split; [apply merged_days; [by eapply normalize_dates_days|done]|]. split.
    + intros r Hr. rewrite sort_values_perm, drop_duplicates_app, elem_of_app.
      right. by rewrite drop_duplicates_id.
    + intros d. by rewrite sort_values_perm, drop_duplicates_dates.
  - subst existing. exists (sort_values new_df).
    split; [by eapply save_historical_data_creates|].
    split; [by apply sort_values_strict|].
    split; [by apply sorted_days|]. split.
    + intros r Hr. by rewrite sort_values_perm.
    + intros d. by rewrite sort_values_perm.
Qed.

Lemma get_historical_data_trace symbol period start_date end_date data_type w :
  is_Some (files w !! _get_file_path symbol period data_type w) →
  (get_historical_data symbol period start_date end_date data_type w).2
  = log (FileRead (_get_file_path symbol period data_type w))
      (log (FileStat (_get_file_path symbol period data_type w)) w).
Proof.
  intros [stored Hfile].
  unfold get_historical_data, file_exists, read_parquet. run.
  rewrite Hfile. cbn. rewrite Hfile.
  repeat case_match; simplify_eq; done.
Qed.

(** Loading, with request dates of four-digit years, from a partition
    that a save wrote. *)
Lemma load_saved_partition symbol period data_type start_dt end_dt merged latest w :
  files w !! _get_file_path symbol period data_type w = Some (Parquet (iso merged)) →
  Forall (λ d, timestamp_day d = true) merged.*1 →
  latest_of merged latest →
  days_between end_dt latest ≤ 2 →
  request_date start_dt →
  request_date end_dt →
  between start_dt end_dt merged ≠ [] →
  get_historical_data symbol period (CompactStr start_dt) (CompactStr end_dt) data_type w
  = (Return (Some (iso (between start_dt end_dt merged))),
     log (FileRead (_get_file_path symbol period data_type w))
       (log (FileStat (_get_file_path symbol period data_type w)) w)).
Proof.
  intros Hfile Hdays Hlatest Hfresh Hstart Hend Hrows.
  assert (merged ≠ []) as Hne by (intros ->; done).
  pose proof (get_historical_data_stored symbol period data_type start_dt end_dt
                _ _ _ w Hfile (normalize_dates_iso merged Hdays)
                (column_max_latest _ _ Hne Hlatest) Hstart Hend) as Hload.
  rewrite (empty_false _ Hrows) in Hload.
  destruct (decide _) as [|_] in Hload; [lia|].
  pose proof (get_historical_data_trace symbol period (CompactStr start_dt)
                (CompactStr end_dt) data_type w) as Htrace.
  rewrite Hfile in Htrace. specialize (Htrace (mk_is_Some _ _ eq_refl)).
  destruct (get_historical_data _ _ _ _ _ w) as [o w']. cbn in *. by subst.
Qed.

(** X10: rows of distinct dates that were saved are read back: a load
    from the partition just written, for request dates of the calendar
    with years of four digits and an end date at most 2 days after the
    latest stored date, returns every saved row whose date lies in the
    requested range, in strictly ascending order of date. *)
Theorem saved_rows_read_back
    df new_df existing symbol period data_type start_dt end_dt latest w :
  normalize_dates df = Return new_df →
  NoDup new_df.*1 →
  partition_rows w (_get_file_path symbol period data_type w) existing →
  _get_file_path symbol period data_type w ∉ readonly w →
  latest_of (existing ++ new_df) latest →
  days_between end_dt latest ≤ 2 →
  request_date start_dt →
  request_date end_dt →
  (∃ r, r ∈ new_df ∧ date_le start_dt r.1 ∧ date_le r.1 end_dt) →
  let saved := (save_historical_data df symbol period data_type w).2 in
  ∃ cached,
    (get_historical_data symbol period (CompactStr start_dt) (CompactStr end_dt)
       data_type saved).1 = Return (Some cached) ∧
    strictly_ascending cached ∧
    ∀ d v, (d, v) ∈ new_df → date_le start_dt d → date_le d end_dt →
           (IsoStr d, v) ∈ cached.
Proof.
  intros Hnorm Hnd Hrows Hrw Hlatest Hfresh Hstart Hend
    (r0 & Hr0 & Hr0_start & Hr0_end) saved.
  assert (df ≠ []) as Hne.
  { intros ->. rewrite normalize_dates_nil in Hnorm. simplify_eq.
    by apply elem_of_nil in Hr0. }
  destruct (saved_partition df new_df existing symbol period data_type w)
    as (merged & Hfiles & Hsorted & Hdays & Hnew & Hdates); [done..|].
  fold saved in Hfiles.
  destruct (save_historical_data_keeps df symbol period data_type w) as [_ Hcache].
  fold saved in Hcache.
  assert (_get_file_path symbol period data_type saved
          = _get_file_path symbol period data_type w) as Hpath.
  { unfold _get_file_path. by rewrite Hcache. }
  assert (∀ d v, (d, v) ∈ new_df → date_le start_dt d → date_le d end_dt →
                 (d, v) ∈ between start_dt end_dt merged) as Hbetween.
  { intros d v Hin Hs He. apply elem_of_between; [apply Hstart|apply Hend|].
    split; [by apply Hnew|done]. }
  exists (iso (between start_dt end_dt merged)).
  split; [|split].
  - erewrite load_saved_partition; [done| |done| | |done|done|].
    + rewrite Hpath, Hfiles. apply lookup_insert_eq.
    + destruct Hlatest as [Hin Hupper]. split.
      * by apply Hdates.
      * intros d Hd. by apply Hupper, Hdates.
    + done.
    + destruct r0 as [d0 v0]. intros Hnil.
      specialize (Hbetween d0 v0 Hr0 Hr0_start Hr0_end).
      rewrite Hnil in Hbetween. by apply elem_of_nil in Hbetween.
  - eexists. split; [by apply normalize_dates_iso, between_days|].
    by apply between_strictly_sorted.
  - intros d v Hin Hs He. unfold iso. apply list_elem_of_fmap.
    exists (d, v). split; [done|]. by apply Hbetween.
Qed.

(** X11: saving the same table a second time changes nothing in the
    cache directory, when the first save found the partition in place or
    was given rows of distinct dates. *)
Theorem save_again_changes_nothing df symbol period data_type w :
  is_Some (files w !! _get_file_path symbol period data_type w) ∨
  (∀ new_df, normalize_dates df = Return new_df → NoDup new_df.*1) →
  let once := (save_historical_data df symbol period data_type w).2 in
  let twice := (save_historical_data df symbol period data_type once).2 in
  same_store once twice.
Proof.
  intros Hcond once twice.
  pose proof (save_historical_data_idempotent df symbol period data_type w Hcond) as Hfiles.
  cbv zeta in Hfiles. fold once in Hfiles. fold twice in Hfiles.
  split; [done|].
  destruct (save_historical_data_keeps df symbol period data_type once) as [Hro Hcache].
  split; [done|]. split; [done|].
  subst twice. unfold save_historical_data, file_exists, read_parquet, to_parquet.
  run. repeat case_match; simplify_eq; done.
Qed.

Lemma try_sources_nonempty {A} (sources : list (string * fetch A)) last_error w rows :
  (try_sources sources last_error w).1 = Return rows → rows ≠ [].
Proof.
  revert last_error w.
  induction sources as [|[name r] rest IH]; intros last_error w; [done|].
  rewrite try_sources_cons.
  destruct (healthy_in w name); [|apply IH].
  destruct r as [[rows'|]|e]; try apply IH.
  destruct (empty rows') eqn:Hrows; cbn [negb]; [apply IH|].
  intros [= ->] ->. done.
Qed.

(** What the read-through layer does after a miss. *)
Lemma refetched_world (fetched : M (table V)) symbol period data_type
    (k : M (table V)) w :
  k = (df ← fetched;
       (if negb (empty df) return M unit
        then save_historical_data df symbol period data_type else mret tt);;
       mret df) →
  k w = match fetched w with
        | (Return df, w1) =>
            (Return df,
             if negb (empty df) then (save_historical_data df symbol period data_type w1).2
             else w1)
        | (Raised e, w1) => (Raised e, w1)
        end.
Proof.
  intros ->. run. destruct (fetched w) as [[df|e] w1]; [|done].
  destruct (negb (empty df)); [|done].
  pose proof (save_historical_data_returns df symbol period data_type w1) as Hret.
  destruct (save_historical_data df symbol period data_type w1) as [o w2].
  cbn in Hret. by subst o.
Qed.

Lemma get_stock_history_cached_miss symbol period start_date end_date adjust w cached :
  (get_historical_data symbol period start_date end_date "stock" w).1 = Return cached →
  is_hit cached = false →
  get_stock_history_cached symbol period start_date end_date adjust w
  = match get_stock_history symbol period start_date end_date adjust
            (get_historical_data symbol period start_date end_date "stock" w).2 with
    | (Return df, w1) =>
        (Return df,
         if negb (empty df) then (save_historical_data df symbol period "stock" w1).2
         else w1)
    | (Raised e, w1) => (Raised e, w1)
    end.
Proof.
  intros Hret Hmiss.
  destruct (get_historical_data symbol period start_date end_date "stock" w)
    as [o w0] eqn:Hload.
  cbn in Hret, Hmiss |- *. subst o.
  unfold get_stock_history_cached. cbv zeta. rewrite (mbind_return _ _ _ _ _ Hload).
  destruct cached as [rows|].
  - destruct (decide _) as [Hlen|_].
    { cbn in Hmiss. apply bool_decide_eq_false in Hmiss. done. }
    by apply refetched_world.
  - by apply refetched_world.
Qed.

Lemma get_index_history_cached_miss symbol period start_date end_date w cached :
  (get_historical_data symbol period start_date end_date "index" w).1 = Return cached →
  is_hit cached = false →
  get_index_history_cached symbol period start_date end_date w
  = match get_index_history symbol period start_date end_date
            (get_historical_data symbol period start_date end_date "index" w).2 with
    | (Return df, w1) =>
        (Return df,
         if negb (empty df) then (save_historical_data df symbol period "index" w1).2
         else w1)
    | (Raised e, w1) => (Raised e, w1)
    end.
Proof.
  intros Hret Hmiss.
  destruct (get_historical_data symbol period start_date end_date "index" w)
    as [o w0] eqn:Hload.
  cbn in Hret, Hmiss |- *. subst o.
  unfold get_index_history_cached. cbv zeta. rewrite (mbind_return _ _ _ _ _ Hload).
  destruct cached as [rows|].
  - destruct (decide _) as [Hlen|_].
    { cbn in Hmiss. apply bool_decide_eq_false in Hmiss. done. }
    by apply refetched_world.
  - by apply refetched_world.
Qed.

Lemma is_hit_cases (cached : option (table V)) :
  (∃ rows, cached = Some rows ∧ rows ≠ []) ∨ is_hit cached = false.
Proof.
  destruct cached as [[|r rows]|]; [by right| |by right].
  left. by exists (r :: rows).
Qed.

(** ** The read-through layer after a miss *)

Lemma get_stock_history_cached_nonempty symbol period start_date end_date adjust w df :
  (get_stock_history_cached symbol period start_date end_date adjust w).1 = Return df →
  df ≠ [].
Proof.
  destruct (get_historical_data_returns symbol period start_date end_date "stock" w)
    as [cached Hload].
  destruct (is_hit_cases cached) as [(rows & -> & Hrows) | Hmiss].
  - rewrite (get_stock_history_cached_hit _ _ _ _ _ _ _ Hload). by intros [= <-].
  - rewrite (get_stock_history_cached_miss _ _ _ _ _ _ _ Hload Hmiss).
    destruct (get_stock_history _ _ _ _ _ _) as [[df'|e] w1] eqn:Hfetch; [|done].
    cbn. intros [= ->]. eapply try_sources_nonempty.
    rewrite <-get_stock_history_eq, Hfetch. done.
Qed.

Lemma get_index_history_cached_nonempty symbol period start_date end_date w df :
  (get_index_history_cached symbol period start_date end_date w).1 = Return df →
  df ≠ [].
Proof.
  destruct (get_historical_data_returns symbol period start_date end_date "index" w)
    as [cached Hload].
  destruct (is_hit_cases cached) as [(rows & -> & Hrows) | Hmiss].
  - rewrite (get_index_history_cached_hit _ _ _ _ _ _ Hload). by intros [= <-].
  - rewrite (get_index_history_cached_miss _ _ _ _ _ _ Hload Hmiss).
    destruct (get_index_history _ _ _ _ _) as [[df'|e] w1] eqn:Hfetch; [|done].
    cbn. intros [= ->]. eapply try_sources_nonempty.
    rewrite <-get_index_history_eq, Hfetch. done.
Qed.

(** X12: a table that the source manager or a cache-wrapped history
    fetch returns has at least one row, whether it comes from the store
    or from a provider: their callers never see an empty table. *)
Theorem cached_history_never_empty symbol period start_date end_date adjust w :
  (∀ quotes, (data_source_get_realtime_quotes w).1 = Return quotes → quotes ≠ []) ∧
  (∀ df, (get_stock_history_cached symbol period start_date end_date adjust w).1 = Return df →
         df ≠ []) ∧
  (∀ df, (get_index_history_cached symbol period start_date end_date w).1 = Return df →
         df ≠ []).
Proof.
  split; [|split].
  - intros quotes. rewrite data_source_get_realtime_quotes_eq. apply try_sources_nonempty.
  - intros df. apply get_stock_history_cached_nonempty.
  - intros df. apply get_index_history_cached_nonempty.
Qed.

Lemma get_file_path_cache symbol period data_type w w' :
  cache w' = cache w →
  _get_file_path symbol period data_type w' = _get_file_path symbol period data_type w.
Proof. intros Hcache. unfold _get_file_path. by rewrite Hcache. Qed.

(** X13: after a stock request that missed the store and fetched rows
    of distinct dates, the same request is served from the store: it
    looks for the partition and reads it, calls no provider and does not
    sleep, and returns every fetched row of the requested range.  This
    holds when the partition could be written, its old rows parsed, the
    request dates are dates of the calendar with years of four digits,
    and the end date is at most 2 days after the latest date now
    stored. *)
Theorem second_request_served_from_store
    symbol period start_dt end_dt adjust w cached df w1 new_df existing latest :
  let path := _get_file_path symbol period "stock" w in
  (get_historical_data symbol period (CompactStr start_dt) (CompactStr end_dt) "stock" w).1
    = Return cached →
  is_hit cached = false →
  get_stock_history_cached symbol period (CompactStr start_dt) (CompactStr end_dt) adjust w
    = (Return df, w1) →
  normalize_dates df = Return new_df →
  NoDup new_df.*1 →
  partition_rows w path existing →
  path ∉ readonly w →
  latest_of (existing ++ new_df) latest →
  days_between end_dt latest ≤ 2 →
  request_date start_dt →
  request_date end_dt →
  (∃ r, r ∈ new_df ∧ date_le start_dt r.1 ∧ date_le r.1 end_dt) →
  ∃ served,
    get_stock_history_cached symbol period (CompactStr start_dt) (CompactStr end_dt) adjust w1
    = (Return served, log (FileRead path) (log (FileStat path) w1)) ∧
    ∀ d v, (d, v) ∈ new_df → date_le start_dt d → date_le d end_dt →
           (IsoStr d, v) ∈ served.
Proof.
  intros path Hload Hmiss Hcall Hnorm Hnd Hrows Hrw Hlatest Hfresh Hstart Hend
    (r0 & Hr0 & Hr0_start & Hr0_end).
  assert (df ≠ []) as Hne.
  { intros ->. rewrite normalize_dates_nil in Hnorm. simplify_eq.
    by apply elem_of_nil in Hr0. }
  rewrite (get_stock_history_cached_miss _ _ _ _ _ _ _ Hload Hmiss) in Hcall.
  pose proof (get_historical_data_same_store symbol period (CompactStr start_dt)
                (CompactStr end_dt) "stock" w) as Hsame0.
  set (w0 := (get_historical_data symbol period (CompactStr start_dt)
                (CompactStr end_dt) "stock" w).2) in *.
  pose proof (try_sources_same_store
                (stock_history_sources (ak w0) symbol period (CompactStr start_dt)
                   (CompactStr end_dt) adjust) None w0) as Hsame2.
  rewrite <-get_stock_history_eq in Hsame2.
  destruct (get_stock_history _ _ _ _ _ w0) as [[df'|e] w2]; [|done].
  cbn in Hsame2. injection Hcall as -> <-. rewrite (empty_false _ Hne). cbn [negb].
  destruct (same_store_trans _ _ _ Hsame0 Hsame2) as (Hfiles2 & Hro2 & Hcache2 & _).
  pose proof (get_file_path_cache symbol period "stock" w w2 Hcache2) as Hpath2.
  fold path in Hpath2.
  destruct (saved_partition df new_df existing symbol period "stock" w2)
    as (merged & Hfiles & Hsorted & Hdays & Hnew & Hdates); [done|done|done| | |].
  { unfold partition_rows. by rewrite Hpath2, Hfiles2. }
  { by rewrite Hpath2, Hro2. }
  destruct (save_historical_data_keeps df symbol period "stock" w2) as [_ Hcache].
  set (w1 := (save_historical_data df symbol period "stock" w2).2) in *.
  assert (_get_file_path symbol period "stock" w1 = path) as Hpath1.
  { unfold path. apply get_file_path_cache. congruence. }
  assert (∀ d v, (d, v) ∈ new_df → date_le start_dt d → date_le d end_dt →
                 (d, v) ∈ between start_dt end_dt merged) as Hbetween.
  { intros d v Hin Hs He. apply elem_of_between; [apply Hstart|apply Hend|].
    split; [by apply Hnew|done]. }
  assert (between start_dt end_dt merged ≠ []) as Hsome.
  { destruct r0 as [d0 v0]. intros Hnil.
    specialize (Hbetween d0 v0 Hr0 Hr0_start Hr0_end).
    rewrite Hnil in Hbetween. by apply elem_of_nil in Hbetween. }
  pose proof (load_saved_partition symbol period "stock" start_dt end_dt merged latest w1)
    as Hhit.
  rewrite Hpath1 in Hhit. rewrite Hfiles, Hpath2 in Hhit.
  specialize (Hhit (lookup_insert_eq _ _ _) Hdays).
  destruct Hlatest as [Hin Hupper].
  specialize (Hhit (conj (proj2 (Hdates _) Hin) (λ d Hd, Hupper d (proj1 (Hdates d) Hd)))
                Hfresh Hstart Hend Hsome).
  exists (iso (between start_dt end_dt merged)). split.
  - unfold get_stock_history_cached. cbv zeta. rewrite (mbind_return _ _ _ _ _ Hhit).
    destruct (decide _) as [|Hlen]; [done|].
    destruct Hlen. unfold iso. rewrite length_fmap.
    destruct (between start_dt end_dt merged); [done|cbn; lia].
  - intros d v Hd Hs He. unfold iso. apply list_elem_of_fmap.
    exists (d, v). split; [done|]. by apply Hbetween.
Qed.

(** X14: a partition that cannot be read is never repaired: a stock
    request over it misses, answers what the source manager answers, and
    leaves the cache directory as it was, so the next request misses
    again. *)
Theorem damaged_partition_never_repaired symbol period start_date end_date adjust w :
  files w !! _get_file_path symbol period "stock" w = Some Damaged →
  let loaded := get_historical_data symbol period start_date end_date "stock" w in
  let call := get_stock_history_cached symbol period start_date end_date adjust w in
  loaded.1 = Return None ∧
  call.1 = (get_stock_history symbol period start_date end_date adjust loaded.2).1 ∧
  files call.2 = files w.
Proof.
  intros Hfile loaded call.
  assert (loaded.1 = Return None) as Hload.
  { subst loaded. unfold get_historical_data, file_exists, read_parquet. run.
    rewrite Hfile. cbn. by rewrite Hfile. }
  split; [done|]. subst call.
  rewrite (get_stock_history_cached_miss _ _ _ _ _ _ _ Hload eq_refl).
  pose proof (get_historical_data_same_store symbol period start_date end_date "stock" w)
    as Hsame0.
  fold loaded in Hsame0 |- *.
  pose proof (try_sources_same_store
                (stock_history_sources (ak loaded.2) symbol period start_date end_date adjust)
                None loaded.2) as Hsame2.
  rewrite <-get_stock_history_eq in Hsame2.
  destruct (get_stock_history _ _ _ _ _ loaded.2) as [[df|e] w2]; cbn in Hsame2 |- *.
  2:{ split; [done|]. by destruct (same_store_trans _ _ _ Hsame0 Hsame2). }
  split; [done|].
  destruct (same_store_trans _ _ _ Hsame0 Hsame2) as (Hfiles2 & Hro2 & Hcache2 & _).
  destruct (negb (empty df)); [|done].
  pose proof (get_file_path_cache symbol period "stock" w w2 Hcache2) as Hpath2.
  destruct (save_historical_data_files df symbol period "stock" w2)
    as [Hsame | (new_df & _ & _ & _ & [[Hnone _] | (stored & existing & Hstored & _)])].
  - congruence.
  - rewrite Hpath2, Hfiles2 in Hnone. congruence.
  - rewrite Hpath2, Hfiles2 in Hstored. congruence.
Qed.

(** X22: a table whose date column begins with a string in one of the
    two formats and holds a string in the other is not cached:
    [save_historical_data] returns without a word and writes nothing,
    and a partition file that holds such a column is a miss for every
    request. *)
Theorem mixed_formats_never_cached df symbol period data_type w :
  mixed_formats df.*1 →
  let path := _get_file_path symbol period data_type w in
  save_historical_data df symbol period data_type w
  = (Return tt, (save_historical_data df symbol period data_type w).2) ∧
  files (save_historical_data df symbol period data_type w).2 = files w ∧
  (files w !! path = Some (Parquet df) →
   ∀ start_date end_date,
     (get_historical_data symbol period start_date end_date data_type w).1 = Return None).
Proof.
  intros Hmixed path. destruct (normalize_dates_mixed df Hmixed) as [e Hnorm].
  split; [|split].
  - pose proof (save_historical_data_returns df symbol period data_type w) as Hret.
    destruct (save_historical_data df symbol period data_type w) as [o w']. cbn in *.
    by rewrite Hret.
  - pose proof (save_historical_data_files df symbol period data_type w) as Hfiles.
    cbv zeta in Hfiles. destruct Hfiles as [Hsame | (new_df & Hnew & _)]; [done|congruence].
  - intros Hfile start_date end_date. subst path.
    unfold get_historical_data, file_exists, read_parquet. run.
    rewrite Hfile. cbn. rewrite Hfile. destruct (empty df); [done|].
    by rewrite Hnorm.
Qed.

End Coverage.

(** * Further properties of the commands *)

(** ** Calendar arithmetic *)

Lemma month_day_all leapyear n :
  0 ≤ n < 365 → month_day_ok leapyear n = true.
Proof.
  intros Hn.
  assert (forallb (λ k, month_day_ok leapyear (Z.of_nat k)) (seq 0 365) = true) as Hall.
  { destruct leapyear; vm_compute; reflexivity. }
  rewrite forallb_forall in Hall.
  specialize (Hall (Z.to_nat n)). rewrite Z2Nat.id in Hall by lia.
  apply Hall. apply in_seq. lia.
Qed.

Lemma ord2ymd_unfold n :
  _ord2ymd n =
  let n0 := n - 1 in
  let n400 := n0 / 146097 in
  let r1 := n0 mod 146097 in
  let n100 := r1 / 36524 in
  let r2 := r1 mod 36524 in
  let n4 := r2 / 1461 in
  let r3 := r2 mod 1461 in
  let n1 := r3 / 365 in
  let r4 := r3 mod 365 in
  let y := n400 * 400 + 1 + n100 * 100 + n4 * 4 + n1 in
  if (n1 =? 4) || (n100 =? 4) then Date (y - 1) 12 31
  else
    let leapyear := (n1 =? 3) && (negb (n4 =? 24) || (n100 =? 3)) in
    let '(m, d) := month_day leapyear r4 in Date y m d.
Proof.
  unfold _ord2ymd, month_day, _DI400Y, _DI100Y, _DI4Y. cbv zeta.
  repeat case_match; simplify_eq; try done.
Qed.

Lemma days_before_year_cycle n400 n100 n4 n1 :
  0 ≤ n100 ≤ 3 → 0 ≤ n4 ≤ 24 → 0 ≤ n1 ≤ 3 →
  _days_before_year (n400 * 400 + 1 + n100 * 100 + n4 * 4 + n1)
  = 146097 * n400 + 36524 * n100 + 1461 * n4 + 365 * n1.
Proof.
  intros. unfold _days_before_year. cbv zeta.
  Z.div_mod_to_equations. lia.
Qed.

Lemma is_leap_cycle n400 n100 n4 n1 :
  0 ≤ n100 ≤ 3 → 0 ≤ n4 ≤ 24 → 0 ≤ n1 ≤ 3 →
  _is_leap (n400 * 400 + 1 + n100 * 100 + n4 * 4 + n1)
  = (n1 =? 3) && (negb (n4 =? 24) || (n100 =? 3)).
Proof.
  intros. unfold _is_leap.
  repeat match goal with |- context [?a =? ?b] => destruct (Z.eqb_spec a b) end;
    cbn; try reflexivity; exfalso; Z.div_mod_to_equations; lia.
Qed.

(** [date.fromordinal(n).toordinal() == n] *)
Lemma ymd2ord_ord2ymd n : _ymd2ord (_ord2ymd n) = n.
Proof.
  rewrite ord2ymd_unfold. cbv zeta.
  set (n0 := n - 1).
  set (n400 := n0 / 146097). set (r1 := n0 mod 146097).
  set (n100 := r1 / 36524). set (r2 := r1 mod 36524).
  set (n4 := r2 / 1461). set (r3 := r2 mod 1461).
  set (n1 := r3 / 365). set (r4 := r3 mod 365).
  assert (0 ≤ r1 < 146097) as Hr1 by (apply Z.mod_pos_bound; lia).
  assert (0 ≤ r2 < 36524) as Hr2 by (apply Z.mod_pos_bound; lia).
  assert (0 ≤ r3 < 1461) as Hr3 by (apply Z.mod_pos_bound; lia).
  assert (0 ≤ r4 < 365) as Hr4 by (apply Z.mod_pos_bound; lia).
  assert (n0 = 146097 * n400 + r1) as E1 by (apply Z.div_mod; lia).
  assert (r1 = 36524 * n100 + r2) as E2 by (apply Z.div_mod; lia).
  assert (r2 = 1461 * n4 + r3) as E3 by (apply Z.div_mod; lia).
  assert (r3 = 365 * n1 + r4) as E4 by (apply Z.div_mod; lia).
  clearbody n400 r1 n100 r2 n4 r3 n1 r4.
  assert (0 ≤ n100 ≤ 4) as H100 by lia.
  assert (0 ≤ n4 ≤ 24) as H4 by lia.
  assert (0 ≤ n1 ≤ 4) as H1 by lia.
  assert (n100 = 4 → n4 = 0 ∧ n1 = 0 ∧ r4 = 0) as Hc by lia.
  assert (n1 = 4 → r4 = 0 ∧ n4 ≠ 24) as Hy by lia.
  assert (n0 = 146097 * n400 + 36524 * n100 + 1461 * n4 + 365 * n1 + r4) as Hn0 by lia.
  clear E1 E2 E3 E4 Hr1 Hr2 Hr3.
  destruct (Z.eqb_spec n1 4) as [->|Hn1]; cbn [orb].
  { unfold _ymd2ord. cbn [year month day].
    replace (n400 * 400 + 1 + n100 * 100 + n4 * 4 + 4 - 1)
      with (n400 * 400 + 1 + n100 * 100 + n4 * 4 + 3) by lia.
    assert (n100 ≠ 4) by lia.
    rewrite days_before_year_cycle by lia.
    unfold _days_before_month. rewrite is_leap_cycle by lia.
    change (nth (Z.to_nat 12) _DAYS_BEFORE_MONTH 0) with 334.
    subst n0. destruct (Z.eqb_spec n4 24), (Z.eqb_spec n100 3); cbn; lia. }
  destruct (Z.eqb_spec n100 4) as [->|Hn100].
  { destruct Hc as (-> & -> & ->); [done|].
    unfold _ymd2ord. cbn [year month day].
    replace (n400 * 400 + 1 + 4 * 100 + 0 * 4 + 0 - 1)
      with ((n400 + 1) * 400 + 1 + 0 * 100 + 0 * 4 + 0 - 1) by lia.
    replace (_days_before_year ((n400 + 1) * 400 + 1 + 0 * 100 + 0 * 4 + 0 - 1))
      with (_days_before_year (n400 * 400 + 1 + 3 * 100 + 24 * 4 + 3)) by (f_equal; lia).
    rewrite days_before_year_cycle by lia.
    unfold _days_before_month.
    replace ((n400 + 1) * 400 + 1 + 0 * 100 + 0 * 4 + 0 - 1) with ((n400 + 1) * 400) by lia.
    assert (_is_leap ((n400 + 1) * 400) = true) as ->.
    { unfold _is_leap. rewrite !andb_true_iff, orb_true_iff, !Z.eqb_eq.
      split; [|right]; Z.div_mod_to_equations; lia. }
    change (nth (Z.to_nat 12) _DAYS_BEFORE_MONTH 0) with 334.
    subst n0. cbn. lia. }
  cbn [orb]. subst n0.
  destruct (month_day _ r4) as [m d] eqn:Hmd.
  pose proof (month_day_all ((n1 =? 3) && (negb (n4 =? 24) || (n100 =? 3))) r4 Hr4) as Hok.
  unfold month_day_ok in Hok. rewrite Hmd in Hok. apply Z.eqb_eq in Hok.
  unfold _ymd2ord. cbn [year month day].
  rewrite days_before_year_cycle by lia.
  unfold _days_before_month. rewrite is_leap_cycle by lia. lia.
Qed.

(** [(d - (d - timedelta(days))).days == days] for a day [d] that
    [date.fromordinal] gives. *)
Lemma window_length n days :
  days_between (_ord2ymd n) (_ord2ymd (_ymd2ord (_ord2ymd n) - days)) = days.
Proof. unfold days_between. rewrite !ymd2ord_ord2ymd. lia. Qed.

(** ** analyze_stock and analyze_index *)

Section Reports.

Context {V Q R : Type}.
Variable technical_report : table V → string → string → string → Z → R.
Variable index_report : table V → string → string → string → Z → outcome R.
Implicit Types (w : world (V:=V) (Q:=Q)) (df : table V).

Ltac run :=
  unfold mbind, M_bind, mret, M_ret, bind, ret, raise, try_except, lift, get, modify in *;
  cbn in *.

Lemma valid_symbol_passes symbol :
  ¬ invalid_symbol symbol →
  falsy symbol || negb (isdigit symbol) || negb (bool_decide (String.length symbol = 6%nat))
  = false.
Proof.
  intros Hok. unfold invalid_symbol in Hok.
  apply orb_false_iff. split; [apply orb_false_iff; split|].
  - apply bool_decide_eq_false. tauto.
  - apply negb_false_iff. unfold isdigit. apply andb_true_iff. split.
    + destruct symbol; [tauto|done].
    + apply forallb_forall. intros c Hin%list_elem_of_In.
      destruct (char_isdigit c) eqn:Hc; [done|]. destruct Hok. right. left. eauto.
  - apply negb_false_iff, bool_decide_eq_true.
    destruct (decide (String.length symbol = 6%nat)); [done|tauto].
Qed.

(** X15: for a well-formed symbol, [analyze_stock] asks for the window
    that ends today and starts [max(30, min(days, 3650))] days earlier.
    When the fetch raises, the answer is the error dictionary that carries
    the text of the exception; when it returns fewer than 30 rows, the
    answer is the error dictionary that tells how many rows there are.
    In both cases nothing is done after the fetch. *)
Theorem analyze_stock_window_and_errors symbol period days w :
  ¬ invalid_symbol symbol →
  let now := today w in
  let start := _ord2ymd (_ymd2ord now - clamp_days days) in
  let fetched :=
    get_stock_history_cached symbol period (CompactStr start) (CompactStr now) "qfq" w in
  let answer := analyze_stock technical_report symbol period days w in
  days_between now start = clamp_days days ∧
  30 ≤ clamp_days days ≤ 3650 ∧
  (∀ e, fetched.1 = Raised e →
     answer = (Return (Error ("获取 " +:+ symbol +:+ " 数据失败: " +:+ str e)), fetched.2)) ∧
  (∀ df, fetched.1 = Return df → (length df < 30)%nat →
     answer = (Return (Error (symbol +:+ " 数据不足: 仅有 " +:+ pretty (length df) +:+
                              " 条记录，至少需要 " +:+ pretty 30%nat +:+ " 条")),
               fetched.2)).
Proof.
  intros Hok now start fetched answer.
  split; [apply window_length|]. split; [unfold clamp_days; lia|].
  subst answer. unfold analyze_stock. rewrite (valid_symbol_passes _ Hok).
  fold (clamp_days days). run. fold now. fold start. fold fetched.
  split.
  - intros e He. destruct fetched as [o w1]. cbn in He. by subst o.
  - intros df Hdf Hlen.
    pose proof (get_stock_history_cached_nonempty symbol period (CompactStr start) (CompactStr now)
                  "qfq" w df Hdf) as Hne.
    destruct fetched as [o w1]. cbn in Hdf. subst o. cbn.
    rewrite (empty_false _ Hne). by destruct (decide _).
Qed.

(** X16: [analyze_index] checks nothing about the symbol and asks for
    the window of the 365 days up to today.  When the fetch raises, the
    answer is the error dictionary that carries the text of the
    exception; when it returns a table, the indicator code runs on it
    and an exception raised there is not caught. *)
Theorem analyze_index_window_and_errors symbol period w :
  let now := today w in
  let start := _ord2ymd (_ymd2ord now - 365) in
  let fetched :=
    get_index_history_cached symbol period (CompactStr start) (CompactStr now) w in
  let answer := analyze_index index_report symbol period w in
  days_between now start = 365 ∧
  (∀ e, fetched.1 = Raised e →
     answer = (Return (Error ("获取指数 " +:+ symbol +:+ " 数据失败: " +:+ str e)), fetched.2)) ∧
  (∀ df, fetched.1 = Return df →
     answer = (match index_report df (index_name symbol) symbol period (clock fetched.2) with
               | Return report => Return (Analysis report)
               | Raised e => Raised e
               end, fetched.2)).
Proof.
  intros now start fetched answer.
  split; [apply window_length|].
  subst answer. unfold analyze_index. run. fold now. fold start. fold fetched.
  split.
  - intros e He. destruct fetched as [o w1]. cbn in He. by subst o.
  - intros df Hdf.
    pose proof (get_index_history_cached_nonempty symbol period (CompactStr start)
                  (CompactStr now) w df Hdf) as Hne.
    destruct fetched as [o w1]. cbn in Hdf. subst o. cbn.
    rewrite (empty_false _ Hne). by destruct (index_report _ _ _ _ _).
Qed.

End Reports.

(** ** normalize_symbol *)

Ltac pick H :=
  repeat (apply elem_of_cons in H as [->|H]); [..|by apply elem_of_nil in H].

Lemma chars_app (a b : string) : chars (a +:+ b) = chars a ++ chars b.
Proof. unfold chars. induction a as [|c a IH]; [done|]. cbn. by rewrite <-IH. Qed.

Lemma text_chars (s : string) : text (chars s) = s.
Proof. apply String.string_of_list_ascii_of_string. Qed.

Lemma lower_char_digit c : ascii_digit c = true → lower_char c = c.
Proof.
  destruct c as [[] [] [] [] [] [] [] []]; vm_compute; done.
Qed.

Lemma lower_digits (code : list Ascii.ascii) :
  Forall (λ c, ascii_digit c = true) code → lower code = code.
Proof.
  induction 1 as [|c code Hc _ IH]; [done|].
  unfold lower in *. cbn. by rewrite lower_char_digit, IH.
Qed.

(** A run of digits does not start with a market prefix and does not end
    with a market suffix. *)
Lemma digits_no_prefix (code rest prefix : list Ascii.ascii) :
  Forall (λ c, ascii_digit c = true) code →
  prefix ∈ [chars "sh"; chars "sz"; chars "bj"] →
  rest ∈ [chars ""; chars ".sh"; chars ".sz"; chars ".bj"] →
  startswith (code ++ rest) prefix = false.
Proof.
  intros Hcode Hp Hr. unfold startswith. apply bool_decide_eq_false. intros Heq.
  destruct code as [|c code].
  - pick Hp; pick Hr; done.
  - apply Forall_cons in Hcode as [Hc _].
    pick Hp; cbn in Heq; injection Heq as -> _; done.
Qed.

Lemma digits_no_suffix (code suffix : list Ascii.ascii) :
  Forall (λ c, ascii_digit c = true) code →
  suffix ∈ [chars ".sh"; chars ".sz"; chars ".bj"] →
  endswith code suffix = false.
Proof.
  intros Hcode Hs. unfold endswith. apply andb_false_iff. right.
  apply bool_decide_eq_false. intros Heq.
  assert (Forall (λ c, ascii_digit c = true) suffix) as Hall.
  { rewrite <-Heq. by apply Forall_drop. }
  pick Hs; apply Forall_cons in Hall as [Hc _]; done.
Qed.

Lemma endswith_app (code suffix : list Ascii.ascii) :
  endswith (code ++ suffix) suffix = true.
Proof.
  unfold endswith. apply andb_true_iff. split; apply bool_decide_eq_true.
  - rewrite length_app. lia.
  - rewrite length_app.
    replace (length code + length suffix - length suffix)%nat with (length code) by lia.
    by rewrite drop_app_length.
Qed.

Lemma strip_suffix_digits (code rest : list Ascii.ascii) :
  Forall (λ c, ascii_digit c = true) code →
  rest ∈ [chars ""; chars ".sh"; chars ".sz"; chars ".bj"] →
  strip_suffix [".sh"; ".sz"; ".bj"] (code ++ rest) = code.
Proof.
  intros Hcode Hr.
  assert (∀ s1 s2 : list Ascii.ascii, length s1 = length s2 → s1 ≠ s2 →
            endswith (code ++ s1) s2 = false) as Hother.
  { intros s1 s2 Hlen Hne. unfold endswith. apply andb_false_iff. right.
    apply bool_decide_eq_false. rewrite length_app, Hlen.
    replace (length code + length s2 - length s2)%nat with (length code) by lia.
    by rewrite drop_app_length. }
  assert (∀ s : list Ascii.ascii,
            take (length (code ++ s) - length s) (code ++ s) = code) as Htake.
  { intros s. rewrite length_app.
    replace (length code + length s - length s)%nat with (length code) by lia.
    by rewrite take_app_length. }
  pick Hr; cbn [strip_suffix].
  - change (chars "") with (@nil Ascii.ascii). rewrite app_nil_r.
    rewrite !digits_no_suffix; try done.
    all: rewrite !elem_of_cons; auto.
  - by rewrite endswith_app, Htake.
  - rewrite (Hother (chars ".sz") (chars ".sh")) by done.
    by rewrite endswith_app, Htake.
  - rewrite (Hother (chars ".bj") (chars ".sh")) by done.
    rewrite (Hother (chars ".bj") (chars ".sz")) by done.
    by rewrite endswith_app, Htake.
Qed.

Lemma strip_prefix_digits (prefix code rest : list Ascii.ascii) :
  Forall (λ c, ascii_digit c = true) code →
  prefix ∈ [chars ""; chars "sh"; chars "sz"; chars "bj"] →
  rest ∈ [chars ""; chars ".sh"; chars ".sz"; chars ".bj"] →
  strip_prefix ["sh"; "sz"; "bj"] (prefix ++ code ++ rest) = code ++ rest.
Proof.
  intros Hcode Hp Hr.
  pick Hp; cbn [strip_prefix]; try done.
  change (chars "" ++ code ++ rest) with (code ++ rest).
  rewrite !digits_no_prefix; try done.
  all: rewrite !elem_of_cons; auto.
Qed.

(** X17: a code of ASCII digits that comes with a market prefix [sh],
    [sz] or [bj] and a market suffix [.sh], [.sz] or [.bj], each of them
    optional and in any mix of upper and lower case, is normalized to
    the bare code. *)
Theorem normalize_symbol_strips_market (prefix code suffix : string) :
  all_digits code →
  lower (chars prefix) ∈ [chars ""; chars "sh"; chars "sz"; chars "bj"] →
  lower (chars suffix) ∈ [chars ""; chars ".sh"; chars ".sz"; chars ".bj"] →
  normalize_symbol (prefix +:+ code +:+ suffix) = code.
Proof.
  intros Hcode Hp Hs. unfold normalize_symbol.
  case_bool_decide as Hempty.
  - rewrite Hempty. destruct prefix; [|done]. destruct code; [done|done].
  - cbv zeta. rewrite !chars_app. unfold lower at 1. rewrite !fmap_app.
    fold (lower (chars prefix)). fold (lower (chars code)). fold (lower (chars suffix)).
    rewrite (lower_digits _ Hcode).
    rewrite strip_prefix_digits, strip_suffix_digits by done.
    apply text_chars.
Qed.

(** ** get_comprehensive_score *)

Section ScoreProperties.

Context {F : Type}.
Variable isna : F → bool.
Variable gt lt : F → F → bool.
Variable num : Z → F.
Implicit Types (latest prev : indicators (F:=F)) (acc : Z * list string).

Ltac block := 
  intros; unfold moves; destruct_and?; repeat case_match; simplify_eq; cbn;
  rewrite ?length_app; cbn; lia.

Lemma rsi_signal_moves latest acc :
  moves (-2) 2 0 1 acc (rsi_signal isna gt lt num latest acc).
Proof. unfold rsi_signal. block. Qed.

Lemma macd_signal_moves latest prev acc :
  moves (-2) 2 1 1 acc (macd_signal isna gt lt latest prev acc).
Proof. unfold macd_signal. block. Qed.

Lemma bollinger_signal_moves latest acc :
  moves (-2) 2 1 1 acc (bollinger_signal isna gt lt latest acc).
Proof. unfold bollinger_signal, get_bb_signal. block. Qed.

Lemma ema_signal_moves latest acc :
  moves (-1) 2 0 1 acc (ema_signal isna gt lt latest acc).
Proof. unfold ema_signal. block. Qed.

Lemma stochastic_signal_moves latest acc :
  moves (-1) 1 0 1 acc (stochastic_signal isna gt lt num latest acc).
Proof. unfold stochastic_signal. block. Qed.

(** X18: whatever the indicators of the two rows are, and however the
    comparisons of floats answer (also on NaN), the score lies between
    -8 and 9, between 2 and 5 signals are given, and the overall rating
    is the one of the score; when RSI, MACD, the upper band, EMA50 and
    the stochastic are all missing, the score is 0. *)
Theorem comprehensive_score_bounded latest prev :
  ∃ score signals,
    get_comprehensive_score isna gt lt num latest prev = (score, signals, overall_of score) ∧
    -8 ≤ score ≤ 9 ∧
    (2 ≤ length signals ≤ 5)%nat ∧
    (isna (RSI latest) = true → isna (MACD latest) = true →
     isna (BB_upper latest) = true → isna (EMA50 latest) = true →
     isna (Stoch_K latest) = true → score = 0).
Proof.
  unfold get_comprehensive_score. cbv zeta.
  pose proof (rsi_signal_moves latest (0, [])) as H1.
  set (acc1 := rsi_signal isna gt lt num latest (0, [])) in *.
  pose proof (macd_signal_moves latest prev acc1) as H2.
  set (acc2 := macd_signal isna gt lt latest prev acc1) in *.
  pose proof (bollinger_signal_moves latest acc2) as H3.
  set (acc3 := bollinger_signal isna gt lt latest acc2) in *.
  pose proof (ema_signal_moves latest acc3) as H4.
  set (acc4 := ema_signal isna gt lt latest acc3) in *.
  pose proof (stochastic_signal_moves latest acc4) as H5.
  set (acc5 := stochastic_signal isna gt lt num latest acc4) in *.
  assert (∃ score signals, acc5 = (score, signals)) as (score & signals & Hacc)
    by (destruct acc5; eauto).
  exists score, signals. rewrite Hacc.
  split; [done|].
  unfold moves in *. rewrite Hacc in H5. cbn in *.
  split; [lia|]. split; [lia|].
  intros Hrsi Hmacd Hbb Hema Hstoch.
  subst acc1 acc2 acc3 acc4 acc5.
  unfold rsi_signal, macd_signal, bollinger_signal, get_bb_signal, ema_signal,
    stochastic_signal in Hacc.
  rewrite Hrsi, Hmacd, Hbb, Hema, Hstoch in Hacc. cbn in Hacc.
  destruct (EMA200 latest); cbn in Hacc; by simplify_eq.
Qed.

End ScoreProperties.

(** ** Clearing the caches *)

Lemma fnmatch_star_unfold (pattern name : list Ascii.ascii) :
  fnmatch (star_char :: pattern) name
  = fnmatch pattern name
    || match name with
       | [] => false
       | _ :: name' => fnmatch (star_char :: pattern) name'
       end.
Proof.
  destruct name as [|c name]; cbn [fnmatch]; rewrite bool_decide_eq_true_2 by done.
  - done.
  - done.
Qed.

Lemma fnmatch_literal_unfold c (pattern name : list Ascii.ascii) :
  c ≠ star_char →
  fnmatch (c :: pattern) name
  = match name with
    | [] => false
    | c' :: name' =>
        (bool_decide (c = question_char) || bool_decide (c = c')) && fnmatch pattern name'
    end.
Proof. intros Hc. cbn [fnmatch]. by rewrite bool_decide_eq_false_2. Qed.







(** What a match tells about the name. *)
Lemma fnmatch_star_inv (pattern name : list Ascii.ascii) :
  fnmatch (star_char :: pattern) name = true →
  ∃ skipped rest, name = skipped ++ rest ∧ fnmatch pattern rest = true.
Proof.
  induction name as [|c name IH]; rewrite fnmatch_star_unfold.
  - rewrite orb_false_r. intros Hmatch. by exists [], [].
  - intros [Hmatch|Hmatch]%orb_true_iff.
    + by exists [], (c :: name).
    + destruct (IH Hmatch) as (skipped & rest & -> & Hrest).
      by exists (c :: skipped), rest.
Qed.

Lemma fnmatch_literal_inv (literal pattern name : list Ascii.ascii) :
  Forall (λ c, c ≠ star_char ∧ c ≠ question_char) literal →
  fnmatch (literal ++ pattern) name = true →
  ∃ rest, name = literal ++ rest ∧ fnmatch pattern rest = true.
Proof.
  intros Hliteral. revert name.
  induction Hliteral as [|c literal [Hstar Hquestion] _ IH]; intros name.
  - intros Hmatch. by exists name.
  - cbn [app]. rewrite fnmatch_literal_unfold by done.
    destruct name as [|c' name]; [done|].
    rewrite (bool_decide_eq_false_2 (c = question_char)) by done.
    intros [Hc Hmatch]%andb_true_iff. cbn in Hc. apply bool_decide_eq_true in Hc as <-.
    destruct (IH _ Hmatch) as (rest & -> & Hrest). by exists rest.
Qed.

(** A name is cut at its first underscore in one way only. *)
Lemma first_underscore (x x' y y' : list Ascii.ascii) :
  underscore_char ∉ x → underscore_char ∉ x' →
  x ++ underscore_char :: y = x' ++ underscore_char :: y' →
  x = x' ∧ y = y'.
Proof.
  revert x'. induction x as [|c x IH]; intros [|c' x'] Hx Hx' Heq; cbn in Heq.
  - by simplify_eq.
  - injection Heq as <- _. destruct Hx'. by left.
  - injection Heq as -> _. destruct Hx. by left.
  - injection Heq as <- Heq. apply not_elem_of_cons in Hx as [_ Hx].
    apply not_elem_of_cons in Hx' as [_ Hx'].
    destruct (IH x' Hx Hx' Heq) as [-> ->]. done.
Qed.

Lemma digit_literal c :
  ascii_digit c = true →
  c ≠ star_char ∧ c ≠ question_char ∧ c ≠ underscore_char.
Proof. intros Hc. repeat split; intros ->; done. Qed.

Lemma underscores_app (a b : list Ascii.ascii) :
  length (filter (λ c, c = underscore_char) (a ++ b))
  = (length (filter (λ c, c = underscore_char) a)
     + length (filter (λ c, c = underscore_char) b))%nat.
Proof. by rewrite filter_app, length_app. Qed.

Lemma underscores_none (a : list Ascii.ascii) :
  underscore_char ∉ a ↔ length (filter (λ c, c = underscore_char) a) = 0%nat.
Proof.
  induction a as [|c a IH]; [by split; [|intros _ ?%elem_of_nil]|].
  rewrite not_elem_of_cons, filter_cons.
  destruct (decide (c = underscore_char)) as [->|Hc]; cbn.
  - split; [intros [? _]; done|done].
  - rewrite IH. split; [by intros [_ ?]|]. intros Hlen. split; [by intros <-|done].
Qed.

(** A partition name that holds [_symbol_] for a run of digits [symbol]
    is a partition of that symbol. *)
Lemma partition_name_symbol (before after data_type symbol symbol' rest : list Ascii.ascii) :
  underscore_char ∉ symbol → underscore_char ∉ symbol' →
  underscore_char ∉ data_type → underscore_char ∉ rest →
  before ++ underscore_char :: symbol ++ underscore_char :: after
  = data_type ++ underscore_char :: symbol' ++ underscore_char :: rest →
  symbol = symbol'.
Proof.
  intros Hs Hs' Ht Hr Heq.
  assert (underscore_char ∉ before) as Hb.
  { apply (f_equal (λ l, length (filter (λ c, c = underscore_char) l))) in Heq.
    cbv beta in Heq.
    rewrite !underscores_app, !filter_cons_True in Heq by done.
    cbn [length] in Heq.
    rewrite !underscores_app, !filter_cons_True in Heq by done.
    cbn [length] in Heq.
    apply underscores_none in Hs, Hs', Ht, Hr. apply underscores_none. lia. }
  apply first_underscore in Heq as [_ Heq]; [|done..].
  by apply first_underscore in Heq as [-> _].
Qed.

Section Clearing.

Context {V Q : Type}.
Implicit Types (w : world (V:=V) (Q:=Q)).

Ltac run :=
  unfold mbind, M_bind, mret, M_ret, bind, ret, raise, try_except, lift, get, modify in *;
  cbn in *.






Lemma unlink_each_spares (paths : list string) count w path :
  path ∉ paths →
  files (unlink_each paths count w).2 !! path = files w !! path.
Proof.
  revert count w. induction paths as [|p paths IH]; intros count w Hout; [done|].
  apply not_elem_of_cons in Hout as [Hne Hout].
  cbn [unlink_each]. unfold unlink. run.
  destruct (decide (p ∈ readonly w)); [done|].
  rewrite IH by done. cbn. by rewrite lookup_delete_ne.
Qed.

Lemma all_digits_underscore_free symbol : all_digits symbol → underscore_free symbol.
Proof.
  unfold all_digits, underscore_free. rewrite Forall_forall.
  intros Hall Hin. by specialize (Hall _ Hin).
Qed.

(** X20: clearing the local cache of one symbol, a code of ASCII digits
    that is not empty, leaves the partitions of every other symbol as
    they were, whether or not every removal succeeds; the other symbol,
    the period and the data type hold no underscore. *)
Theorem clear_local_cache_spares_other_symbols target symbol period data_type w :
  target ≠ "" →
  all_digits target →
  underscore_free symbol →
  underscore_free period →
  underscore_free data_type →
  symbol ≠ target →
  files (clear_local_cache (Some target) w).2 !! _get_file_path symbol period data_type w
  = files w !! _get_file_path symbol period data_type w.
Proof.
  intros Hne Hdigits Hsymbol Hperiod Htype Hother.
  unfold clear_local_cache, glob. rewrite (bool_decide_eq_false_2 _ Hne). run.
  apply unlink_each_spares. rewrite list_elem_of_filter. intros [Hglob _].
  unfold globbed, entry_name, _get_file_path in Hglob. cbv zeta in Hglob.
  rewrite !chars_app in Hglob.
  rewrite (assoc_L (++) (chars (_cache_dir (cache w)))) in Hglob.
  rewrite take_app_length, bool_decide_eq_true_2, drop_app_length in Hglob by done.
  case_bool_decide; [done|].
  change (chars "*_") with (star_char :: chars "_") in Hglob.
  cbn [app] in Hglob.
  apply fnmatch_star_inv in Hglob as (skipped & rest & Hname & Hmatch).
  change (chars "_" ++ chars target ++ chars "_*.parquet")
    with (underscore_char :: chars target ++ underscore_char :: chars "*.parquet")
    in Hmatch.
  rewrite fnmatch_literal_unfold in Hmatch by done.
  destruct rest as [|c rest]; [done|].
  apply andb_true_iff in Hmatch as [Hc Hmatch]. cbn in Hc.
  apply bool_decide_eq_true in Hc as <-.
  apply fnmatch_literal_inv in Hmatch as (rest' & -> & Hmatch).
  2:{ eapply Forall_impl; [apply Hdigits|]. intros c Hc. cbn in Hc.
      by destruct (digit_literal c Hc) as (? & ? & ?). }
  rewrite fnmatch_literal_unfold in Hmatch by done.
  destruct rest' as [|c rest']; [done|].
  apply andb_true_iff in Hmatch as [Hc _]. cbn in Hc.
  apply bool_decide_eq_true in Hc as <-.
  destruct Hother.
  assert (chars symbol = chars target) as Heq.
  { symmetry. eapply (partition_name_symbol skipped rest' (chars data_type)
                        (chars target) (chars symbol) (chars period ++ chars ".parquet"));
      [by apply all_digits_underscore_free|done|done| |].
    - rewrite not_elem_of_app. split; [done|compute_done].
    - symmetry. exact Hname. }
  apply (f_equal text) in Heq. unfold text, chars in Heq.
  by rewrite !String.string_of_list_ascii_of_string in Heq.
Qed.

Lemma unlink_each_cache (paths : list string) count w :
  cache (unlink_each paths count w).2 = cache w.
Proof.
  revert count w. induction paths as [|p paths IH]; intros count w; [done|].
  cbn [unlink_each]. unfold unlink. run.
  destruct (decide (p ∈ readonly w)); [done|]. by rewrite IH.
Qed.

Lemma clear_local_cache_cache target w :
  cache (clear_local_cache target w).2 = cache w.
Proof. unfold clear_local_cache, glob. run. apply unlink_each_cache. Qed.

(** X21: [clear_cache_cmd] empties the memory cache for the types
    [memory] and [all] only (also when a file cannot be removed
    afterwards), touches the files for the types [local] and [all] only,
    and for any other type changes nothing and returns the type and the
    time only. *)
Theorem clear_cache_cmd_scope cache_type symbol w :
  let cmd := clear_cache_cmd cache_type symbol w in
  (cache_type ∈ ["memory"; "all"] →
   ∀ key ttl, get_memory key ttl cmd.2 = (Return None, cmd.2)) ∧
  (cache_type ∉ ["memory"; "all"] → cache cmd.2 = cache w) ∧
  (cache_type ∉ ["local"; "all"] →
   files cmd.2 = files w ∧
   ∃ result, cmd.1 = Return result ∧ local_files_deleted_key result = None) ∧
  (cache_type ∉ ["memory"; "local"; "all"] →
   cmd.2 = w ∧
   cmd.1 = Return {| cache_type_key := cache_type; timestamp_key := clock w;
                     memory_cleared_key := None; local_files_deleted_key := None;
                     symbol_key := None |}).
Proof.
  intros cmd. subst cmd. unfold clear_cache_cmd, clear_memory_cache. run.
  split; [|split; [|split]].
  - intros Hmem. rewrite (bool_decide_eq_true_2 _ Hmem). cbn.
    intros key ttl. apply get_memory_absent.
    case_bool_decide.
    + pose proof (clear_local_cache_cache symbol (with_memory_cache ∅ w)) as Hcache.
      destruct (clear_local_cache symbol (with_memory_cache ∅ w)) as [[count|e] w1];
        cbn in *; by rewrite Hcache.
    + done.
  - intros Hmem. rewrite (bool_decide_eq_false_2 _ Hmem). cbn.
    case_bool_decide; [|done].
    pose proof (clear_local_cache_cache symbol w) as Hcache.
    destruct (clear_local_cache symbol w) as [[count|e] w1]; done.
  - intros Hlocal. rewrite (bool_decide_eq_false_2 (cache_type ∈ ["local"; "all"]) Hlocal).
    case_bool_decide; cbn; eauto.
  - intros Hnone. rewrite !not_elem_of_cons in Hnone.
    destruct Hnone as (Hmemory & Hlocal & Hall & _).
    rewrite (bool_decide_eq_false_2 (cache_type ∈ ["memory"; "all"])).
    2:{ rewrite !not_elem_of_cons. repeat split; try done. apply not_elem_of_nil. }
    rewrite (bool_decide_eq_false_2 (cache_type ∈ ["local"; "all"])); [done|].
    rewrite !not_elem_of_cons. repeat split; try done. apply not_elem_of_nil.
Qed.

End Clearing.

(** * The properties on the sample worlds *)

Ltac each_of H :=
  repeat (apply elem_of_cons in H as [H|H]); [..|by apply elem_of_nil in H].

Ltac is_request_date := split; [reflexivity|vm_compute; discriminate].

Lemma save_merges_by_date_witness :
  ∃ merged,
    files (save_historical_data two_days "600519" "daily" "stock"
             (started {[maotai_daily := Parquet (iso three_days)]} ∅ providers_down)).2
      !! maotai_daily = Some (Parquet (iso merged)) ∧
    merged ≡ₚ [(jan 2, "d1"); (jan 3, "d2"); (jan 4, "d3'"); (jan 5, "d4")] ∧
    StronglySorted row_lt merged.
Proof.
  apply (save_merges_by_date "600519" "daily" "stock"
           (started {[maotai_daily := Parquet (iso three_days)]} ∅ providers_down)
           (jan 2) (jan 3) (jan 4) (jan 5) "d1" "d2" "d3" "d3'" "d4"
           (iso three_days) three_days two_days [(jan 4, "d3'"); (jan 5, "d4")]).
  - compute_done.
  - vm_compute. reflexivity.
  - reflexivity.
  - reflexivity.
  - reflexivity.
  - reflexivity.
  - compute_done.
Defined.

Example merged_partition :
  files (save_historical_data two_days "600519" "daily" "stock"
           (started {[maotai_daily := Parquet (iso three_days)]} ∅ providers_down)).2
    !! maotai_daily
  = Some (Parquet [(IsoStr (jan 2), "d1"); (IsoStr (jan 3), "d2");
                   (IsoStr (jan 4), "d3'"); (IsoStr (jan 5), "d4")]).
Proof. vm_compute. reflexivity. Qed.



(** An entry read with a TTL of 30 seconds, with no TTL and with a TTL
    of 0: at the bound it is served, a microsecond later it is gone. *)
Lemma memory_entry_expires_after_ttl_witness :
  let w := started ∅ ∅ providers_down in
  let after usec := with_clock (clock w + usec) (set_memory "realtime_quotes" ["q"] w).2 in
  get_memory "realtime_quotes" (Some 30) (after 30000000)
    = (Return (Some ["q"]), after 30000000) ∧
  (get_memory "realtime_quotes" (Some 30) (after 30000001)).1 = Return None ∧
  _memory_cache (cache (get_memory "realtime_quotes" (Some 30) (after 30000001)).2)
    !! "realtime_quotes" = None ∧
  get_memory "realtime_quotes" None (after 60000000)
    = (Return (Some ["q"]), after 60000000) ∧
  get_memory "realtime_quotes" (Some 0) (after 60000000)
    = (Return (Some ["q"]), after 60000000) ∧
  (get_memory "realtime_quotes" None (after 60000001)).1 = Return None ∧
  (get_memory "realtime_quotes" (Some 0) (after 60000001)).1 = Return None.
Proof.
  intros w after.
  refine (conj _ (conj _ (conj _ (conj _ (conj _ (conj _ _)))))).
  - apply (memory_entry_expires_after_ttl "realtime_quotes" ["q"] (Some 30) 30 w (after 30000000));
      [left; split; [reflexivity|discriminate]|reflexivity|vm_compute; discriminate].
  - destruct (memory_entry_expires_after_ttl "realtime_quotes" ["q"] (Some 30) 30 w
                (after 30000001)) as (_ & Hstale & _); [left; split; [reflexivity|discriminate]|reflexivity|].
    destruct Hstale as [-> _]; [vm_compute; reflexivity|reflexivity].
  - destruct (memory_entry_expires_after_ttl "realtime_quotes" ["q"] (Some 30) 30 w
                (after 30000001)) as (_ & Hstale & _); [left; split; [reflexivity|discriminate]|reflexivity|].
    apply Hstale. vm_compute. reflexivity.
  - apply (memory_entry_expires_after_ttl "realtime_quotes" ["q"] None 60 w (after 60000000));
      [right; split; [by right|split; reflexivity]|reflexivity|vm_compute; discriminate].
  - apply (memory_entry_expires_after_ttl "realtime_quotes" ["q"] (Some 0) 60 w (after 60000000));
      [right; split; [by left|split; reflexivity]|reflexivity|vm_compute; discriminate].
  - destruct (memory_entry_expires_after_ttl "realtime_quotes" ["q"] None 60 w
                (after 60000001)) as (_ & Hstale & _); [right; split; [by right|split; reflexivity]|reflexivity|].
    destruct Hstale as [-> _]; [vm_compute; reflexivity|reflexivity].
  - destruct (memory_entry_expires_after_ttl "realtime_quotes" ["q"] (Some 0) 60 w
                (after 60000001)) as (_ & Hstale & _); [right; split; [by left|split; reflexivity]|reflexivity|].
    destruct Hstale as [-> _]; [vm_compute; reflexivity|reflexivity].
Defined.

(** With [ttl = 0] the entry is still served one second after it was set,
    although [T' - T > ttl]. *)
Lemma zero_ttl_counterexample :
  let w := started ∅ ∅ providers_down in
  let later := with_clock (clock w + 1000000) (set_memory "realtime_quotes" ["q"] w).2 in
  clock later - clock w > 0 * 1000000 ∧
  (get_memory "realtime_quotes" (Some 0) later).1 = Return (Some ["q"]) ∧
  (get_memory "realtime_quotes" (Some 0) later).1 ≠ Return None.
Proof.
  intros w later. split; [|split].
  - vm_compute. reflexivity.
  - vm_compute. reflexivity.
  - vm_compute. discriminate.
Qed.

Lemma get_memory_falsy_ttl_witness :
  let w := started ∅ ∅ providers_down in
  let later := with_clock (clock w + 59000000) (set_memory "realtime_quotes" ["q"] w).2 in
  get_memory "realtime_quotes" (Some 0) later = (Return (Some ["q"]), later) ∧
  get_memory "realtime_quotes" None later = (Return (Some ["q"]), later).
Proof.
  intros w later.
  apply (get_memory_falsy_ttl "realtime_quotes" ["q"] (clock w) later).
  - reflexivity.
  - vm_compute. reflexivity.
  - vm_compute. discriminate.
Defined.

Lemma analyze_stock_rejects_malformed_witness :
  let w := started ∅ ∅ (providers (Return (Some two_days)) None) in
  analyze_stock label_report "60051x" "daily" 365 w
  = (Return (Error "无效的股票代码格式: 60051x，必须是6位数字"), w).
Proof.
  intros w.
  apply (analyze_stock_rejects_malformed label_report "60051x" "daily" 365 w).
  right. left. eexists. split.
  - cbn. do 5 apply list_elem_of_further. apply list_elem_of_here.
  - reflexivity.
Defined.

(** Superscript two is no decimal digit, but [str.isdigit] counts it: a
    symbol of six characters that ends with it passes the validation, and
    [analyze_stock] goes on to the cache directory and to both providers
    of the history. *)
Lemma unicode_digit_counterexample :
  let symbol := "60051" +:+ String superscript_two "" in
  let w := started ∅ ∅ providers_down in
  let call := analyze_stock label_report symbol "daily" 365 w in
  String.length symbol = 6%nat ∧
  superscript_two ∈ chars symbol ∧
  ascii_digit superscript_two = false ∧
  call.1 = Return (Error ("获取 " +:+ symbol
                          +:+ " 数据失败: 所有数据源都不可用: Connection aborted")) ∧
  call.1 ≠ Return (Error ("无效的股票代码格式: " +:+ symbol +:+ "，必须是6位数字")) ∧
  trace call.2 =
    [UpstreamCall "tx"; Slept 1000000; UpstreamCall "em";
     FileStat ("~/.akshare_cache/stock_" +:+ symbol +:+ "_daily.parquet")].
Proof.
  intros symbol w call. split; [reflexivity|]. split; [|split; [reflexivity|]].
  - cbn. do 5 apply list_elem_of_further. apply list_elem_of_here.
  - split; [vm_compute; reflexivity|]. split; [vm_compute; discriminate|].
    vm_compute. reflexivity.
Qed.

(** [em] answers with an empty table, [tx] with rows. *)
Lemma empty_result_leaves_failure_count_witness :
  let w := started ∅ ∅ (providers (Return (Some [])) (Some two_days)) in
  failure_count (data_source (invoked "em" w)) = failure_count (data_source w) ∧
  try_sources [("em", Return (Some [])); ("tx", Return (Some two_days))] None w
  = try_sources [("tx", Return (Some two_days))] None (invoked "em" w).
Proof.
  intros w.
  destruct (empty_result_leaves_failure_count "em" (Return (Some []))
              [("tx", Return (Some two_days))] None w) as (Hcount & Hnext & _).
  - reflexivity.
  - by right.
  - split; [exact Hcount|exact Hnext].
Defined.

(** [em] is called, returns an empty table without raising, and its
    failure count is the same after the attempt as before. *)
Lemma empty_result_not_counted_counterexample :
  let w := started ∅ ∅ (providers (Return (Some [])) (Some two_days)) in
  let attempt :=
    get_stock_history "600519" "daily" (CompactStr (jan 1)) (CompactStr (jan 5)) "qfq" w in
  stock_zh_a_hist (ak w) "600519" "daily" (CompactStr (jan 1)) (CompactStr (jan 5)) "qfq"
    = Return (Some []) ∧
  attempt.1 = Return two_days ∧
  upstream_calls (trace attempt.2) = ["tx"; "em"] ∧
  failures "em" w = 0%nat ∧
  failures "em" attempt.2 = 0%nat ∧
  failures "em" attempt.2 ≠ S (failures "em" w).
Proof.
  intros w attempt. repeat split; try (vm_compute; reflexivity).
  vm_compute. discriminate.
Qed.

(** [sina] has failed three times, [em] raises and [em_combined] has
    nothing: the attempt does not call [sina], fails with the error of
    [em] in its message, and clears the counts; the next attempt calls
    all three. *)
Lemma unhealthy_skipped_and_exhaustion_resets_witness :
  let w := with_failure_count {["sina" := 3%nat]} (started ∅ ∅ providers_down) in
  let attempt := data_source_get_realtime_quotes w in
  (∃ new, trace attempt.2 = new ++ trace w ∧ "sina" ∉ upstream_calls new) ∧
  attempt.1 = Raised (Exception "所有数据源都不可用: Connection aborted") ∧
  failure_count (data_source attempt.2) = ∅ ∧
  ∃ new,
    trace (data_source_get_realtime_quotes attempt.2).2 = new ++ trace attempt.2
    ∧ upstream_calls new = ["em_combined"; "sina"; "em"].
Proof.
  intros w attempt.
  destruct (unhealthy_skipped_and_exhaustion_resets (realtime_sources (ak w)) w)
    as (Hskip & Hraises & Hfail).
  - compute_done.
  - vm_compute. lia.
  - split; [apply (Hskip "sina"); vm_compute; lia|].
    destruct Hraises as [[e He] _].
    { intros source r Hin _. cbn in Hin. each_of Hin; by injection Hin as -> ->. }
    destruct (Hfail e He) as (Hclear & _ & Hmessage & _ & Hagain).
    split; [|split; [exact Hclear|]].
    + etrans; [exact He|]. f_equal.
      apply (Hmessage [] "em" "Connection aborted"
               [("sina", Return None); ("em_combined", Return None)]).
      * reflexivity.
      * vm_compute. lia.
      * intros later e' Hin. each_of Hin; discriminate.
    + apply (Hagain _ (realtime_sources (ak w))). compute_done.
Defined.

(** A store built by two saves, then a request served from it. *)
Lemma cache_hit_strictly_ascending_witness :
  let w0 := started ∅ ∅ providers_down in
  let w1 := (save_historical_data (iso three_days) "600519" "daily" "stock" w0).2 in
  let w2 := (save_historical_data two_days "600519" "daily" "stock" w1).2 in
  let cached := [(IsoStr (jan 3), "d2"); (IsoStr (jan 4), "d3'"); (IsoStr (jan 5), "d4")] in
  strictly_ascending cached ∧
  (get_stock_history_cached "600519" "daily" (CompactStr (jan 3)) (CompactStr (jan 6)) "qfq" w2).1
  = Return cached.
Proof.
  intros w0 w1 w2 cached.
  destruct (cache_hit_strictly_ascending "600519" "daily"
              (CompactStr (jan 3)) (CompactStr (jan 6)) "stock" w2 cached)
    as (Hsorted & Hstock & _).
  - apply kept_save; [apply kept_save; [by apply kept_empty|]|].
    + intros _ new_df [= <-]. compute_done.
    + intros Hnone. vm_compute in Hnone. discriminate.
  - vm_compute. reflexivity.
  - split; [exact Hsorted|]. by apply Hstock.
Defined.

(** On a miss the table of the source is returned as it came. *)
Lemma read_through_miss_counterexample :
  let w := started ∅ ∅ (providers (Return (Some descending)) None) in
  (get_stock_history_cached "600519" "daily" (CompactStr (jan 1)) (CompactStr (jan 5)) "qfq" w).1
    = Return descending ∧
  ¬ strictly_ascending descending.
Proof.
  intros w. split; [vm_compute; reflexivity|].
  intros (f & Hnorm & Hsorted). cbn in Hnorm. injection Hnorm as <-.
  apply StronglySorted_inv in Hsorted as [_ Hall].
  apply Forall_cons in Hall as [Hlt _].
  unfold row_lt, date_lt in Hlt. cbn in Hlt. lia.
Qed.

(** C5: on a partition that does not exist yet, rows that repeat a date
    are stored as they are by the first save and deduplicated by the
    second one: saving twice is not saving once. *)
Lemma save_twice_differs_on_repeated_date :
  let w := started ∅ ∅ providers_down in
  let once := (save_historical_data same_day_twice "600519" "daily" "stock" w).2 in
  let twice := (save_historical_data same_day_twice "600519" "daily" "stock" once).2 in
  files once !! maotai_daily
    = Some (Parquet [(IsoStr (jan 4), "morning"); (IsoStr (jan 4), "close")]) ∧
  files twice !! maotai_daily = Some (Parquet [(IsoStr (jan 4), "close")]) ∧
  files twice ≠ files once.
Proof.
  intros w once twice.
  assert (files once !! maotai_daily
          = Some (Parquet [(IsoStr (jan 4), "morning"); (IsoStr (jan 4), "close")])) as H1
    by (vm_compute; reflexivity).
  assert (files twice !! maotai_daily = Some (Parquet [(IsoStr (jan 4), "close")])) as H2
    by (vm_compute; reflexivity).
  split; [done|]. split; [done|].
  intros Heq. rewrite Heq, H1 in H2. discriminate.
Qed.

(** The cache file cannot be written: the fetch still returns the table
    of the source, and no file appears. *)
Lemma cache_write_is_best_effort_witness :
  let w := started ∅ {[maotai_daily]} (providers (Return (Some two_days)) None) in
  let request :=
    get_stock_history_cached "600519" "daily" (CompactStr (jan 1)) (CompactStr (jan 5)) "qfq" w in
  request.1 = Return two_days ∧ files request.2 = ∅.
Proof.
  intros w request. split; [|vm_compute; reflexivity].
  destruct (cache_write_is_best_effort "600519" "daily"
              (CompactStr (jan 1)) (CompactStr (jan 5)) "qfq" w) as (_ & _ & Hstock & _).
  eapply Hstock.
  - vm_compute. reflexivity.
  - reflexivity.
  - vm_compute. reflexivity.
Defined.

(** A well-formed symbol, by contrast, reaches the store and the
    providers. *)
Example analyze_stock_well_formed :
  let w := started ∅ ∅ (providers (Return (Some two_days)) None) in
  let run := analyze_stock label_report "600519" "daily" 365 w in
  run.1 = Return (Error "600519 数据不足: 仅有 2 条记录，至少需要 30 条") ∧
  trace run.2 = [FileWrite maotai_daily; FileStat maotai_daily;
                 UpstreamCall "em"; FileStat maotai_daily].
Proof. split; vm_compute; reflexivity. Qed.

(** ** The further properties *)

(** A call 0.3 seconds after the previous one waits for the rest of the
    second. *)
Lemma consecutive_calls_spaced_witness :
  let w := started ∅ ∅ providers_down in
  let first := invoked "em" w in
  let later := with_clock (clock first + 300000) first in
  request_interval (data_source w) ≤ clock (invoked "sina" later) - clock first.
Proof.
  intros w first later.
  apply (consecutive_calls_spaced "em" "sina" w later); reflexivity.
Defined.

(** [em] raises and [tx] answers: the rows of [tx] are returned, [tx]
    is at 0 failures and [em] at one more than before. *)
Lemma first_usable_source_wins_witness :
  let w := started ∅ ∅ (providers (Raised connection_aborted) (Some two_days)) in
  let attempt :=
    try_sources [("em", Raised connection_aborted); ("tx", Return (Some two_days))] None w in
  attempt.1 = Return two_days ∧
  failures "tx" attempt.2 = 0%nat ∧
  failures "em" attempt.2 = S (failures "em" w).
Proof.
  intros w attempt.
  destruct (first_usable_source_wins [("em", Raised connection_aborted)] [] "tx" two_days w)
    as (Hrows & Hwinner & Hraised & _).
  - compute_done.
  - discriminate.
  - reflexivity.
  - intros source r Hin _. apply list_elem_of_singleton in Hin. by injection Hin as -> ->.
  - split; [exact Hrows|]. split; [exact Hwinner|].
    apply (Hraised "em" connection_aborted); [apply list_elem_of_here|reflexivity].
Defined.

(** [em] has failed three times; [tx] answers, and [em] is still at
    three failures, hence still excluded. *)
Lemma unhealthy_source_stays_excluded_witness :
  let w := with_failure_count {["em" := 3%nat]}
             (started ∅ ∅ (providers (Return (Some two_days)) (Some two_days))) in
  let attempt :=
    get_stock_history "600519" "daily" (CompactStr (jan 1)) (CompactStr (jan 5)) "qfq" w in
  attempt.1 = Return two_days ∧
  failures "em" attempt.2 = failures "em" w ∧
  healthy_in attempt.2 "em" = false.
Proof.
  intros w attempt. split; [vm_compute; reflexivity|].
  destruct (unhealthy_source_stays_excluded
              (stock_history_sources (ak w) "600519" "daily"
                 (CompactStr (jan 1)) (CompactStr (jan 5)) "qfq") "em" w) as [Hkeep _].
  - vm_compute. lia.
  - apply (Hkeep two_days). vm_compute. reflexivity.
Defined.

(** Quotes fetched once are served again 30 seconds later. *)
Lemma realtime_quotes_served_from_memory_witness :
  let w := started ∅ ∅ providers_quoting in
  let first := get_realtime_quotes_cached w in
  let later := with_clock (clock first.2 + 30000000) first.2 in
  first.1 = Return ["q1"; "q2"] ∧
  get_realtime_quotes_cached later = (Return ["q1"; "q2"], later).
Proof.
  intros w first later. split; [vm_compute; reflexivity|].
  destruct (realtime_quotes_served_from_memory w ["q1"; "q2"] first.2)
    as (T & Hentry & _ & Hserved).
  - vm_compute. reflexivity.
  - apply Hserved; [reflexivity|].
    vm_compute in Hentry. injection Hentry as <-. vm_compute. discriminate.
Defined.

(** The quotes in memory are 31 seconds old and every provider is
    down. *)
Lemma realtime_refresh_failure_caches_nothing_witness :
  let w := with_clock 1700000031000000
             (set_memory "realtime_quotes" ["q"] (started ∅ ∅ providers_down)).2 in
  ∃ e, (get_realtime_quotes_cached w).1 = Raised e ∧
       _memory_cache (cache (get_realtime_quotes_cached w).2) !! quotes_key = None ∧
       failure_count (data_source (get_realtime_quotes_cached w).2) = ∅.
Proof.
  intros w. apply (realtime_refresh_failure_caches_nothing w).
  - intros quotes T Hentry. vm_compute in Hentry. injection Hentry as <- <-.
    vm_compute. reflexivity.
  - intros source r Hin _. cbn in Hin. each_of Hin; by injection Hin as -> ->.
Defined.

(** Rows of 4 and 5 January merged into a partition of 2, 3 and 4
    January. *)
Lemma merge_keeps_last_row_witness :
  let w := started {[maotai_daily := Parquet (iso three_days)]} ∅ providers_down in
  ∃ merged,
    files (save_historical_data two_days "600519" "daily" "stock" w).2
      !! _get_file_path "600519" "daily" "stock" w = Some (Parquet (iso merged)) ∧
    StronglySorted row_lt merged ∧
    ∀ d v, (d, v) ∈ merged ↔
           last_value d (three_days ++ [(jan 4, "d3'"); (jan 5, "d4")]) = Some v.
Proof.
  intros w.
  apply (merge_keeps_last_row two_days [(jan 4, "d3'"); (jan 5, "d4")]
           (iso three_days) three_days "600519" "daily" "stock" w).
  - discriminate.
  - reflexivity.
  - vm_compute. reflexivity.
  - reflexivity.
  - compute_done.
Defined.

(** Two rows of one day, saved where no partition exists: both are
    stored. *)
Lemma created_partition_sorted_witness :
  let w := started ∅ ∅ providers_down in
  ∃ written,
    files (save_historical_data same_day_twice "600519" "daily" "stock" w).2
      !! _get_file_path "600519" "daily" "stock" w = Some (Parquet (iso written)) ∧
    written ≡ₚ [(jan 4, "morning"); (jan 4, "close")] ∧
    StronglySorted row_le written ∧
    (NoDup [(jan 4, "morning"); (jan 4, "close")].*1 → StronglySorted row_lt written).
Proof.
  intros w.
  apply (created_partition_sorted same_day_twice [(jan 4, "morning"); (jan 4, "close")]
           "600519" "daily" "stock" w).
  - discriminate.
  - reflexivity.
  - vm_compute. reflexivity.
  - compute_done.
Defined.

(** The rows of 4 and 5 January are saved, then read back by a request
    for 3 to 6 January. *)
Lemma saved_rows_read_back_witness :
  let w := started {[maotai_daily := Parquet (iso three_days)]} ∅ providers_down in
  let saved := (save_historical_data two_days "600519" "daily" "stock" w).2 in
  ∃ cached,
    (get_historical_data "600519" "daily" (CompactStr (jan 3)) (CompactStr (jan 6))
       "stock" saved).1 = Return (Some cached) ∧
    strictly_ascending cached ∧
    ∀ d v, (d, v) ∈ [(jan 4, "d3'"); (jan 5, "d4")] → date_le (jan 3) d → date_le d (jan 6) →
           (IsoStr d, v) ∈ cached.
Proof.
  intros w saved.
  apply (saved_rows_read_back two_days [(jan 4, "d3'"); (jan 5, "d4")] three_days
           "600519" "daily" "stock" (jan 3) (jan 6) (jan 5) w).
  - reflexivity.
  - compute_done.
  - vm_compute. reflexivity.
  - compute_done.
  - split; [compute_done|]. intros d Hd. cbn in Hd. each_of Hd; subst d; compute_done.
  - vm_compute. discriminate.
  - is_request_date.
  - is_request_date.
  - exists (jan 4, "d3'"). compute_done.
Defined.

(** Rows of distinct dates saved twice into an empty directory. *)
Lemma save_again_changes_nothing_witness :
  let w := started ∅ ∅ providers_down in
  let once := (save_historical_data two_days "600519" "daily" "stock" w).2 in
  let twice := (save_historical_data two_days "600519" "daily" "stock" once).2 in
  same_store once twice.
Proof.
  intros w once twice.
  apply (save_again_changes_nothing two_days "600519" "daily" "stock" w).
  right. intros new_df Hnorm. injection Hnorm as <-. compute_done.
Defined.

(** The first request goes to [em] and saves its rows; the second one
    reads them from the store. *)
Lemma second_request_served_from_store_witness :
  let w := started ∅ ∅ (providers (Return (Some two_days)) None) in
  let first :=
    get_stock_history_cached "600519" "daily" (CompactStr (jan 1)) (CompactStr (jan 6)) "qfq" w in
  first.1 = Return two_days ∧
  ∃ served,
    get_stock_history_cached "600519" "daily" (CompactStr (jan 1)) (CompactStr (jan 6)) "qfq"
      first.2
    = (Return served, log (FileRead maotai_daily) (log (FileStat maotai_daily) first.2)) ∧
    ∀ d v, (d, v) ∈ [(jan 4, "d3'"); (jan 5, "d4")] → date_le (jan 1) d → date_le d (jan 6) →
           (IsoStr d, v) ∈ served.
Proof.
  intros w first. split; [vm_compute; reflexivity|].
  apply (second_request_served_from_store "600519" "daily" (jan 1) (jan 6) "qfq" w
           None two_days first.2 [(jan 4, "d3'"); (jan 5, "d4")] [] (jan 5)).
  - vm_compute. reflexivity.
  - reflexivity.
  - vm_compute. reflexivity.
  - reflexivity.
  - compute_done.
  - vm_compute. reflexivity.
  - compute_done.
  - split; [compute_done|]. intros d Hd. cbn in Hd. each_of Hd; subst d; compute_done.
  - vm_compute. discriminate.
  - is_request_date.
  - is_request_date.
  - exists (jan 4, "d3'"). compute_done.
Defined.

(** Over a damaged partition the rows come from [em] and the file stays
    as it is. *)
Lemma damaged_partition_never_repaired_witness :
  let w := started {[maotai_daily := Damaged]} ∅ (providers (Return (Some two_days)) None) in
  let call :=
    get_stock_history_cached "600519" "daily" (CompactStr (jan 1)) (CompactStr (jan 6)) "qfq" w in
  call.1 = Return two_days ∧ files call.2 = files w.
Proof.
  intros w call.
  destruct (damaged_partition_never_repaired "600519" "daily"
              (CompactStr (jan 1)) (CompactStr (jan 6)) "qfq" w) as (_ & Hcall & Hfiles).
  - vm_compute. reflexivity.
  - split; [|exact Hfiles]. etrans; [exact Hcall|]. vm_compute. reflexivity.
Defined.

(** A fetch in two formats over a stored partition: the partition stays
    as it was, and were the fetch itself the partition, a request would
    miss. *)
Lemma mixed_formats_never_cached_witness :
  let w := started {[maotai_daily := Parquet (iso three_days)]} ∅ providers_down in
  let stored := started {[maotai_daily := Parquet two_formats]} ∅ providers_down in
  files (save_historical_data two_formats "600519" "daily" "stock" w).2
    = {[maotai_daily := Parquet (iso three_days)]} ∧
  (get_historical_data "600519" "daily" (CompactStr (jan 1)) (CompactStr (jan 6))
     "stock" stored).1 = Return None.
Proof.
  intros w stored.
  assert (mixed_formats two_formats.*1) as Hmixed.
  { exists (jan 4), (jan 5). left. split; [reflexivity|].
    cbn. apply list_elem_of_further, list_elem_of_here. }
  split.
  - destruct (mixed_formats_never_cached two_formats "600519" "daily" "stock" w Hmixed)
      as (_ & Hfiles & _).
    exact Hfiles.
  - destruct (mixed_formats_never_cached two_formats "600519" "daily" "stock" stored Hmixed)
      as (_ & _ & Hmiss).
    apply Hmiss. vm_compute. reflexivity.
Defined.

(** Ten days are asked for, thirty are requested, and every provider
    is down. *)
Lemma analyze_stock_window_and_errors_witness :
  let w := started ∅ ∅ providers_down in
  days_between (today w) (_ord2ymd (_ymd2ord (today w) - 30)) = 30 ∧
  (analyze_stock label_report "600519" "daily" 10 w).1
  = Return (Error "获取 600519 数据失败: 所有数据源都不可用: Connection aborted").
Proof.
  intros w.
  destruct (analyze_stock_window_and_errors label_report "600519" "daily" 10 w)
    as (Hwindow & _ & Hraised & _).
  - intros [Hempty | [(c & Hin & Hc) | Hlen]]; [done| |done].
    cbn in Hin. each_of Hin; subst c; done.
  - split; [exact Hwindow|].
    rewrite (Hraised (Exception "所有数据源都不可用: Connection aborted"));
      [reflexivity|vm_compute; reflexivity].
Defined.

Lemma normalize_symbol_strips_market_witness :
  normalize_symbol "SH600519.Sh" = "600519".
Proof.
  apply (normalize_symbol_strips_market "SH" "600519" ".Sh").
  - unfold all_digits. cbn. repeat constructor.
  - compute_done.
  - compute_done.
Defined.


(** ... and the one of 000001 is still there. *)
Lemma clear_local_cache_spares_other_symbols_witness :
  let w := started two_partitions ∅ providers_down in
  files (clear_local_cache (Some "600519") w).2 !! pingan_daily
  = Some (Parquet (iso three_days)).
Proof.
  intros w.
  etrans; [apply (clear_local_cache_spares_other_symbols "600519" "000001" "daily" "stock" w)|].
  - discriminate.
  - unfold all_digits. cbn. repeat constructor.
  - compute_done.
  - compute_done.
  - compute_done.
  - discriminate.
  - vm_compute. reflexivity.
Defined.

Example local_cache_cleared :
  let w := started two_partitions ∅ providers_down in
  (clear_local_cache (Some "600519") w).1 = Return 1%nat ∧
  files (clear_local_cache (Some "600519") w).2 = {[pingan_daily := Parquet (iso three_days)]} ∧
  (clear_local_cache None w).1 = Return 2%nat ∧
  files (clear_local_cache None w).2 = ∅.
Proof. repeat split; vm_compute; reflexivity. Qed.

(** The two ends of the score are reached, with integers for floats. *)
Example score_extremes :
  let bullish := {| RSI := 20; MACD := 2; MACD_signal := 1; MACD_hist := 2; close := 5;
                    BB_upper := 10; BB_lower := 6; SMA20 := 8; EMA50 := 4;
                    EMA200 := Some 3; Stoch_K := 10 |} in
  let bearish := {| RSI := 80; MACD := 1; MACD_signal := 2; MACD_hist := 1; close := 5;
                    BB_upper := 4; BB_lower := 2; SMA20 := 3; EMA50 := 6;
                    EMA200 := Some 7; Stoch_K := 90 |} in
  let prev hist := {| RSI := 50; MACD := 0; MACD_signal := 0; MACD_hist := hist; close := 5;
                      BB_upper := 10; BB_lower := 0; SMA20 := 5; EMA50 := 5;
                      EMA200 := Some 5; Stoch_K := 50 |} in
  (get_comprehensive_score (λ _, false) Z.gtb Z.ltb id bullish (prev 1)).1.1 = 9 ∧
  (get_comprehensive_score (λ _, false) Z.gtb Z.ltb id bearish (prev 2)).1.1 = -8.
Proof. split; vm_compute; reflexivity. Qed.
